(** * rpm-repo: the repository generator of [scripts/generate_repo.py]

    A shallow embedding of the generator: the architecture classifier, the
    release selector, the asset matcher, the per-package fetch pipeline, the
    manifest reconciliation done by [main], the clean-up of the packages
    directory and the [.repo] descriptor.

    Conventions of the model.
    - A Python [str] is the [string] of the bytes of its UTF-8 encoding, so
      that a character beyond ASCII takes two to four bytes.  White space
      ([str.strip]) is the full class of [str.isspace]; case folding acts on
      the ASCII letters; the answers of [str.isdigit] and [int] beyond ASCII
      come from the tables of the interpreter and are fields of [World].
    - Python sets ([projects_to_update], [current_filenames]) are [gset string].
    - A Python [dict] whose iteration order is used ([ARCH_PATTERNS],
      [releases_by_minor]) is an association list in insertion order.
    - The packages directory is the list of its entries (name and content) in
      the order in which the operating system lists them.
    - Everything that the source does not compute itself (the provider API,
      downloads, [rpm], the clock, the Unicode tables of the interpreter) is
      a field of the record [World]; a call that raises is an explicit
      result. *)

From Stdlib Require Import ZArith Ascii Sorting.Sorted Permutation.
From stdpp Require Import base gmap sets list strings.

Local Open Scope Z_scope.

(** * Part I: the model *)

(** ** Strings *)

Module Str.

Definition is_upper (c : ascii) : bool :=
  let n := nat_of_ascii c in (Nat.leb 65 n && Nat.leb n 90)%bool.

Definition lower_char (c : ascii) : ascii :=
  if is_upper c then ascii_of_nat (nat_of_ascii c + 32) else c.

(** [s.lower()] *)
Fixpoint lower (s : string) : string :=
  match s with
  | EmptyString => EmptyString
  | String c s' => String (lower_char c) (lower s')
  end.

(** [s.startswith(p)] *)
Fixpoint startswith (p s : string) : bool :=
  match p, s with
  | EmptyString, _ => true
  | String a p', String b s' => if decide (a = b) then startswith p' s' else false
  | String _ _, EmptyString => false
  end.

(** [sub in s] *)
Fixpoint contains (sub s : string) : bool :=
  match s with
  | EmptyString => startswith sub EmptyString
  | String _ s' => startswith sub s || contains sub s'
  end.

(** [s.endswith(suf)] *)
Fixpoint endswith (suf s : string) : bool :=
  match s with
  | EmptyString => bool_decide (suf = EmptyString)
  | String _ s' => bool_decide (s = suf) || endswith suf s'
  end.

(** [s.lstrip(chars)] for a set of characters given by its test. *)
Fixpoint lstrip (drop : ascii → bool) (s : string) : string :=
  match s with
  | EmptyString => EmptyString
  | String c s' => if drop c then lstrip drop s' else s
  end.

(** [s.rstrip(chars)] *)
Fixpoint rstrip (drop : ascii → bool) (s : string) : string :=
  match s with
  | EmptyString => EmptyString
  | String c s' =>
      match rstrip drop s' with
      | EmptyString => if drop c then EmptyString else String c EmptyString
      | t => String c t
      end
  end.

(** The characters for which [str.isspace] holds.  Below 128, one byte
    each: tab to carriage return, the four separators 28 to 31, and the
    space. *)
Definition is_space1 (c : ascii) : bool :=
  let n := nat_of_ascii c in
  ((Nat.leb 9 n && Nat.leb n 13) || (Nat.leb 28 n && Nat.leb n 32))%bool.

(** On two bytes: U+0085 (C2 85) and U+00A0 (C2 A0). *)
Definition is_space2 (a b : ascii) : bool :=
  let y := nat_of_ascii b in
  (Nat.eqb (nat_of_ascii a) 194 && (Nat.eqb y 133 || Nat.eqb y 160))%bool.

(** On three bytes: U+1680 (E1 9A 80), U+2000 to U+200A (E2 80 80 to
    E2 80 8A), U+2028, U+2029 and U+202F (E2 80 A8, A9 and AF), U+205F
    (E2 81 9F) and U+3000 (E3 80 80). *)
Definition is_space3 (a b c : ascii) : bool :=
  let x := nat_of_ascii a in
  let y := nat_of_ascii b in
  let z := nat_of_ascii c in
  ((Nat.eqb x 225 && Nat.eqb y 154 && Nat.eqb z 128)
   || (Nat.eqb x 226 && Nat.eqb y 128
       && ((Nat.leb 128 z && Nat.leb z 138)
           || Nat.eqb z 168 || Nat.eqb z 169 || Nat.eqb z 175))
   || (Nat.eqb x 226 && Nat.eqb y 129 && Nat.eqb z 159)
   || (Nat.eqb x 227 && Nat.eqb y 128 && Nat.eqb z 128))%bool.

(** [s.lstrip()]: the white-space characters at the start are dropped. *)
Fixpoint lstrip_space (s : string) : string :=
  match s with
  | EmptyString => EmptyString
  | String a s1 =>
      if is_space1 a then lstrip_space s1
      else match s1 with
           | EmptyString => s
           | String b s2 =>
               if is_space2 a b then lstrip_space s2
               else match s2 with
                    | EmptyString => s
                    | String c s3 => if is_space3 a b c then lstrip_space s3 else s
                    end
           end
  end.

(** [s.rstrip()] on the bytes of [s] taken backwards: the last byte comes
    first, so that a white-space character of several bytes is met from its
    last byte. *)
Fixpoint rstrip_space_rev (r : list ascii) : list ascii :=
  match r with
  | [] => []
  | c :: r1 =>
      if is_space1 c then rstrip_space_rev r1
      else match r1 with
           | [] => r
           | b :: r2 =>
               if is_space2 b c then rstrip_space_rev r2
               else match r2 with
                    | [] => r
                    | a :: r3 => if is_space3 a b c then rstrip_space_rev r3 else r
                    end
           end
  end.

(** [s.rstrip()] *)
Definition rstrip_space (s : string) : string :=
  String.string_of_list_ascii
    (rev (rstrip_space_rev (rev (String.list_ascii_of_string s)))).

(** [s.strip()] *)
Definition strip (s : string) : string := lstrip_space (rstrip_space s).

(** A plain character: ASCII and not white space, so that it is no byte of
    a white-space character. *)
Definition is_plain (c : ascii) : bool :=
  (Nat.ltb (nat_of_ascii c) 128 && negb (is_space1 c))%bool.

(** The text has a plain character. *)
Definition has_plain (s : string) : bool :=
  existsb is_plain (String.list_ascii_of_string s).

(** [s.split(sep)] for a one-character separator: never an empty list. *)
Fixpoint split (sep : ascii) (s : string) : list string :=
  match s with
  | EmptyString => [EmptyString]
  | String c s' =>
      if decide (c = sep) then EmptyString :: split sep s'
      else match split sep s' with
           | h :: t => String c h :: t
           | [] => [String c EmptyString]
           end
  end.

Definition digit_value (c : ascii) : option Z :=
  let n := nat_of_ascii c in
  if (Nat.leb 48 n && Nat.leb n 57)%bool then Some (Z.of_nat n - 48) else None.

(** [s.isascii()]: every byte is below 128. *)
Definition isascii (s : string) : bool :=
  forallb (λ c, Nat.ltb (nat_of_ascii c) 128) (String.list_ascii_of_string s).

(** [s.isdigit()] for an ASCII text: not empty and the digits 0 to 9 only. *)
Definition isdigit (s : string) : bool :=
  match s with
  | EmptyString => false
  | _ => forallb (λ c, bool_decide (is_Some (digit_value c))) (String.list_ascii_of_string s)
  end.

(** The number that a run of the digits 0 to 9 writes in base ten (any
    other character counts 0). *)
Definition int (s : string) : Z :=
  fold_left (λ acc c, 10 * acc + default 0 (digit_value c))
            (String.list_ascii_of_string s) 0.

(** The lines of a text: [s.split("\n")]. *)
Definition lines (s : string) : list string := split "010"%char s.

End Str.

(** ** The patterns of [ARCH_PATTERNS]

    The table only uses literal characters and one negated one-character
    class, so a pattern is a sequence of such atoms and [re.search] looks for
    a position of the subject at which the whole sequence matches. *)

Module Re.

Inductive atom : Type :=
| Lit (c : ascii)        (* the character itself *)
| NotChar (c : ascii).   (* the class [^c] *)

Definition pattern : Type := list atom.

Definition atom_matches (a : atom) (c : ascii) : bool :=
  match a with
  | Lit x => bool_decide (c = x)
  | NotChar x => negb (bool_decide (c = x))
  end.

(** [re.match(p, s)]: the pattern matches at the start of [s]. *)
Fixpoint match_here (p : pattern) (s : string) : bool :=
  match p, s with
  | [], _ => true
  | a :: p', String c s' => atom_matches a c && match_here p' s'
  | _ :: _, EmptyString => false
  end.

(** [re.search(p, s)] as a truth value. *)
Fixpoint search (p : pattern) (s : string) : bool :=
  match_here p s ||
  match s with
  | EmptyString => false
  | String _ s' => search p s'
  end.

(** A pattern made of literal characters only. *)
Definition lit (s : string) : pattern := map Lit (String.list_ascii_of_string s).

End Re.

(** ** Data model: the dataclasses *)

Module RpmPackage.
Record t : Type := mk {
  name : string;
  version : string;
  architecture : string;
  url : string;
  filename : string;
  project_repo : string;
  size : Z;
  sha256 : string;
  summary : string;
  description : string;
  license : string;
  vendor : string;
  homepage : string
}.
End RpmPackage.

Module Release.
Record t : Type := mk {
  tag : string;
  version : string;
  major_minor : string;
  packages : list RpmPackage.t
}.
End Release.

Module Project.
Record t : Type := mk {
  repo : string;
  name : string;
  description : string;
  keep_versions : Z;
  asset_pattern : string
}.

(** [__post_init__]: an empty name becomes the last component of [repo]. *)
Definition post_init (p : t) : t :=
  if bool_decide (name p = "") then
    mk (repo p) (List.last (Str.split "/"%char (repo p)) "") (description p)
       (keep_versions p) (asset_pattern p)
  else p.
End Project.

Module RepoSettings.
Record t : Type := mk {
  name : string;
  baseurl : string;
  architectures : list string;
  description : string;
  sign_packages : bool
}.
End RepoSettings.

(** What the provider returns for one asset and one release (the keys of the
    JSON objects that the generator reads). *)
Module Asset.
Record t : Type := mk {
  name : string;
  browser_download_url : string;
  size : Z
}.
End Asset.

Module ReleaseData.
Record t : Type := mk {
  prerelease : bool;
  draft : bool;
  tag_name : string;
  assets : list Asset.t
}.
End ReleaseData.

(** An entry of the list that [find_rpm_assets] returns. *)
Module RpmAsset.
Record t : Type := mk {
  name : string;
  url : string;
  size : Z;
  architecture : string
}.
End RpmAsset.

(** ** Architecture classifier *)

Definition ARCH_PATTERNS : list (string * list Re.pattern) :=
  [ ("x86_64",  [Re.lit "x86_64"; Re.lit "amd64"; Re.lit "x64"]);
    ("aarch64", [Re.lit "aarch64"; Re.lit "arm64"]);
    ("i686",    [Re.lit "i686"; Re.lit "i386"; Re.lit "x86" ++ [Re.NotChar "_"%char]]);
    ("armv7hl", [Re.lit "armv7hl"; Re.lit "armhf"]);
    ("noarch",  [Re.lit "noarch"]) ].

(** The two nested loops of [detect_architecture] over a table: the first
    entry one of whose patterns is found in the subject. *)
Fixpoint first_arch (table : list (string * list Re.pattern)) (subject : string)
  : option string :=
  match table with
  | [] => None
  | (arch, patterns) :: rest =>
      if existsb (λ pattern, Re.search pattern subject) patterns
      then Some arch
      else first_arch rest subject
  end.

Definition detect_architecture (filename : string) : option string :=
  let filename_lower := Str.lower filename in
  first_arch ARCH_PATTERNS filename_lower.

(** ** Versions *)

(** [tag.lstrip("vV")] *)
Definition extract_version (tag : string) : string :=
  Str.lstrip (λ c, bool_decide (c = "v"%char) || bool_decide (c = "V"%char)) tag.

Definition extract_major_minor (version : string) : string :=
  match Str.split "."%char version with
  | p0 :: p1 :: _ => p0 +:+ "." +:+ p1
  | _ => version
  end.

(** Python's order on lists of integers: [list_ltb a b] is [a < b]. *)
Fixpoint list_ltb (a b : list Z) : bool :=
  match a, b with
  | [], [] => false
  | [], _ :: _ => true
  | _ :: _, [] => false
  | x :: a', y :: b' => (x <? y) || ((x =? y) && list_ltb a' b')
  end.

(** [sorted(l, key=key, reverse=True)]: a stable sort, so that elements with
    equal keys keep the order of the input. *)
Section Sorted.
Context {A : Type} (key : A → list Z).

Fixpoint insert_desc (x : A) (l : list A) : list A :=
  match l with
  | [] => [x]
  | y :: l' => if list_ltb (key x) (key y) then y :: insert_desc x l' else x :: l
  end.

Definition sorted_reverse (l : list A) : list A := foldr insert_desc [] l.
End Sorted.

(** ** Dictionaries in insertion order *)

Fixpoint dict_get {V : Type} (k : string) (d : list (string * V)) : option V :=
  match d with
  | [] => None
  | (k', v) :: d' => if decide (k = k') then Some v else dict_get k d'
  end.

(** ** The world outside the process *)

Inductive DownloadOutcome : Type :=
| Downloaded (content : string)       (* the whole body was written *)
| ConnectFailed                       (* [urlopen] raised: nothing written *)
| TransferFailed (partial : string).  (* the copy raised: a partial file stays *)

(** The fixed record of fields that [extract_rpm_info] fills in. *)
Module RpmInfo.
Record t : Type := mk {
  name : string;
  version : string;
  release : string;
  summary : string;
  license : string;
  vendor : string;
  url : string;
  description : string
}.
End RpmInfo.

Record World : Type := {
  (** [github.get_releases(repo)]; [None] when the call raises. *)
  get_releases : string → option (list ReleaseData.t);
  (** [github.get_repo(repo)]: [None] when the call raises, else the value of
      the key [description] if there is one. *)
  get_repo : string → option (option string);
  (** [urlopen] on an asset URL, copied to the destination. *)
  download : string → DownloadOutcome;
  (** [rpm --addsign] with a key on a file content: the signed content, or
      [None] when signing fails and the file stays as it was. *)
  rpm_addsign : string → string → option string;
  (** [hashlib.sha256(content).hexdigest()] *)
  sha256_hexdigest : string → string;
  (** [rpm -qip] on a file content: [None] is the empty dictionary. *)
  extract_rpm_info : string → option RpmInfo.t;
  (** [datetime.now(timezone.utc).isoformat()] *)
  now : string;
  (** [x.isdigit()] for a text [x] that has a character beyond ASCII. *)
  isdigit_unicode : string → bool;
  (** [int(x)] for a text [x] that is not a run of at most 4300 of the digits
      0 to 9 (the length up to which every interpreter converts): [None] when
      the call raises [ValueError]. *)
  int_unicode : string → option Z
}.

(** ** The sort key of [fetch_releases] *)

(** [x.isdigit()] *)
Definition isdigit (w : World) (x : string) : bool :=
  if Str.isascii x then Str.isdigit x else isdigit_unicode w x.

(** [int(x)]; [None] when it raises [ValueError]. *)
Definition int (w : World) (x : string) : option Z :=
  if Str.isdigit x && (String.length x <=? 4300)%nat
  then Some (Str.int x)
  else int_unicode w x.

(** [int(x) if x.isdigit() else 0] *)
Definition component_key (w : World) (x : string) : option Z :=
  if isdigit w x then int w x else Some 0.

(** [[int(x) if x.isdigit() else 0 for x in v.split(".")]]; [None] when one
    of the conversions raises. *)
Definition version_key (w : World) (v : string) : option (list Z) :=
  mapM (component_key w) (Str.split "."%char v).

(** A component on which the key needs no table: ASCII, and short enough
    for [int] whatever the interpreter. *)
Definition plain_component (x : string) : Prop :=
  Str.isascii x = true ∧ (String.length x ≤ 4300)%nat.

(** [sorted(l, key=version_key, reverse=True)]: the keys are computed first,
    one for each element, and any of them may raise; then the elements are
    sorted on their keys. *)
Definition sorted_by_version_key (w : World) (l : list string) : option (list string) :=
  match mapM (λ v, k ← version_key w v; Some (k, v)) l with
  | None => None
  | Some keyed => Some (map snd (sorted_reverse fst keyed))
  end.

(** ** The output directory *)

(** The entries of the packages directory, name and content, in listing
    order.  Entries whose name ends in [.rpm] are regular files; any other
    entry (the [repodata] directory of the indexer, say) is carried along
    with an opaque content. *)
Abbreviation Directory := (list (string * string)).

Definition path_exists (name : string) (d : Directory) : bool :=
  bool_decide (name ∈ d.*1).

(** [open(path, "wb")] and a write: replaces the content or adds an entry. *)
Fixpoint write_file (name content : string) (d : Directory) : Directory :=
  match d with
  | [] => [(name, content)]
  | (n, c) :: d' =>
      if decide (n = name) then (n, content) :: d' else (n, c) :: write_file name content d'
  end.

(** [path.unlink()] *)
Definition unlink (name : string) (d : Directory) : Directory :=
  filter (λ e, e.1 ≠ name) d.

(** [packages_dir.glob("*.rpm")], as the names found: every entry whose
    name ends in [.rpm], hidden ones included, the case of letters counting. *)
Definition glob_rpm (d : Directory) : list string :=
  filter (λ n, Str.endswith ".rpm" n = true) d.*1.

Module Manifest.
Record t : Type := mk {
  packages : list RpmPackage.t;
  updated : string
}.
End Manifest.

Module Output.
Record t : Type := mk {
  packages_dir : option Directory;      (* [None]: does not exist *)
  manifest_file : option Manifest.t;    (* [packages.json] *)
  repo_file : option string             (* [<name>.repo] *)
}.
End Output.

(** [load_manifest] followed by the construction of [existing_packages]. *)
Definition load_manifest (manifest_file : option Manifest.t) : list RpmPackage.t :=
  match manifest_file with
  | Some m => Manifest.packages m
  | None => []
  end.

Definition save_manifest (w : World) (packages : list RpmPackage.t) : Manifest.t :=
  Manifest.mk packages (now w).

(** Truth value of an optional string, as in [if args.gpg_key:]. *)
Definition truthy (o : option string) : bool :=
  match o with
  | Some s => negb (bool_decide (s = ""))
  | None => false
  end.

(** ** Clean-up of the packages directory *)

Definition cleanup_old_packages
    (packages_dir : option Directory) (all_packages : list RpmPackage.t)
  : option Directory * list string :=
  let current_filenames : gset string :=
    list_to_set (map RpmPackage.filename all_packages) in
  match packages_dir with
  | None => (None, [])
  | Some d =>
      let '(d', removed) :=
        foldl (λ '(d, removed) rpm_file,
                 if bool_decide (rpm_file ∉ current_filenames)
                 then (unlink rpm_file d, removed ++ [rpm_file])
                 else (d, removed))
              (d, []) (glob_rpm d) in
      (Some d', removed)
  end.

(** ** The repository descriptor *)

Definition gpg_lines (settings : RepoSettings.t) (gpg_key : option string)
    (sign_packages : bool) : string :=
  if truthy gpg_key then
    if sign_packages then
      "gpgcheck=1
repo_gpgcheck=1
gpgkey=" +:+ RepoSettings.baseurl settings +:+ "/RPM-GPG-KEY-" +:+ RepoSettings.name settings
    else
      "gpgcheck=0
repo_gpgcheck=1
gpgkey=" +:+ RepoSettings.baseurl settings +:+ "/RPM-GPG-KEY-" +:+ RepoSettings.name settings
  else "gpgcheck=0".

Definition packages_url (settings : RepoSettings.t) : string :=
  Str.rstrip (λ c, bool_decide (c = "/"%char)) (RepoSettings.baseurl settings) +:+ "/packages".

(** The text that [generate_repo_file] writes. *)
Definition generate_repo_file (settings : RepoSettings.t) (gpg_key : option string)
    (sign_packages : bool) : string :=
  let content :=
    "[" +:+ RepoSettings.name settings +:+ "]
name=" +:+ RepoSettings.description settings +:+ "
baseurl=" +:+ packages_url settings +:+ "
enabled=1
" +:+ gpg_lines settings gpg_key sign_packages +:+ "
" in
  Str.strip content +:+ "
".

(** ** Command line *)

Module Args.
Record t : Type := mk {
  project : option string;   (* [--project] *)
  list : bool;               (* [--list] *)
  dry_run : bool;            (* [--dry-run] *)
  gpg_key : option string;   (* [--gpg-key] *)
  no_sign : bool             (* [--no-sign] *)
}.
End Args.

(** ** Exceptions

    A computation on a state either completes or raises; in both cases the
    state reached so far is kept, as the effects of Python statements
    executed before a [raise] are. *)

Inductive result (S : Type) : Type :=
| Ok (st : S)
| Raise (st : S).
Arguments Ok {S} st.
Arguments Raise {S} st.

Definition state_of {S : Type} (r : result S) : S :=
  match r with Ok st | Raise st => st end.

(** A [for] loop whose body may raise: the first exception leaves the loop. *)
Fixpoint for_each {A S : Type} (body : S → A → result S) (l : list A) (st : S)
  : result S :=
  match l with
  | [] => Ok st
  | x :: l' =>
      match body st x with
      | Ok st' => for_each body l' st'
      | Raise st' => Raise st'
      end
  end.

(** The part of the state of [main] that the project loop changes. *)
Module Run.
Record t : Type := mk {
  packages_dir : Directory;
  new_packages : list RpmPackage.t
}.
End Run.

(** What [main] does, with its exit status. *)
Inductive Outcome : Type :=
| Listed                                   (* [--list]: exit 0 *)
| ProjectNotFound                          (* [return 1] *)
| DryRun                                   (* nothing written: exit 0 *)
| Generated (out : Output.t) (all_packages : list RpmPackage.t)
            (removed : list string).       (* exit 0 *)

Definition exit_status (o : Outcome) : Z :=
  match o with ProjectNotFound => 1 | _ => 0 end.

Section Generator.

(** [re.search(pattern, name, re.IGNORECASE)] as a truth value, for the
    patterns that the configuration supplies in [asset_pattern]; the
    patterns are taken to compile. *)
Variable re_search_ignorecase : string → string → bool.

(** *** Asset matcher *)

Definition find_rpm_assets (release_data : ReleaseData.t) (project : Project.t)
    (architectures : list string) : list RpmAsset.t :=
  omap (λ asset,
    let name := Asset.name asset in
    if negb (Str.endswith ".rpm" name) then None
    else if Str.contains ".src.rpm" name || Str.contains ".srpm" name then None
    else if negb (bool_decide (Project.asset_pattern project = ""))
            && negb (re_search_ignorecase (Project.asset_pattern project) name)
    then None
    else match detect_architecture name with
         | Some arch =>
             if bool_decide (arch ∈ architectures)
             then Some (RpmAsset.mk name (Asset.browser_download_url asset)
                                    (Asset.size asset) arch)
             else None
         | None => None
         end)
    (ReleaseData.assets release_data).

(** *** Release selector *)

(** The description used as the summary of the packages. *)
Definition resolve_description (w : World) (project : Project.t) : string :=
  let fallback := Project.name project +:+ " from GitHub" in
  if bool_decide (Project.description project = "") then
    match get_repo w (Project.repo project) with
    | Some (Some d) => if bool_decide (d = "") then fallback else d
    | Some None => fallback
    | None => fallback
    end
  else Project.description project.

(** The first loop of [fetch_releases]: the first release met for each
    major.minor, pre-releases and drafts left out. *)
Definition releases_by_minor (releases_data : list ReleaseData.t)
  : list (string * ReleaseData.t) :=
  foldl (λ by_minor release_data,
           if ReleaseData.prerelease release_data || ReleaseData.draft release_data
           then by_minor
           else
             let tag := ReleaseData.tag_name release_data in
             let version := extract_version tag in
             let major_minor := extract_major_minor version in
             if bool_decide (major_minor ∈ by_minor.*1) then by_minor
             else by_minor ++ [(major_minor, release_data)])
        [] releases_data.

(** [None] when the sort raises. *)
Definition sorted_versions (w : World) (by_minor : list (string * ReleaseData.t))
  : option (list string) :=
  sorted_by_version_key w by_minor.*1.

Definition versions_to_keep (project : Project.t) (sorted : list string) : list string :=
  if 0 <? Project.keep_versions project
  then take (Z.to_nat (Project.keep_versions project + 1)) sorted
  else take 1 sorted.

(** The second loop of [fetch_releases]: one [Release] for each kept
    version that has matching assets.  ([dict_get] cannot fail here: the
    versions are keys of [by_minor].) *)
Definition build_releases (project : Project.t) (settings : RepoSettings.t)
    (description : string) (by_minor : list (string * ReleaseData.t))
    (kept : list string) : list Release.t :=
  omap (λ major_minor,
    match dict_get major_minor by_minor with
    | None => None
    | Some release_data =>
        let tag := ReleaseData.tag_name release_data in
        let version := extract_version tag in
        let rpm_assets :=
          find_rpm_assets release_data project (RepoSettings.architectures settings) in
        match rpm_assets with
        | [] => None
        | _ =>
            Some (Release.mk tag version major_minor
              (map (λ asset,
                 RpmPackage.mk (Project.name project) version
                   (RpmAsset.architecture asset) (RpmAsset.url asset)
                   (RpmAsset.name asset) (Project.repo project)
                   (RpmAsset.size asset) "" description "" "" ""
                   ("https://github.com/" +:+ Project.repo project))
                 rpm_assets))
        end
    end) kept.

(** [fetch_releases] once the provider has answered; [None] when the sort
    raises. *)
Definition select_releases (w : World) (releases_data : list ReleaseData.t)
    (project : Project.t) (settings : RepoSettings.t) (description : string)
  : option (list Release.t) :=
  let by_minor := releases_by_minor releases_data in
  match sorted_versions w by_minor with
  | None => None
  | Some sorted =>
      let kept := versions_to_keep project sorted in
      Some (build_releases project settings description by_minor kept)
  end.

(** [fetch_releases]; [None] when [get_releases] or the sort raises. *)
Definition fetch_releases (w : World) (project : Project.t) (settings : RepoSettings.t)
  : option (list Release.t) :=
  match get_releases w (Project.repo project) with
  | None => None
  | Some releases_data =>
      select_releases w releases_data project settings (resolve_description w project)
  end.

(** *** Fetch and verify pipeline *)

(** The assignments from the dictionary of [extract_rpm_info]. *)
Definition apply_rpm_info (info : RpmInfo.t) (pkg : RpmPackage.t) : RpmPackage.t :=
  RpmPackage.mk (RpmInfo.name info) (RpmPackage.version pkg)
    (RpmPackage.architecture pkg) (RpmPackage.url pkg) (RpmPackage.filename pkg)
    (RpmPackage.project_repo pkg) (RpmPackage.size pkg) (RpmPackage.sha256 pkg)
    (RpmInfo.summary info) (RpmInfo.description info) (RpmInfo.license info)
    (RpmInfo.vendor info) (RpmInfo.url info).

Definition set_hash (digest : string) (size : Z) (pkg : RpmPackage.t) : RpmPackage.t :=
  RpmPackage.mk (RpmPackage.name pkg) (RpmPackage.version pkg)
    (RpmPackage.architecture pkg) (RpmPackage.url pkg) (RpmPackage.filename pkg)
    (RpmPackage.project_repo pkg) size digest
    (RpmPackage.summary pkg) (RpmPackage.description pkg) (RpmPackage.license pkg)
    (RpmPackage.vendor pkg) (RpmPackage.homepage pkg).

(** [download_file] when the target is absent: the directory afterwards
    and [needs_signing], or the directory at the point of the exception. *)
Definition fetch_file (w : World) (pkg : RpmPackage.t) (dir : Directory)
  : result (Directory * bool) :=
  let rpm_path := RpmPackage.filename pkg in
  if negb (path_exists rpm_path dir) then
    match download w (RpmPackage.url pkg) with
    | Downloaded content => Ok (write_file rpm_path content dir, true)
    | ConnectFailed => Raise (dir, true)
    | TransferFailed partial => Raise (write_file rpm_path partial dir, true)
    end
  else Ok (dir, false).

(** [sign_rpm_package]: the directory afterwards and the truth value
    returned. *)
Definition sign_rpm_package (w : World) (rpm_path : string) (gpg_key : option string)
    (dir : Directory) : Directory * bool :=
  match dict_get rpm_path dir with
  | Some content =>
      match rpm_addsign w (default "" gpg_key) content with
      | Some signed => (write_file rpm_path signed dir, true)
      | None => (dir, false)
      end
  | None => (dir, false)
  end.

(** The body of the loop over [release.packages] in [main]. *)
Definition process_package (w : World) (settings : RepoSettings.t) (args : Args.t)
    (st : Run.t) (pkg : RpmPackage.t) : result Run.t :=
  if Args.dry_run args then Ok st
  else
    let rpm_path := RpmPackage.filename pkg in
    match fetch_file w pkg (Run.packages_dir st) with
    | Raise (dir, _) => Raise (Run.mk dir (Run.new_packages st))
    | Ok (dir, needs_signing) =>
        let dir :=
          if RepoSettings.sign_packages settings && truthy (Args.gpg_key args)
             && needs_signing
          then (sign_rpm_package w rpm_path (Args.gpg_key args) dir).1
          else dir in
        match dict_get rpm_path dir with
        | None => Raise (Run.mk dir (Run.new_packages st))   (* [open] raises *)
        | Some content =>
            let pkg := set_hash (sha256_hexdigest w content)
                                (Z.of_nat (String.length content)) pkg in
            let pkg :=
              match extract_rpm_info w content with
              | Some info => apply_rpm_info info pkg
              | None => pkg
              end in
            Ok (Run.mk dir (Run.new_packages st ++ [pkg]))
        end
    end.

(** The two nested loops over the releases of a project and their packages. *)
Definition process_releases (w : World) (settings : RepoSettings.t) (args : Args.t)
    (releases : list Release.t) (st : Run.t) : result Run.t :=
  for_each (λ st release,
              for_each (process_package w settings args) (Release.packages release) st)
           releases st.

(** The body of the loop over [projects_to_process]: the [try] statement,
    whose handler goes on with the next project. *)
Definition process_project (w : World) (settings : RepoSettings.t) (args : Args.t)
    (st : Run.t) (project : Project.t) : Run.t :=
  match fetch_releases w project settings with
  | None => st
  | Some [] => st
  | Some releases => state_of (process_releases w settings args releases st)
  end.

(** *** Manifest reconciliation *)

Definition projects_to_process (args : Args.t) (all_projects : list Project.t)
  : option (list Project.t) :=
  if truthy (Args.project args) then
    match filter (λ p, Some (Project.name p) = Args.project args
                       ∨ Some (Project.repo p) = Args.project args) all_projects with
    | [] => None
    | selected => Some selected
    end
  else Some all_projects.

Definition preserved_packages (existing_packages : list RpmPackage.t)
    (projects_to_update : gset string) : list RpmPackage.t :=
  filter (λ pkg, RpmPackage.project_repo pkg ∉ projects_to_update) existing_packages.

(** The reconciliation that [main] performs around the project loop: the
    packages preserved from the manifest, followed by the new ones, and the
    clean-up of the packages directory against that list. *)
Definition reconcile (existing_packages : list RpmPackage.t)
    (projects_to_update : gset string) (new_packages : list RpmPackage.t)
    (packages_dir : option Directory)
  : list RpmPackage.t * (option Directory * list string) :=
  let preserved := preserved_packages existing_packages projects_to_update in
  let all_packages := preserved ++ new_packages in
  (all_packages, cleanup_old_packages packages_dir all_packages).

(** [packages_dir.mkdir(parents=True, exist_ok=True)] *)
Definition mkdir (d : option Directory) : Directory := default [] d.

(** [main], from the loaded configuration to the written descriptor.  The
    external indexer and the signing of its metadata, which act on
    [repodata] and on the key file only, are left out.  In a dry run the
    project loop changes nothing, whatever directory it starts from. *)
Definition main (w : World) (settings : RepoSettings.t) (all_projects : list Project.t)
    (args : Args.t) (out : Output.t) : Outcome :=
  if Args.list args then Listed
  else
    match projects_to_process args all_projects with
    | None => ProjectNotFound
    | Some projects =>
        let existing_packages := load_manifest (Output.manifest_file out) in
        let projects_to_update : gset string :=
          list_to_set (map Project.repo projects) in
        let packages_dir := mkdir (Output.packages_dir out) in
        let st := foldl (process_project w settings args)
                        (Run.mk packages_dir []) projects in
        if Args.dry_run args then DryRun
        else
          let '(all_packages, (packages_dir, removed)) :=
            reconcile existing_packages projects_to_update (Run.new_packages st)
                      (Some (Run.packages_dir st)) in
          let repo_file :=
            generate_repo_file settings
              (if Args.no_sign args then None else Args.gpg_key args)
              (RepoSettings.sign_packages settings) in
          Generated (Output.mk packages_dir (Some (save_manifest w all_packages))
                               (Some repo_file))
                    all_packages removed
    end.

End Generator.

(** ** Further parts of the generator *)

(** [sep.join(l)] *)
Fixpoint join_with (sep : string) (l : list string) : string :=
  match l with
  | [] => ""
  | [x] => x
  | x :: l' => x +:+ sep +:+ join_with sep l'
  end.

(** What [text=True] makes of the decoded output of a process: every
    carriage return followed by a line feed, and every other carriage
    return, becomes one line feed. *)
Fixpoint universal_newlines (s : string) : string :=
  match s with
  | EmptyString => EmptyString
  | String c s1 =>
      if bool_decide (c = "013"%char) then
        match s1 with
        | String c' s2 =>
            if bool_decide (c' = "010"%char)
            then String "010"%char (universal_newlines s2)
            else String "010"%char (universal_newlines s1)
        | EmptyString => String "010"%char EmptyString
        end
      else String c (universal_newlines s1)
  end.

(** What [subprocess.run] did with the [rpm -qip] query of
    [extract_rpm_info]: the process ended with a return code and
    [result.stdout], the text that the interpreter made of its output, or
    the call raised [SubprocessError] or [FileNotFoundError]. *)
Inductive RpmQuery : Type :=
| QueryExited (returncode : Z) (stdout : string)
| QueryRaises.

(** The query of a process that exits with [returncode] after printing
    [printed]. *)
Definition rpm_query_of (returncode : Z) (printed : string) : RpmQuery :=
  QueryExited returncode (universal_newlines printed).

(** [x if x != "(none)" else ""] *)
Definition none_to_empty (s : string) : string :=
  if bool_decide (s = "(none)") then "" else s.

(** The body of [extract_rpm_info] on the outcome of the query; [None] is the
    empty dictionary. *)
Definition parse_rpm_query (q : RpmQuery) : option RpmInfo.t :=
  match q with
  | QueryRaises => None
  | QueryExited returncode stdout =>
      if bool_decide (returncode = 0) then
        match Str.split "010"%char stdout with
        | l0 :: l1 :: l2 :: l3 :: l4 :: l5 :: l6 :: rest =>
            Some (RpmInfo.mk (none_to_empty l0) (none_to_empty l1) (none_to_empty l2)
                             (none_to_empty l3) (none_to_empty l4) (none_to_empty l5)
                             (none_to_empty l6)
                             (match rest with
                              | [] => ""
                              | _ => join_with (String "010"%char "") rest
                              end))
        | _ => None
        end
      else None
  end.

(** The two files of the home directory that [sign_rpm_package] touches:
    [.rpmmacros] and the backup that it makes of it. *)
Module Home.
Record t : Type := mk {
  rpmmacros : option string;
  backup : option string
}.
End Home.

(** What [subprocess.run] did with [rpm --addsign]. *)
Inductive RpmSign : Type :=
| SignExited (returncode : Z)
| SignRaises.

Definition dquote : string := String (ascii_of_nat 34) EmptyString.

(** The macros written for a key, [gpg_key or ""] filled in. *)
Definition macros_content (gpg_key : option string) : string :=
  "%_gpg_name " +:+ default "" gpg_key +:+ "
%__gpg_sign_cmd %{__gpg} gpg --batch --no-armor --no-secmem-warning -u "
  +:+ dquote +:+ "%{_gpg_name}" +:+ dquote
  +:+ " -sbo %{__signature_filename} %{__plaintext_filename}
".

(** [sign_rpm_package] as seen from the home directory: the backup, the
    [try] block that writes the macros and runs [rpm], and the [finally]
    block that restores; with the truth value returned. *)
Definition sign_rpm_package_macros (gpg_key : option string) (rpm : RpmSign)
    (home : Home.t) : Home.t * bool :=
  let '(home, backup_made) :=
    match Home.rpmmacros home with
    | Some content => (Home.mk (Some content) (Some content), true)
    | None => (home, false)
    end in
  let home := Home.mk (Some (macros_content gpg_key)) (Home.backup home) in
  let signed :=
    match rpm with
    | SignExited returncode => bool_decide (returncode = 0)
    | SignRaises => false
    end in
  let home :=
    if backup_made && bool_decide (is_Some (Home.backup home))
    then Home.mk (Home.backup home) None
    else if bool_decide (is_Some (Home.rpmmacros home))
         then Home.mk None (Home.backup home)
         else home in
  (home, signed).

(** The character does not occur in the string. *)
Definition has_no (c : ascii) (s : string) : Prop :=
  c ∉ String.list_ascii_of_string s.

(** A release that the selector considers: neither a pre-release nor a
    draft. *)
Definition eligible (release_data : ReleaseData.t) : bool :=
  negb (ReleaseData.prerelease release_data || ReleaseData.draft release_data).

(** The version bucket of a release. *)
Definition bucket_of (release_data : ReleaseData.t) : string :=
  extract_major_minor (extract_version (ReleaseData.tag_name release_data)).

(** One turn of the first loop of [fetch_releases], on the dictionary built
    so far. *)
Definition by_minor_step (by_minor : list (string * ReleaseData.t))
    (release_data : ReleaseData.t) : list (string * ReleaseData.t) :=
  if eligible release_data then
    if bool_decide (bucket_of release_data ∈ by_minor.*1) then by_minor
    else by_minor ++ [(bucket_of release_data, release_data)]
  else by_minor.

(** The package that the second loop of [fetch_releases] builds from an
    asset. *)
Definition package_of_asset (project : Project.t) (version description : string)
    (asset : RpmAsset.t) : RpmPackage.t :=
  RpmPackage.mk (Project.name project) version
    (RpmAsset.architecture asset) (RpmAsset.url asset)
    (RpmAsset.name asset) (Project.repo project)
    (RpmAsset.size asset) "" description "" "" ""
    ("https://github.com/" +:+ Project.repo project).

(** The end of the body of the package loop, on the content of the file:
    the hash, the size and the fields that [rpm] reports. *)
Definition record_package (w : World) (content : string) (pkg : RpmPackage.t)
  : RpmPackage.t :=
  let pkg := set_hash (sha256_hexdigest w content) (Z.of_nat (String.length content)) pkg in
  match extract_rpm_info w content with
  | Some info => apply_rpm_info info pkg
  | None => pkg
  end.

(** The content with which a freshly downloaded file ends up: signed when
    signing is configured, a key is given and [rpm] succeeds. *)
Definition signed_or_plain (w : World) (settings : RepoSettings.t) (args : Args.t)
    (content : string) : string :=
  if RepoSettings.sign_packages settings && truthy (Args.gpg_key args) then
    match rpm_addsign w (default "" (Args.gpg_key args)) content with
    | Some signed => signed
    | None => content
    end
  else content.

(** ** Predicates of the statements *)

(** Some pattern of the entry is found in the subject. *)
Definition entry_matches (patterns : list Re.pattern) (subject : string) : Prop :=
  ∃ pattern, pattern ∈ patterns ∧ Re.search pattern subject = true.

(** [x] does not sort after [y]: its key is at least the key of [y]. *)
Definition key_ge {A : Type} (key : A → list Z) (x y : A) : Prop :=
  list_ltb (key x) (key y) = false.

(** The same for two version buckets under the sort key of
    [fetch_releases]: both keys can be computed, and the key of [x] is at
    least the key of [y]. *)
Definition version_ge (w : World) (x y : string) : Prop :=
  ∃ kx ky, version_key w x = Some kx ∧ version_key w y = Some ky
           ∧ list_ltb kx ky = false.

(** Every version bucket has at least one matching asset. *)
Definition all_buckets_match (re : string → string → bool) (project : Project.t) (settings : RepoSettings.t)
    (by_minor : list (string * ReleaseData.t)) : Prop :=
  ∀ major_minor release_data,
    (major_minor, release_data) ∈ by_minor →
    find_rpm_assets re release_data project (RepoSettings.architectures settings) ≠ [].

(** A name that the clean-up removes: it ends in [.rpm] and no package of
    the list has it as file name. *)
Definition stale (all_packages : list RpmPackage.t) (name : string) : Prop :=
  Str.endswith ".rpm" name = true ∧ name ∉ map RpmPackage.filename all_packages.

Global Instance stale_dec all_packages name : Decision (stale all_packages name).
Proof. unfold stale. apply _. Defined.

(** The file name of the package ends in [.rpm]. *)
Definition rpm_named (pkg : RpmPackage.t) : Prop := Str.endswith ".rpm" (RpmPackage.filename pkg) = true.

(** Every entry of the directory [d0] is still there, and the file of every
    new package is a [.rpm] file of the directory. *)
Definition run_invariant (d0 : Directory) (st : Run.t) : Prop :=
  d0.*1 ⊆ (Run.packages_dir st).*1
  ∧ ∀ pkg, pkg ∈ Run.new_packages st →
           RpmPackage.filename pkg ∈ glob_rpm (Run.packages_dir st).

(** All packages collected so far belong to the projects in [owners]. *)
Definition owned_by (owners : gset string) (st : Run.t) : Prop :=
  ∀ pkg, pkg ∈ Run.new_packages st → RpmPackage.project_repo pkg ∈ owners.

(** The line feed and the carriage return. *)
Definition LF : ascii := "010"%char.
Definition CR : ascii := "013"%char.

(** Every package collected so far has a file in the directory, and its
    recorded hash and size are those of that file. *)
Definition hashes_match (w : World) (st : Run.t) : Prop :=
  ∀ pkg, pkg ∈ Run.new_packages st →
    ∃ content,
      dict_get (RpmPackage.filename pkg) (Run.packages_dir st) = Some content
      ∧ RpmPackage.sha256 pkg = sha256_hexdigest w content
      ∧ RpmPackage.size pkg = Z.of_nat (String.length content).

(** ** Example configurations *)

(** *** A project with five version buckets *)

Definition demo_asset (file : string) : Asset.t :=
  Asset.mk file ("https://example.org/dl/" +:+ file) 1000.

Definition demo_release (tag file : string) : ReleaseData.t :=
  ReleaseData.mk false false tag [demo_asset file].

Definition five_buckets : list ReleaseData.t :=
  [ demo_release "v2.0.1" "app-2.0.1.x86_64.rpm";
    demo_release "v2.0.0" "app-2.0.0.x86_64.rpm";
    demo_release "v1.10.0" "app-1.10.0.x86_64.rpm";
    demo_release "v1.9.2" "app-1.9.2.x86_64.rpm";
    demo_release "v1.8.0" "app-1.8.0.x86_64.rpm";
    demo_release "v1.7.5" "app-1.7.5.x86_64.rpm" ].

Definition demo_project (keep : Z) : Project.t :=
  Project.mk "acme/app" "app" "An application" keep "".

Definition demo_settings : RepoSettings.t :=
  RepoSettings.mk "acme" "https://acme.example.org/rpm" ["x86_64"; "aarch64"]
                  "Acme packages" true.

(** No [asset_pattern] is configured in the examples. *)
Definition no_pattern (pattern name : string) : bool := false.

(** The provider lists [five_buckets] for acme/app. *)
Definition demo_world : World := {|
  get_releases repo :=
    if bool_decide (repo = "acme/app") then Some five_buckets else None;
  get_repo _ := None;
  download _ := Downloaded "rpm";
  rpm_addsign _ _ := None;
  sha256_hexdigest _ := "digest";
  extract_rpm_info _ := None;
  now := "2024-01-01T00:00:00+00:00";
  isdigit_unicode _ := false;
  int_unicode _ := None
|}.

(** *** Two projects that publish a file of the same name *)

Definition acme_app : Project.t := Project.mk "acme/app" "app" "An application" 0 "".
Definition fork_app : Project.t := Project.mk "fork/app" "app" "A fork" 0 "".

Definition default_args : Args.t := Args.mk None false false None false.

(** Both repositories have one release [v1.0.0] with the asset
    [app-1.0.x86_64.rpm]; every download succeeds. *)
Definition two_forks_world : World := {|
  get_releases repo :=
    if bool_decide (repo = "acme/app") || bool_decide (repo = "fork/app")
    then Some [demo_release "v1.0.0" "app-1.0.x86_64.rpm"]
    else None;
  get_repo _ := None;
  download _ := Downloaded "rpm";
  rpm_addsign _ _ := None;
  sha256_hexdigest _ := "digest";
  extract_rpm_info _ := None;
  now := "2024-01-01T00:00:00+00:00";
  isdigit_unicode _ := false;
  int_unicode _ := None
|}.

Definition app_package (repo summary : string) : RpmPackage.t :=
  RpmPackage.mk "app" "1.0.0" "x86_64" "https://example.org/dl/app-1.0.x86_64.rpm"
    "app-1.0.x86_64.rpm" repo 3 "digest" summary "" "" ""
    ("https://github.com/" +:+ repo).

Definition shared_manifest : list RpmPackage.t :=
  [app_package "acme/app" "An application"; app_package "fork/app" "A fork"].

Definition shared_directory : Directory := [("app-1.0.x86_64.rpm", "rpm")].

Definition lib_package : RpmPackage.t :=
  RpmPackage.mk "lib" "2.1.0" "x86_64" "https://example.org/dl/lib-2.1.x86_64.rpm"
    "lib-2.1.x86_64.rpm" "acme/lib" 3 "digest" "A library" "" "" ""
    "https://github.com/acme/lib".

(** *** A provider with one failing download *)

(** acme/app has one release with two assets, and the download of the first
    one fails; acme/lib has one release with one asset.  No signature can be
    made. *)
Definition flaky_world : World := {|
  get_releases repo :=
    if bool_decide (repo = "acme/app") then
      Some [ReleaseData.mk false false "v1.0.0"
              [demo_asset "app-1.0.x86_64.rpm"; demo_asset "app-1.0.aarch64.rpm"]]
    else if bool_decide (repo = "acme/lib") then
      Some [demo_release "v2.1.0" "lib-2.1.x86_64.rpm"]
    else None;
  get_repo _ := None;
  download url :=
    if bool_decide (url = "https://example.org/dl/app-1.0.x86_64.rpm")
    then ConnectFailed else Downloaded "rpm";
  rpm_addsign _ _ := None;
  sha256_hexdigest _ := "digest";
  extract_rpm_info _ := None;
  now := "2024-01-01T00:00:00+00:00";
  isdigit_unicode _ := false;
  int_unicode _ := None
|}.

Definition acme_lib : Project.t := Project.mk "acme/lib" "lib" "A library" 0 "".

Definition signing_args : Args.t := Args.mk None false false (Some "KEY") false.

(** *** A tag with a superscript digit *)

(** Five version buckets, each with a matching asset; the last tag has the
    component [²] (U+00B2), a character that [str.isdigit] accepts and that
    [int] refuses.  The world answers as the interpreter does on [²] and on
    the Arabic-Indic digit [٣] (U+0663), which [int] reads as 3. *)
Definition superscript_buckets : list ReleaseData.t :=
  [ demo_release "v2.0.1" "app-2.0.1.x86_64.rpm";
    demo_release "v1.10.0" "app-1.10.0.x86_64.rpm";
    demo_release "v1.9.2" "app-1.9.2.x86_64.rpm";
    demo_release "v1.8.0" "app-1.8.0.x86_64.rpm";
    demo_release "v1.².0" "app-1.2.0.x86_64.rpm" ].

Definition superscript_world : World := {|
  get_releases repo :=
    if bool_decide (repo = "acme/app") then Some superscript_buckets else None;
  get_repo _ := None;
  download _ := Downloaded "rpm";
  rpm_addsign _ _ := None;
  sha256_hexdigest _ := "digest";
  extract_rpm_info _ := None;
  now := "2024-01-01T00:00:00+00:00";
  isdigit_unicode x := bool_decide (x = "²") || bool_decide (x = "٣");
  int_unicode x := if bool_decide (x = "٣") then Some 3 else None
|}.

(** * Part II: the definitions at work *)

Example lower_ex : Str.lower "App-1.0-X86_64.RPM" = "app-1.0-x86_64.rpm".
Proof. reflexivity. Qed.

Example split_ex : Str.split "."%char "1..10" = ["1"; ""; "10"].
Proof. reflexivity. Qed.

Example strip_ex : Str.strip "  a b
" = "a b".
Proof. reflexivity. Qed.

(** The no-break space U+00A0 and the line separator U+2028 are white
    space; the letter [à] (C3 A0), whose last byte is that of U+00A0, is
    not. *)
Example strip_unicode_ex :
  Str.strip (String (ascii_of_nat 194) (String (ascii_of_nat 160) "a b")
             +:+ String (ascii_of_nat 226) (String (ascii_of_nat 128)
                   (String (ascii_of_nat 168) " ")))
  = "a b"
  ∧ Str.strip "voilà" = "voilà".
Proof. split; reflexivity. Qed.

Example universal_newlines_ex :
  universal_newlines (String "a" (String "013" (String "010" (String "b"
                        (String "013" (String "c" (String "013" "")))))))
  = String "a" (String "010" (String "b" (String "010" (String "c"
      (String "010" ""))))).
Proof. reflexivity. Qed.

Example int_ex :
  Str.int "0010" = 10 ∧ Str.isdigit "0010" = true ∧ Str.isdigit "" = false
  ∧ Str.isdigit "1a" = false.
Proof. repeat split; reflexivity. Qed.

Example endswith_ex :
  Str.endswith ".rpm" "a.rpm" = true ∧ Str.endswith ".rpm" "a.rpm.sig" = false
  ∧ Str.endswith ".rpm" ".rpm" = true ∧ Str.endswith ".rpm" "a.RPM" = false.
Proof. repeat split; reflexivity. Qed.

Example rstrip_ex :
  Str.rstrip (λ c, bool_decide (c = "/"%char)) "http://h//" = "http://h".
Proof. reflexivity. Qed.

Example extract_version_ex :
  extract_version "v2.3.0" = "2.3.0" ∧ extract_version "Vv1.0" = "1.0"
  ∧ extract_version "release-1" = "release-1".
Proof. repeat split; reflexivity. Qed.

Example extract_major_minor_ex :
  extract_major_minor "2.3.0" = "2.3" ∧ extract_major_minor "7" = "7"
  ∧ extract_major_minor "1.10" = "1.10".
Proof. repeat split; reflexivity. Qed.

Example version_key_ex (w : World) :
  version_key w "1.10" = Some [1; 10] ∧ version_key w "1.9" = Some [1; 9]
  ∧ version_key w "2.x" = Some [2; 0] ∧ version_key w "nightly" = Some [0].
Proof. repeat split; reflexivity. Qed.

Example version_key_unicode_ex :
  version_key superscript_world "1.٣" = Some [1; 3]
  ∧ version_key superscript_world "1.²" = None
  ∧ sorted_by_version_key superscript_world ["1.2"; "1.٣"] = Some ["1.٣"; "1.2"].
Proof. repeat split; reflexivity. Qed.

Example detect_bare_x86 :
  detect_architecture "app-1.0.x86.rpm" = Some "i686"
  ∧ detect_architecture "app-x86" = None
  ∧ detect_architecture "APP-AMD64.rpm" = Some "x86_64".
Proof. repeat split; reflexivity. Qed.

Example post_init_ex :
  Project.name (Project.post_init (Project.mk "acme/app" "" "" 0 "")) = "app"
  ∧ Project.name (Project.post_init (Project.mk "acme/app" "tool" "" 0 "")) = "tool".
Proof. split; reflexivity. Qed.

Example find_rpm_assets_ex :
  map RpmAsset.name
      (find_rpm_assets no_pattern
         (ReleaseData.mk false false "v1.0.0"
            [ demo_asset "app-1.0.x86_64.rpm"; demo_asset "app-1.0.src.rpm";
              demo_asset "app-1.0.armhf.rpm"; demo_asset "app_1.0_amd64.deb";
              demo_asset "app-1.0.arm64.rpm" ])
         (demo_project 0) ["x86_64"; "aarch64"])
  = ["app-1.0.x86_64.rpm"; "app-1.0.arm64.rpm"].
Proof. reflexivity. Qed.

(** Two releases [v2.3.0] and [v2.2.5] and a pre-release, with
    [keep_versions] 1: the two releases are selected, the pre-release is not. *)
Example select_releases_ex (w : World) :
  map Release.tag <$>
      select_releases no_pattern w
         [ ReleaseData.mk true false "v2.4.0-rc1" [demo_asset "app-2.4.0.x86_64.rpm"];
           demo_release "v2.3.0" "app-2.3.0.x86_64.rpm";
           demo_release "v2.2.5" "app-2.2.5.x86_64.rpm" ]
         (demo_project 1) demo_settings "d"
  = Some ["v2.3.0"; "v2.2.5"].
Proof. reflexivity. Qed.

Example exit_status_ex :
  exit_status (main no_pattern two_forks_world demo_settings [acme_app]
                    (Args.mk (Some "nothing") false false None false)
                    (Output.mk None None None)) = 1
  ∧ main no_pattern two_forks_world demo_settings [acme_app]
         (Args.mk None false true None false) (Output.mk None None None) = DryRun.
Proof. split; reflexivity. Qed.

(** * Part III: properties *)

(** ** Architecture classifier *)

Section Classifier.

Implicit Types (table : list (string * list Re.pattern)) (subject : string).

Lemma existsb_entry_matches patterns subject :
  existsb (λ pattern, Re.search pattern subject) patterns = true
  ↔ entry_matches patterns subject.
Proof.
  rewrite existsb_exists. unfold entry_matches.
  split; intros (p & Hin & Hs); exists p; split; auto;
    by apply list_elem_of_In.
Qed.

Lemma first_arch_Some table subject arch :
  first_arch table subject = Some arch
  ↔ ∃ before patterns after,
      table = before ++ (arch, patterns) :: after
      ∧ entry_matches patterns subject
      ∧ ∀ a ps, (a, ps) ∈ before → ¬ entry_matches ps subject.
Proof.
  induction table as [|[a ps] table IH]; simpl.
  - split; [discriminate|]. intros (before & ? & ? & Heq & _).
    by destruct before.
  - destruct (existsb _ ps) eqn:Hex.
    + apply existsb_entry_matches in Hex. split.
      * intros [= <-]. exists [], ps, table. repeat split; auto.
        intros ? ? Hin. inversion Hin.
      * intros (before & patterns & after & Heq & Hm & Hno).
        destruct before as [|[a' ps'] before]; simpl in Heq.
        -- by injection Heq as -> _ _.
        -- injection Heq as <- <- _. exfalso. apply (Hno a ps); [left | done].
    + assert (Hn : ¬ entry_matches ps subject).
      { intros Hm. apply existsb_entry_matches in Hm. congruence. }
      rewrite IH. split.
      * intros (before & patterns & after & -> & Hm & Hno).
        exists ((a, ps) :: before), patterns, after. repeat split; auto.
        intros a' ps' Hin. apply elem_of_cons in Hin as [[= -> ->]|Hin]; eauto.
      * intros (before & patterns & after & Heq & Hm & Hno).
        destruct before as [|[a' ps'] before]; simpl in Heq.
        -- injection Heq as -> -> _. contradiction.
        -- injection Heq as <- <- ->. exists before, patterns, after.
           repeat split; auto. intros a0 ps0 Hin. apply (Hno a0). by right.
Qed.

Lemma first_arch_None table subject :
  first_arch table subject = None
  ↔ ∀ a ps, (a, ps) ∈ table → ¬ entry_matches ps subject.
Proof.
  induction table as [|[a ps] table IH]; simpl.
  - split; [|done]. intros _ ? ? Hin. inversion Hin.
  - destruct (existsb _ ps) eqn:Hex.
    + apply existsb_entry_matches in Hex. split; [discriminate|].
      intros Hno. exfalso. apply (Hno a ps); [left | done].
    + assert (Hn : ¬ entry_matches ps subject).
      { intros Hm. apply existsb_entry_matches in Hm. congruence. }
      rewrite IH. split.
      * intros Hno a' ps' Hin.
        apply elem_of_cons in Hin as [[= -> ->]|Hin]; eauto.
      * intros Hno a' ps' Hin. apply (Hno a'). by right.
Qed.

(** A literal pattern is found exactly when it is a substring. *)
Lemma match_here_lit (x s : string) :
  Re.match_here (Re.lit x) s = Str.startswith x s.
Proof.
  revert s. induction x as [|c x IH]; intros s; destruct s as [|c' s]; simpl; auto.
  rewrite IH. unfold Re.lit. simpl.
  destruct (decide (c = c')) as [->|Hne].
  - by rewrite bool_decide_eq_true_2.
  - rewrite bool_decide_eq_false_2; [done | congruence].
Qed.

Lemma search_lit (x s : string) : Re.search (Re.lit x) s = Str.contains x s.
Proof.
  induction s as [|c s IH].
  - simpl. rewrite match_here_lit. by destruct (Str.startswith x "").
  - cbn [Re.search Str.contains]. by rewrite match_here_lit, IH.
Qed.

End Classifier.

(** C7. The classifier tests the tags in the order x86_64, aarch64, i686,
    armv7hl, noarch and answers the first one a pattern of which is found in
    the lower-cased file name, or nothing when no pattern of any tag is
    found; it is a function of the file name alone.  On the four file names
    of the specification it answers x86_64, i686, noarch and nothing. *)
Theorem C7_detect_architecture_first_match :
  ARCH_PATTERNS.*1 = ["x86_64"; "aarch64"; "i686"; "armv7hl"; "noarch"]
  ∧ (∀ filename arch,
       detect_architecture filename = Some arch
       ↔ ∃ before patterns after,
           ARCH_PATTERNS = before ++ (arch, patterns) :: after
           ∧ entry_matches patterns (Str.lower filename)
           ∧ ∀ a ps, (a, ps) ∈ before → ¬ entry_matches ps (Str.lower filename))
  ∧ (∀ filename,
       detect_architecture filename = None
       ↔ ∀ a ps, (a, ps) ∈ ARCH_PATTERNS → ¬ entry_matches ps (Str.lower filename))
  ∧ detect_architecture "app-1.0-x86_64.rpm" = Some "x86_64"
  ∧ detect_architecture "app-1.0-x86_64.rpm" ≠ Some "i686"
  ∧ detect_architecture "app-1.0.i686.rpm" = Some "i686"
  ∧ detect_architecture "app-1.0.noarch.rpm" = Some "noarch"
  ∧ detect_architecture "app-1.0.deb" = None.
Proof.
  split; [reflexivity|].
  split; [intros; apply first_arch_Some|].
  split; [intros; apply first_arch_None|].
  repeat split; try reflexivity. discriminate.
Qed.

(** ** The order of version keys and the sort *)

Section ListOrder.

Implicit Types a b c : list Z.

Lemma list_ltb_cons x y a b :
  list_ltb (x :: a) (y :: b) = true ↔ x < y ∨ (x = y ∧ list_ltb a b = true).
Proof.
  simpl. rewrite orb_true_iff, andb_true_iff, Z.ltb_lt, Z.eqb_eq. tauto.
Qed.

(** The first component that differs decides, and a proper prefix is
    smaller: the comparison is component-wise and numeric. *)
Lemma list_ltb_spec a b :
  list_ltb a b = true
  ↔ (∃ common x y a' b',
        a = common ++ x :: a' ∧ b = common ++ y :: b' ∧ x < y)
    ∨ (∃ y b', b = a ++ y :: b').
Proof.
  revert b. induction a as [|x a IH]; intros [|y b].
  - simpl. split; [discriminate|].
    intros [(common & ? & ? & ? & ? & H & _)|(? & ? & H)];
      [by destruct common | discriminate].
  - simpl. split; [|done]. intros _. right. by exists y, b.
  - simpl. split; [discriminate|].
    intros [(common & ? & ? & ? & ? & _ & H & _)|(? & ? & H)];
      [by destruct common | discriminate].
  - rewrite list_ltb_cons, IH. split.
    + intros [Hlt|[-> [(common & x' & y' & a' & b' & -> & -> & Hlt)|(y' & b' & ->)]]].
      * left. by exists [], x, y, a, b.
      * left. by exists (y :: common), x', y', a', b'.
      * right. by exists y', b'.
    + intros [(common & x' & y' & a' & b' & Ha & Hb & Hlt)|(y' & b' & Hb)].
      * destruct common as [|z common]; simpl in Ha, Hb.
        -- injection Ha as -> ->. injection Hb as -> ->. by left.
        -- injection Ha as -> ->. injection Hb as -> ->. right. split; [done|].
           left. by exists common, x', y', a', b'.
      * injection Hb as -> ->. right. split; [done|]. right. by exists y', b'.
Qed.

Lemma list_ltb_irrefl a : list_ltb a a = false.
Proof.
  induction a as [|x a IH]; [done|].
  apply not_true_is_false. rewrite list_ltb_cons. intros [?|[_ H]]; [lia | congruence].
Qed.

Lemma list_ltb_asym a b : list_ltb a b = true → list_ltb b a = false.
Proof.
  revert b. induction a as [|x a IH]; intros [|y b]; try done.
  rewrite list_ltb_cons. intros H. apply not_true_is_false.
  rewrite list_ltb_cons. intros H'.
  destruct H as [?|[-> H]], H' as [?|[? H']]; try lia.
  apply IH in H. congruence.
Qed.

(** If [a < c] then any [b] is above [a] or below [c]. *)
Lemma list_ltb_between a b c :
  list_ltb a c = true → list_ltb a b = true ∨ list_ltb b c = true.
Proof.
  revert b c. induction a as [|x a IH]; intros [|y b] [|z c]; try done; auto.
  rewrite !list_ltb_cons. intros [Hlt|[-> Hlt]].
  - destruct (Z.lt_trichotomy x y) as [?|[->|?]]; [auto | auto | right; left; lia].
  - destruct (Z.lt_trichotomy z y) as [?|[->|?]]; [auto | | auto].
    destruct (IH b c Hlt); auto.
Qed.

End ListOrder.

Section SortedReverse.

Context {A : Type} (key : A → list Z).

Lemma key_ge_trans x y z : key_ge key x y → key_ge key y z → key_ge key x z.
Proof.
  unfold key_ge. intros Hxy Hyz. apply not_true_is_false. intros Hxz.
  destruct (list_ltb_between _ (key y) _ Hxz); congruence.
Qed.

Lemma insert_desc_perm x l : Permutation (insert_desc key x l) (x :: l).
Proof.
  induction l as [|y l IH]; simpl; [done|].
  destruct (list_ltb (key x) (key y)); [|done].
  rewrite IH. apply perm_swap.
Qed.

Lemma insert_desc_sorted x l :
  StronglySorted (key_ge key) l → StronglySorted (key_ge key) (insert_desc key x l).
Proof.
  induction 1 as [|y l Hs IH Hy]; simpl.
  - repeat constructor.
  - destruct (list_ltb (key x) (key y)) eqn:Hlt.
    + constructor; [done|].
      rewrite Forall_forall in Hy |- *. intros z Hz.
      rewrite insert_desc_perm in Hz. apply elem_of_cons in Hz as [->|Hz]; auto.
      by apply list_ltb_asym.
    + constructor; [by constructor|]. constructor; [done|].
      eapply Forall_impl; [exact Hy|]. intros z Hz. by eapply key_ge_trans.
Qed.

Lemma sorted_reverse_perm l : Permutation (sorted_reverse key l) l.
Proof.
  induction l as [|x l IH]; simpl; [done|].
  rewrite insert_desc_perm. by constructor.
Qed.

Lemma sorted_reverse_sorted l : StronglySorted (key_ge key) (sorted_reverse key l).
Proof.
  induction l as [|x l IH]; simpl; [constructor | by apply insert_desc_sorted].
Qed.

Lemma sorted_reverse_length l : length (sorted_reverse key l) = length l.
Proof. apply Permutation_length, sorted_reverse_perm. Qed.

Lemma filter_insert_desc (k : list Z) (x : A) (l : list A) :
  filter (λ y, key y = k) (insert_desc key x l)
  = filter (λ y, key y = k) (x :: l).
Proof.
  induction l as [|y l IH]; simpl; [done|].
  destruct (list_ltb (key x) (key y)) eqn:Hlt; [|done].
  rewrite (filter_cons _ y), IH, !(filter_cons _ x), (filter_cons _ y).
  destruct (decide (key x = k)) as [Hx|Hx], (decide (key y = k)) as [Hy|Hy]; try done.
  rewrite Hx, Hy, list_ltb_irrefl in Hlt. discriminate.
Qed.

Lemma filter_sorted_reverse (k : list Z) (l : list A) :
  filter (λ y, key y = k) (sorted_reverse key l) = filter (λ y, key y = k) l.
Proof.
  induction l as [|x l IH]; [done|].
  simpl. by rewrite filter_insert_desc, !filter_cons, IH.
Qed.

End SortedReverse.

(** The sort of [fetch_releases]: keys first, then the order. *)
Section VersionSort.

Variable w : World.

Implicit Types (l sorted : list string) (keyed : list (list Z * string)).

Lemma component_key_plain x :
  plain_component x →
  component_key w x = Some (if Str.isdigit x then Str.int x else 0).
Proof.
  intros [Hascii Hlen]. unfold component_key, isdigit, int. rewrite Hascii.
  destruct (Str.isdigit x); [|done].
  by rewrite (proj2 (Nat.leb_le _ _) Hlen).
Qed.

Lemma version_key_plain v :
  Forall plain_component (Str.split "."%char v) →
  version_key w v
  = Some (map (λ x, if Str.isdigit x then Str.int x else 0) (Str.split "."%char v)).
Proof.
  unfold version_key. intros H. apply mapM_Some.
  induction H as [|x l Hx _ IH]; simpl; constructor; [|done].
  by apply component_key_plain.
Qed.

Lemma version_key_None v :
  version_key w v = None
  ↔ ∃ x, x ∈ Str.split "."%char v ∧ isdigit w x = true ∧ int w x = None.
Proof.
  unfold version_key. rewrite mapM_None, Exists_exists. split.
  - intros (x & Hx & Hk). exists x. split; [done|].
    unfold component_key in Hk. by destruct (isdigit w x).
  - intros (x & Hx & Hd & Hi). exists x. split; [done|].
    unfold component_key. by rewrite Hd.
Qed.

Lemma keyed_spec l keyed :
  mapM (λ v, k ← version_key w v; Some (k, v)) l = Some keyed →
  keyed.*2 = l ∧ Forall (λ e, version_key w e.2 = Some e.1) keyed.
Proof.
  rewrite mapM_Some.
  induction 1 as [|v e l keyed Hv _ [IH1 IH2]]; [done|].
  destruct (version_key w v) as [k|] eqn:Hk; simplify_eq/=.
  split; [done|]. by constructor.
Qed.

Lemma keyed_None l :
  mapM (λ v, k ← version_key w v; Some (k, v)) l = None
  ↔ ∃ v, v ∈ l ∧ version_key w v = None.
Proof.
  rewrite mapM_None, Exists_exists.
  split; intros (v & Hv & Hk); exists v; (split; [done|]).
  - by destruct (version_key w v).
  - by rewrite Hk.
Qed.

Lemma sorted_keyed keyed :
  Forall (λ e, version_key w e.2 = Some e.1) keyed →
  StronglySorted (key_ge fst) keyed →
  StronglySorted (version_ge w) keyed.*2.
Proof.
  intros Hkeys. induction 1 as [|e keyed Hs IH He]; [constructor|].
  apply Forall_cons in Hkeys as [Hk Hkeys].
  simpl. constructor; [by apply IH|].
  rewrite Forall_fmap, Forall_forall. rewrite !Forall_forall in He, Hkeys.
  intros e' He'. exists e.1, e'.1. split; [done|]. split; [by apply Hkeys|].
  by apply He.
Qed.

Lemma filter_keyed keyed k :
  Forall (λ e, version_key w e.2 = Some e.1) keyed →
  filter (λ v, version_key w v = Some k) keyed.*2
  = (filter (λ e : list Z * string, e.1 = k) keyed).*2.
Proof.
  induction 1 as [|e keyed He _ IH]; [done|].
  rewrite fmap_cons, !filter_cons, IH, He.
  destruct (decide (Some e.1 = Some k)) as [[= Hk]|Hk], (decide (e.1 = k));
    try done; congruence.
Qed.

Lemma sorted_by_version_key_Some l sorted :
  sorted_by_version_key w l = Some sorted →
  Permutation sorted l
  ∧ StronglySorted (version_ge w) sorted
  ∧ ∀ k, filter (λ v, version_key w v = Some k) sorted
         = filter (λ v, version_key w v = Some k) l.
Proof.
  unfold sorted_by_version_key.
  destruct (mapM _ l) as [keyed|] eqn:Hkeyed; [|done]. intros [= <-].
  apply keyed_spec in Hkeyed as [<- Hkeys].
  pose proof (sorted_reverse_perm fst keyed) as Hperm.
  assert (Hkeys' : Forall (λ e, version_key w e.2 = Some e.1) (sorted_reverse fst keyed)).
  { rewrite !Forall_forall in Hkeys |- *. intros e He. apply Hkeys.
    by rewrite <- Hperm. }
  split; [|split].
  - change (map snd ?x) with (x.*2). by rewrite Hperm.
  - apply sorted_keyed; [done | apply sorted_reverse_sorted].
  - intros k. change (map snd ?x) with (x.*2).
    by rewrite !filter_keyed, filter_sorted_reverse.
Qed.

Lemma sorted_by_version_key_None l :
  sorted_by_version_key w l = None ↔ ∃ v, v ∈ l ∧ version_key w v = None.
Proof.
  rewrite <- keyed_None. unfold sorted_by_version_key.
  by destruct (mapM _ l).
Qed.

Lemma version_ge_refl v k : version_key w v = Some k → version_ge w v v.
Proof. intros Hk. exists k, k. by rewrite list_ltb_irrefl. Qed.

End VersionSort.

(** C5. The sort key reads a component with [int] whenever [str.isdigit]
    accepts it, and the superscript two is accepted by [str.isdigit] and
    refused by [int].  For the releases v2.0.1, v1.10.0, v1.9.2, v1.8.0 and
    v1.².0 the buckets are 2.0, 1.10, 1.9, 1.8 and 1.²; the key of the last
    one cannot be computed, so the sort raises instead of ordering the
    buckets with that component counted as 0, and [fetch_releases] gives no
    release for the project.  On the buckets 1.9, 1.10, 2.0 the sort gives
    2.0, 1.10, 1.9, whatever the world. *)
Theorem C5_sort_raises_on_superscript_digit :
  let w := superscript_world in
  let by_minor := releases_by_minor superscript_buckets in
  by_minor.*1 = ["2.0"; "1.10"; "1.9"; "1.8"; "1.²"]
  ∧ Str.split "."%char "1.²" = ["1"; "²"]
  ∧ isdigit w "²" = true
  ∧ int w "²" = None
  ∧ version_key w "1.²" = None
  ∧ sorted_versions w by_minor = None
  ∧ fetch_releases no_pattern w (demo_project 0) demo_settings = None
  ∧ (∀ w' : World,
       sorted_by_version_key w' ["1.9"; "1.10"; "2.0"] = Some ["2.0"; "1.10"; "1.9"]).
Proof. repeat split; reflexivity. Qed.

(** ** Release selector: how many releases *)

Section Selector.

Variable re_search_ignorecase : string → string → bool.

Local Abbreviation find_rpm_assets := (find_rpm_assets re_search_ignorecase).
Local Abbreviation build_releases := (build_releases re_search_ignorecase).
Local Abbreviation select_releases := (select_releases re_search_ignorecase).

Lemma length_omap_le {A B : Type} (f : A → option B) (l : list A) :
  (length (omap f l) ≤ length l)%nat.
Proof.
  induction l as [|x l IH]; [done|].
  change (omap f (x :: l)) with (match f x with Some y => y :: omap f l | None => omap f l end).
  destruct (f x); simpl; lia.
Qed.

Lemma dict_get_Some_elem_of {V : Type} k (d : list (string * V)) v :
  dict_get k d = Some v → (k, v) ∈ d.
Proof.
  induction d as [|[k' v'] d IH]; simpl; [done|].
  destruct (decide (k = k')) as [->|?].
  - intros [= ->]. left.
  - intros H. right. auto.
Qed.

Lemma dict_get_is_Some {V : Type} k (d : list (string * V)) :
  k ∈ d.*1 → is_Some (dict_get k d).
Proof.
  induction d as [|[k' v'] d IH]; simpl.
  - intros H. inversion H.
  - intros H. destruct (decide (k = k')); [by eexists|].
    apply elem_of_cons in H as [?|?]; [done | auto].
Qed.

Lemma versions_to_keep_length project sorted :
  length (versions_to_keep project sorted)
  = Nat.min (if 0 <? Project.keep_versions project
             then Z.to_nat (Project.keep_versions project + 1) else 1%nat)
            (length sorted).
Proof.
  unfold versions_to_keep. destruct (0 <? _); by rewrite length_take.
Qed.

Lemma versions_to_keep_subseteq project sorted :
  versions_to_keep project sorted ⊆ sorted.
Proof.
  unfold versions_to_keep. intros x.
  destruct (0 <? _); intros H; apply (subseteq_take _ _ _ H).
Qed.

Lemma build_releases_length_le project settings description by_minor kept :
  (length (build_releases project settings description by_minor kept)
   ≤ length kept)%nat.
Proof. apply length_omap_le. Qed.

Lemma build_releases_all_match project settings description by_minor kept :
  all_buckets_match re_search_ignorecase project settings by_minor →
  kept ⊆ by_minor.*1 →
  map Release.major_minor
      (build_releases project settings description by_minor kept) = kept.
Proof.
  intros Hall. induction kept as [|mm kept IH]; intros Hsub; [done|].
  unfold build_releases in *. cbn [omap list_omap].
  destruct (dict_get_is_Some mm by_minor) as [rd Hrd]; [apply Hsub; left|].
  rewrite Hrd. pose proof (Hall mm rd (dict_get_Some_elem_of _ _ _ Hrd)) as Hne.
  destruct (find_rpm_assets rd project _) eqn:Hassets; [done|].
  cbn [map Release.major_minor]. f_equal. apply IH.
  intros x Hx. apply Hsub. by right.
Qed.

(** A list of releases is returned exactly when the sort does not raise. *)
Lemma select_releases_Some w releases_data project settings description releases :
  select_releases w releases_data project settings description = Some releases
  ↔ ∃ sorted,
      sorted_versions w (releases_by_minor releases_data) = Some sorted
      ∧ releases = build_releases project settings description
                     (releases_by_minor releases_data)
                     (versions_to_keep project sorted).
Proof.
  unfold select_releases.
  destruct (sorted_versions w _) as [sorted|]; split.
  - intros [= <-]. by exists sorted.
  - by intros (? & [= <-] & ->).
  - done.
  - by intros (? & ? & _).
Qed.

Lemma select_releases_length_le w releases_data project settings description releases :
  select_releases w releases_data project settings description = Some releases →
  (length releases
   ≤ if (0 <? Project.keep_versions project)%Z
     then Z.to_nat (Project.keep_versions project + 1) else 1)%nat.
Proof.
  rewrite select_releases_Some. intros (sorted & _ & ->).
  etrans; [apply build_releases_length_le|].
  rewrite versions_to_keep_length. apply Nat.le_min_l.
Qed.

Lemma select_releases_all_match w releases_data project settings description releases :
  all_buckets_match re_search_ignorecase project settings (releases_by_minor releases_data) →
  select_releases w releases_data project settings description = Some releases →
  ∃ sorted,
    sorted_versions w (releases_by_minor releases_data) = Some sorted
    ∧ map Release.major_minor releases = versions_to_keep project sorted.
Proof.
  intros Hall. rewrite select_releases_Some. intros (sorted & Hsorted & ->).
  exists sorted. split; [done|].
  apply build_releases_all_match; [done|].
  etrans; [apply versions_to_keep_subseteq|].
  intros x Hx. apply sorted_by_version_key_Some in Hsorted as [Hperm _].
  by rewrite Hperm in Hx.
Qed.

End Selector.

Example five_buckets_keep0 (w : World) :
  map Release.tag <$> select_releases no_pattern w five_buckets (demo_project 0) demo_settings "d"
  = Some ["v2.0.1"].
Proof. reflexivity. Qed.

Example five_buckets_keep2 (w : World) :
  map Release.tag <$> select_releases no_pattern w five_buckets (demo_project 2) demo_settings "d"
  = Some ["v2.0.1"; "v1.10.0"; "v1.9.2"].
Proof. reflexivity. Qed.

Lemma all_buckets_match_Forall re project settings by_minor :
  Forall (λ e, find_rpm_assets re e.2 project (RepoSettings.architectures settings) ≠ [])
         by_minor →
  all_buckets_match re project settings by_minor.
Proof.
  intros H mm rd Hin. rewrite Forall_forall in H. apply (H _ Hin).
Qed.

(** C6. With [keep_versions] 0 and five version buckets that all have a
    matching asset the selector returns no release at all when one of the
    buckets has a component that [str.isdigit] accepts and [int] refuses: for
    the releases v2.0.1, v1.10.0, v1.9.2, v1.8.0 and v1.².0 the sort raises,
    [fetch_releases] raises with it, and the project loop goes on to the next
    project with nothing collected. *)
Theorem C6_five_buckets_no_release_on_superscript_digit :
  let w := superscript_world in
  let project := demo_project 0 in
  let by_minor := releases_by_minor superscript_buckets in
  get_releases w (Project.repo project) = Some superscript_buckets
  ∧ Project.keep_versions project = 0
  ∧ length by_minor = 5%nat
  ∧ NoDup by_minor.*1
  ∧ all_buckets_match no_pattern project demo_settings by_minor
  ∧ select_releases no_pattern w superscript_buckets project demo_settings
      (resolve_description w project) = None
  ∧ fetch_releases no_pattern w project demo_settings = None
  ∧ (∀ st, process_project no_pattern w demo_settings default_args st project = st).
Proof.
  repeat split; try reflexivity.
  - apply (bool_decide_unpack _). by vm_compute.
  - apply all_buckets_match_Forall. vm_compute. repeat constructor; discriminate.
Qed.

(** ** Clean-up of the packages directory *)

Section Filter.

Context {A : Type}.

Lemma filter_ext_in (P Q : A → Prop) `{∀ x, Decision (P x)} `{∀ x, Decision (Q x)}
    (l : list A) :
  (∀ x, x ∈ l → P x ↔ Q x) → filter P l = filter Q l.
Proof.
  induction l as [|x l IH]; intros Hext; [done|].
  rewrite !filter_cons.
  assert (HPQ : P x ↔ Q x) by (apply Hext; left).
  rewrite IH by (intros y Hy; apply Hext; by right).
  destruct (decide (P x)), (decide (Q x)); tauto.
Qed.

Lemma filter_all (P : A → Prop) `{∀ x, Decision (P x)} (l : list A) :
  (∀ x, x ∈ l → P x) → filter P l = l.
Proof.
  induction l as [|x l IH]; intros Hall; [done|].
  rewrite filter_cons_True by (apply Hall; left).
  f_equal. apply IH. intros y Hy. apply Hall. by right.
Qed.

Lemma filter_none (P : A → Prop) `{∀ x, Decision (P x)} (l : list A) :
  (∀ x, x ∈ l → ¬ P x) → filter P l = [].
Proof.
  induction l as [|x l IH]; intros Hnone; [done|].
  rewrite filter_cons_False by (apply Hnone; left).
  apply IH. intros y Hy. apply Hnone. by right.
Qed.

End Filter.

Section Cleanup.

Implicit Types (d : Directory) (all_packages : list RpmPackage.t).

Lemma elem_of_glob_rpm d name :
  name ∈ glob_rpm d ↔ name ∈ d.*1 ∧ Str.endswith ".rpm" name = true.
Proof. unfold glob_rpm. rewrite list_elem_of_filter. tauto. Qed.

(** The loop of [cleanup_old_packages] over any list of names. *)
Lemma cleanup_loop (current : gset string) names d removed :
  foldl (λ '(d, removed) rpm_file,
           if bool_decide (rpm_file ∉ current)
           then (unlink rpm_file d, removed ++ [rpm_file])
           else (d, removed))
        (d, removed) names
  = (filter (λ e, ¬ (e.1 ∈ names ∧ e.1 ∉ current)) d,
     removed ++ filter (λ n, n ∉ current) names).
Proof.
  revert d removed. induction names as [|n names IH]; intros d removed.
  - simpl. rewrite app_nil_r. f_equal. symmetry. apply filter_all.
    intros e _ [Hin _]. inversion Hin.
  - cbn [foldl]. case_bool_decide as Hn.
    + rewrite IH. unfold unlink. rewrite list_filter_filter.
      rewrite filter_cons_True by done. rewrite <- app_assoc. f_equal.
      apply filter_ext_in. intros e _. rewrite elem_of_cons.
      destruct (decide (e.1 = n)) as [Heq|Hne]; [rewrite Heq|]; intuition congruence.
    + rewrite IH. rewrite filter_cons_False by tauto. f_equal.
      apply filter_ext_in. intros e _. rewrite elem_of_cons.
      destruct (decide (e.1 = n)) as [Heq|Hne]; [rewrite Heq|]; intuition congruence.
Qed.

(** What the clean-up leaves and what it reports, in the order of the
    directory. *)
Lemma cleanup_old_packages_spec d all_packages :
  cleanup_old_packages (Some d) all_packages
  = (Some (filter (λ e, ¬ stale all_packages e.1) d),
     filter (stale all_packages) d.*1).
Proof.
  unfold cleanup_old_packages. rewrite cleanup_loop. simpl. repeat f_equal.
  - apply filter_ext_in. intros e He. unfold stale.
    rewrite elem_of_glob_rpm, elem_of_list_to_set.
    assert (e.1 ∈ d.*1) by (by apply list_elem_of_fmap_2). tauto.
  - unfold glob_rpm. rewrite list_filter_filter.
    apply filter_ext_in. intros n _. unfold stale.
    rewrite elem_of_list_to_set. tauto.
Qed.

End Cleanup.

(** C10. The clean-up removes exactly the entries of the packages directory
    whose name ends in [.rpm] and is the file name of no package of the final
    set, and reports exactly those names; every other entry stays, with its
    content and in its place, so in particular all entries whose name does not
    end in [.rpm].  When the directory does not exist nothing happens. *)
Theorem C10_cleanup_removes_only_stale_rpm :
  ∀ (d : Directory) (all_packages : list RpmPackage.t),
    ∃ d' removed,
      cleanup_old_packages (Some d) all_packages = (Some d', removed)
      ∧ (∀ name, name ∈ removed
           ↔ name ∈ d.*1 ∧ Str.endswith ".rpm" name = true
             ∧ name ∉ map RpmPackage.filename all_packages)
      ∧ (∀ entry, entry ∈ d'
           ↔ entry ∈ d
             ∧ ¬ (Str.endswith ".rpm" entry.1 = true
                  ∧ entry.1 ∉ map RpmPackage.filename all_packages))
      ∧ d' = filter (λ e, ¬ stale all_packages e.1) d
      ∧ filter (λ e, Str.endswith ".rpm" e.1 = false) d'
        = filter (λ e, Str.endswith ".rpm" e.1 = false) d
      ∧ cleanup_old_packages None all_packages = (None, []).
Proof.
  intros d all_packages.
  exists (filter (λ e, ¬ stale all_packages e.1) d), (filter (stale all_packages) d.*1).
  split; [apply cleanup_old_packages_spec|].
  split; [intros name; rewrite list_elem_of_filter; unfold stale; tauto|].
  split; [intros entry; rewrite list_elem_of_filter; unfold stale; tauto|].
  split; [done|]. split; [|done].
  rewrite list_filter_filter. apply filter_ext_in.
  intros e _. unfold stale. split; [tauto|].
  intros H. split; [done|]. intros [H' _]. congruence.
Qed.

(** ** Manifest reconciliation *)

Lemma map_fmap {A B : Type} (f : A → B) (l : list A) : map f l = f <$> l.
Proof. reflexivity. Qed.

Lemma elem_of_map {A B : Type} (f : A → B) (l : list A) (y : B) :
  y ∈ map f l ↔ ∃ x, y = f x ∧ x ∈ l.
Proof. rewrite map_fmap. apply list_elem_of_fmap. Qed.

Lemma preserved_packages_empty existing_packages :
  preserved_packages existing_packages ∅ = existing_packages.
Proof. apply filter_all. intros pkg _. apply not_elem_of_empty. Qed.

Lemma preserved_packages_singleton existing_packages A B :
  A ≠ B →
  (∀ pkg, pkg ∈ existing_packages →
     RpmPackage.project_repo pkg = A ∨ RpmPackage.project_repo pkg = B) →
  preserved_packages existing_packages {[A]}
  = filter (λ pkg, RpmPackage.project_repo pkg = B) existing_packages.
Proof.
  intros Hne Hown. apply filter_ext_in. intros pkg Hin.
  rewrite elem_of_singleton. destruct (Hown pkg Hin) as [->| ->]; intuition congruence.
Qed.

(** A first run on an empty output directory writes [shared_manifest]. *)
Example two_forks_first_run :
  main no_pattern two_forks_world demo_settings [acme_app; fork_app] default_args
       (Output.mk None None None)
  = Generated
      (Output.mk (Some shared_directory)
                 (Some (Manifest.mk shared_manifest "2024-01-01T00:00:00+00:00"))
                 (Some (generate_repo_file demo_settings None true)))
      shared_manifest [].
Proof. vm_compute. reflexivity. Qed.

(** C3. When the [.rpm] files of the packages directory are exactly the files
    of the manifest, reconciling with no updated project and no new package
    gives back the package list of the manifest, removes nothing and leaves
    the directory as it is; a run of [main] without projects does exactly
    that. *)
Theorem C3_reconcile_noop_is_identity :
  ∀ (existing_packages : list RpmPackage.t) (d : Directory),
    (∀ name, name ∈ glob_rpm d ↔ name ∈ map RpmPackage.filename existing_packages) →
    reconcile existing_packages ∅ [] (Some d) = (existing_packages, (Some d, []))
    ∧ ∀ re w settings args updated repo_file,
        Args.list args = false → Args.dry_run args = false →
        truthy (Args.project args) = false →
        ∃ descriptor,
          main re w settings [] args
               (Output.mk (Some d) (Some (Manifest.mk existing_packages updated)) repo_file)
          = Generated
              (Output.mk (Some d) (Some (Manifest.mk existing_packages (now w)))
                         (Some descriptor))
              existing_packages [].
Proof.
  intros existing_packages d Hdisk.
  assert (Hrec : reconcile existing_packages ∅ [] (Some d)
                 = (existing_packages, (Some d, []))).
  { unfold reconcile. rewrite preserved_packages_empty, app_nil_r.
    rewrite cleanup_old_packages_spec. repeat f_equal.
    - apply filter_all. intros e He [Hrpm Hnot]. apply Hnot, Hdisk.
      apply elem_of_glob_rpm. split; [by apply list_elem_of_fmap_2 | done].
    - apply filter_none. intros n Hn [Hrpm Hnot]. apply Hnot, Hdisk.
      by apply elem_of_glob_rpm. }
  split; [exact Hrec|].
  intros re w settings args updated repo_file Hlist Hdry Hproj.
  eexists. unfold main, projects_to_process.
  rewrite Hlist, Hproj, Hdry. cbn [foldl map list_to_set Output.manifest_file
    Output.packages_dir load_manifest Manifest.packages mkdir default
    Run.new_packages Run.packages_dir].
  change (id d) with d. rewrite Hrec. reflexivity.
Qed.

Lemma C3_reconcile_noop_is_identity_witness :
  reconcile shared_manifest ∅ [] (Some shared_directory)
  = (shared_manifest, (Some shared_directory, [])).
Proof.
  apply (C3_reconcile_noop_is_identity shared_manifest shared_directory).
  intros name. rewrite elem_of_glob_rpm.
  change (map RpmPackage.filename shared_manifest)
    with ["app-1.0.x86_64.rpm"; "app-1.0.x86_64.rpm"].
  change (shared_directory.*1) with ["app-1.0.x86_64.rpm"].
  rewrite !elem_of_cons, elem_of_nil. split.
  - intros [[->|[]] _]. by left.
  - intros [->|[->|[]]]; (split; [by left | reflexivity]).
Defined.

(** Two packages of a list with pairwise distinct file names that have the
    same file name are the same package. *)
Lemma NoDup_filename_inj (packages : list RpmPackage.t) (p q : RpmPackage.t) :
  NoDup (map RpmPackage.filename packages) →
  p ∈ packages → q ∈ packages →
  RpmPackage.filename p = RpmPackage.filename q → p = q.
Proof.
  induction packages as [|x packages IH]; intros Hnd Hp Hq Heq; [inversion Hp|].
  cbn [map] in Hnd. apply NoDup_cons in Hnd as [Hx Hnd].
  apply elem_of_cons in Hp as [->|Hp], Hq as [->|Hq]; [done| | |by apply IH].
  - exfalso. apply Hx. rewrite Heq. apply elem_of_map. by exists q.
  - exfalso. apply Hx. rewrite <- Heq. apply elem_of_map. by exists p.
Qed.

(** A manifest with a file name recorded twice: [shared_manifest], written
    by the run above, holds one package of acme/app and one of fork/app with
    the same file name.  Updating acme/app alone with nothing fetched keeps
    the package of fork/app, and the file with it. *)
Example shared_file_is_kept :
  reconcile shared_manifest {["acme/app"]} [] (Some shared_directory)
  = ([app_package "fork/app" "A fork"], (Some shared_directory, [])).
Proof. by vm_compute. Qed.

(** C2. For a manifest whose packages are owned by two projects A and B,
    whose file names are pairwise distinct and whose files are [.rpm] files
    of the packages directory, reconciling with A as the only updated
    project and no new package keeps exactly the packages of B, in their
    order, and the removed files contain the file of every previous package
    of A, and the file of no package of B.  In any case the removed files
    are the [.rpm] files of the directory that are the file of no package
    of B. *)
Theorem C2_reconcile_prunes_updated_project :
  ∀ (existing_packages : list RpmPackage.t) (A B : string) (d : Directory),
    A ≠ B →
    (∀ pkg, pkg ∈ existing_packages →
       RpmPackage.project_repo pkg = A ∨ RpmPackage.project_repo pkg = B) →
    NoDup (map RpmPackage.filename existing_packages) →
    (∀ pkg, pkg ∈ existing_packages → RpmPackage.filename pkg ∈ glob_rpm d) →
    let of_B := filter (λ pkg, RpmPackage.project_repo pkg = B) existing_packages in
    ∃ d' removed,
      reconcile existing_packages {[A]} [] (Some d) = (of_B, (Some d', removed))
      ∧ (∀ pkg, pkg ∈ of_B ↔ pkg ∈ existing_packages ∧ RpmPackage.project_repo pkg = B)
      ∧ (∀ pkg, pkg ∈ existing_packages → RpmPackage.project_repo pkg = A →
           RpmPackage.filename pkg ∈ removed)
      ∧ (∀ pkg, pkg ∈ of_B → RpmPackage.filename pkg ∉ removed)
      ∧ (∀ name, name ∈ removed
                 ↔ name ∈ glob_rpm d ∧ name ∉ map RpmPackage.filename of_B).
Proof.
  intros existing_packages A B d Hne Hown Hnodup Hfiles of_B.
  unfold reconcile.
  rewrite (preserved_packages_singleton _ A B Hne Hown), app_nil_r.
  fold of_B. rewrite cleanup_old_packages_spec.
  eexists _, _. split; [reflexivity|].
  assert (Hof_B : ∀ pkg, pkg ∈ of_B
                         ↔ pkg ∈ existing_packages ∧ RpmPackage.project_repo pkg = B).
  { intros pkg. unfold of_B. rewrite list_elem_of_filter. tauto. }
  assert (Hremoved : ∀ name, name ∈ filter (stale of_B) d.*1
                             ↔ name ∈ glob_rpm d ∧ name ∉ map RpmPackage.filename of_B).
  { intros name. rewrite list_elem_of_filter, elem_of_glob_rpm. unfold stale. tauto. }
  split; [exact Hof_B|]. split; [|split; [|exact Hremoved]].
  - intros pkg Hin HA. apply Hremoved. split; [by apply Hfiles|].
    intros (pkg' & Hname & [Hin' HB]%Hof_B)%elem_of_map.
    assert (pkg = pkg') by (by eapply NoDup_filename_inj).
    congruence.
  - intros pkg Hin [_ Hnot]%Hremoved. apply Hnot. apply elem_of_map. by exists pkg.
Qed.

Lemma C2_reconcile_prunes_updated_project_witness :
  ∃ d' removed,
    reconcile [lib_package; app_package "fork/app" "A fork"] {["acme/lib"]} []
              (Some [("lib-2.1.x86_64.rpm", "rpm"); ("app-1.0.x86_64.rpm", "rpm")])
    = ([app_package "fork/app" "A fork"], (Some d', removed))
    ∧ RpmPackage.filename lib_package ∈ removed
    ∧ RpmPackage.filename (app_package "fork/app" "A fork") ∉ removed.
Proof.
  destruct (C2_reconcile_prunes_updated_project
              [lib_package; app_package "fork/app" "A fork"] "acme/lib" "fork/app"
              [("lib-2.1.x86_64.rpm", "rpm"); ("app-1.0.x86_64.rpm", "rpm")])
    as (d' & removed & Heq & _ & HA & HB & _).
  - discriminate.
  - intros pkg Hin. rewrite !elem_of_cons, elem_of_nil in Hin.
    destruct Hin as [->|[->|[]]]; [by left | by right].
  - apply (bool_decide_unpack _). by vm_compute.
  - intros pkg Hin. rewrite !elem_of_cons, elem_of_nil in Hin.
    apply elem_of_glob_rpm.
    destruct Hin as [->|[->|[]]]; (split; [|reflexivity]).
    + left.
    + right. left.
  - exists d', removed. split; [exact Heq|]. split.
    + apply (HA lib_package); [left | reflexivity].
    + apply (HB (app_package "fork/app" "A fork")). left.
Defined.

(** Counterexample to C8 as stated.  Two configured projects publish an asset
    of the same name; a run on an empty output directory writes a manifest
    with two packages whose file name is the same. *)
Lemma C8_counterexample_duplicate_filename :
  ∃ out all_packages removed,
    main no_pattern two_forks_world demo_settings [acme_app; fork_app] default_args
         (Output.mk None None None)
    = Generated out all_packages removed
    ∧ Output.manifest_file out
      = Some (Manifest.mk all_packages "2024-01-01T00:00:00+00:00")
    ∧ map RpmPackage.filename all_packages
      = ["app-1.0.x86_64.rpm"; "app-1.0.x86_64.rpm"]
    ∧ ¬ NoDup (map RpmPackage.filename all_packages).
Proof.
  eexists _, _, _. split; [apply two_forks_first_run|].
  split; [reflexivity|]. split; [reflexivity|].
  change (map RpmPackage.filename shared_manifest)
    with ["app-1.0.x86_64.rpm"; "app-1.0.x86_64.rpm"].
  intros Hnd. apply NoDup_cons in Hnd as [Hnotin _]. apply Hnotin. left.
Qed.

(** C8 (amended). The final package set is the preserved packages followed by
    the newly fetched ones, as they are: its file names are pairwise distinct
    exactly when those of the preserved packages are, those of the newly
    fetched packages are, and no preserved package has the file name of a
    newly fetched one. *)
Theorem C8_final_set_unique_iff :
  ∀ (existing_packages : list RpmPackage.t) (projects_to_update : gset string)
    (new_packages : list RpmPackage.t) (packages_dir : option Directory),
    let preserved := preserved_packages existing_packages projects_to_update in
    let final := (reconcile existing_packages projects_to_update new_packages
                            packages_dir).1 in
    final = preserved ++ new_packages
    ∧ (NoDup (map RpmPackage.filename final)
       ↔ NoDup (map RpmPackage.filename preserved)
         ∧ NoDup (map RpmPackage.filename new_packages)
         ∧ ∀ name, name ∈ map RpmPackage.filename preserved →
                   name ∉ map RpmPackage.filename new_packages).
Proof.
  intros existing_packages projects_to_update new_packages packages_dir preserved final.
  split; [reflexivity|].
  unfold final, reconcile. cbn [fst]. fold preserved.
  rewrite map_app, NoDup_app. tauto.
Qed.

(** ** Fetch and verify pipeline *)

Section Pipeline.

Variables (w : World) (settings : RepoSettings.t) (args : Args.t).

Implicit Types (d : Directory) (st : Run.t) (pkg : RpmPackage.t).

Lemma elem_of_write_file name content d other :
  other ∈ (write_file name content d).*1 ↔ other = name ∨ other ∈ d.*1.
Proof.
  induction d as [|[n c] d IH]; simpl.
  - rewrite elem_of_cons, elem_of_nil. tauto.
  - destruct (decide (n = name)) as [->|Hne]; simpl; rewrite !elem_of_cons.
    + tauto.
    + rewrite IH. tauto.
Qed.

Lemma dict_get_write_file name content d :
  dict_get name (write_file name content d) = Some content.
Proof.
  induction d as [|[n c] d IH]; simpl.
  - by rewrite decide_True.
  - destruct (decide (n = name)) as [->|Hne]; simpl.
    + by rewrite decide_True.
    + by rewrite decide_False by congruence.
Qed.

Lemma sign_rpm_package_names rpm_path gpg_key d other :
  other ∈ d.*1 → other ∈ (sign_rpm_package w rpm_path gpg_key d).1.*1.
Proof.
  intros Hin. unfold sign_rpm_package.
  destruct (dict_get rpm_path d); [|done].
  destruct (rpm_addsign w _ _); [|done].
  simpl. apply elem_of_write_file. by right.
Qed.

Lemma filename_set_hash digest size pkg :
  RpmPackage.filename (set_hash digest size pkg) = RpmPackage.filename pkg.
Proof. reflexivity. Qed.

Lemma filename_apply_rpm_info info pkg :
  RpmPackage.filename (apply_rpm_info info pkg) = RpmPackage.filename pkg.
Proof. reflexivity. Qed.

(** What one turn of the package loop does to the state: no entry of the
    directory disappears; a package whose turn completes is appended, under
    its own file name, and its file is in the directory; a turn that raises
    appends nothing. *)
Lemma process_package_effect st pkg :
  Args.dry_run args = false →
  match process_package w settings args st pkg with
  | Ok st' =>
      (Run.packages_dir st).*1 ⊆ (Run.packages_dir st').*1
      ∧ RpmPackage.filename pkg ∈ (Run.packages_dir st').*1
      ∧ ∃ pkg', Run.new_packages st' = Run.new_packages st ++ [pkg']
                ∧ RpmPackage.filename pkg' = RpmPackage.filename pkg
  | Raise st' =>
      (Run.packages_dir st).*1 ⊆ (Run.packages_dir st').*1
      ∧ Run.new_packages st' = Run.new_packages st
  end.
Proof.
  intros Hdry. unfold process_package. rewrite Hdry.
  set (d := Run.packages_dir st).
  assert (Hfetch : match fetch_file w pkg d with
                   | Ok (d', _) => d.*1 ⊆ d'.*1 ∧ RpmPackage.filename pkg ∈ d'.*1
                   | Raise (d', _) => d.*1 ⊆ d'.*1
                   end).
  { unfold fetch_file, path_exists. case_bool_decide as Hex; simpl.
    - done.
    - destruct (download w _); [split| |].
      + intros n Hn. apply elem_of_write_file. by right.
      + apply elem_of_write_file. by left.
      + done.
      + intros n Hn. apply elem_of_write_file. by right. }
  destruct (fetch_file w pkg d) as [[d1 needs]|[d1 needs]]; [|done].
  destruct Hfetch as [Hsub Hin].
  match goal with |- context [dict_get _ ?x] => set (d2 := x) end.
  assert (Hsign : d1.*1 ⊆ d2.*1).
  { unfold d2. destruct (_ && _ && _); [|done].
    intros n Hn. by apply sign_rpm_package_names. }
  destruct (dict_get (RpmPackage.filename pkg) d2) as [content|]; simpl.
  - split; [by etrans|]. split; [by apply Hsign|].
    eexists. split; [reflexivity|].
    destruct (extract_rpm_info w content); reflexivity.
  - split; [by etrans | done].
Qed.

(** A loop preserves what each of its turns preserves, whether it completes
    or raises. *)
Lemma for_each_invariant {A S : Type} (Inv : S → Prop) (Q : A → Prop)
    (body : S → A → result S) (l : list A) (s : S) :
  (∀ s x, Q x → Inv s → Inv (state_of (body s x))) →
  Forall Q l → Inv s → Inv (state_of (for_each body l s)).
Proof.
  intros Hbody. revert s. induction l as [|x l IH]; intros s Hall Hs; [done|].
  apply Forall_cons in Hall as [Hx Hall]. simpl.
  pose proof (Hbody s x Hx Hs) as Hs'.
  destruct (body s x) as [s'|s']; simpl in Hs' |- *; [by apply IH | done].
Qed.

Lemma for_each_app {A S : Type} (body : S → A → result S) (l1 l2 : list A) (s : S) :
  for_each body (l1 ++ l2) s
  = match for_each body l1 s with
    | Ok s' => for_each body l2 s'
    | Raise s' => Raise s'
    end.
Proof.
  revert s. induction l1 as [|x l1 IH]; intros s; simpl; [done|].
  destruct (body s x); [apply IH | done].
Qed.

(** The two nested loops are one loop over the packages of all releases. *)
Lemma process_releases_concat releases st :
  process_releases w settings args releases st
  = for_each (process_package w settings args)
             (concat (map Release.packages releases)) st.
Proof.
  unfold process_releases. revert st.
  induction releases as [|r releases IH]; intros st; simpl; [done|].
  rewrite for_each_app.
  destruct (for_each _ (Release.packages r) st); [apply IH | done].
Qed.

End Pipeline.

(** ** The manifest and the packages directory after a run *)

Section Run.

Variable re_search_ignorecase : string → string → bool.
Variables (w : World) (settings : RepoSettings.t) (args : Args.t).

Implicit Types (d : Directory) (st : Run.t) (pkg : RpmPackage.t).

Lemma find_rpm_assets_rpm release_data project architectures asset :
  asset ∈ find_rpm_assets re_search_ignorecase release_data project architectures →
  Str.endswith ".rpm" (RpmAsset.name asset) = true.
Proof.
  unfold find_rpm_assets. rewrite list_elem_of_omap.
  intros (a & _ & Ha).
  destruct (Str.endswith ".rpm" (Asset.name a)) eqn:Hrpm; simpl in Ha; [|done].
  destruct (_ || _); [done|]. destruct (_ && _); [done|].
  destruct (detect_architecture _); [|done].
  case_bool_decide; [|done]. by injection Ha as <-.
Qed.

Lemma build_releases_rpm by_minor kept project description release pkg :
  release ∈ build_releases re_search_ignorecase project settings description by_minor kept →
  pkg ∈ Release.packages release → rpm_named pkg.
Proof.
  unfold build_releases. rewrite list_elem_of_omap.
  intros (mm & _ & Hmm).
  destruct (dict_get mm _) as [rd|]; [|done].
  destruct (find_rpm_assets re_search_ignorecase rd project _) as [|a l] eqn:Hassets; [done|].
  injection Hmm as <-. cbn [Release.packages]. intros Hin.
  assert (Hasset : ∃ asset, asset ∈ a :: l
                            ∧ RpmPackage.filename pkg = RpmAsset.name asset).
  { apply elem_of_cons in Hin as [->|Hin].
    - exists a. split; [left | done].
    - apply elem_of_map in Hin as (asset & -> & Hin).
      exists asset. split; [by right | done]. }
  destruct Hasset as (asset & Hin' & Hname). unfold rpm_named.
  rewrite Hname. rewrite <- Hassets in Hin'. by eapply find_rpm_assets_rpm.
Qed.

Lemma select_releases_rpm releases_data project description releases release pkg :
  select_releases re_search_ignorecase w releases_data project settings description
  = Some releases →
  release ∈ releases → pkg ∈ Release.packages release → rpm_named pkg.
Proof.
  rewrite select_releases_Some. intros (sorted & _ & ->). apply build_releases_rpm.
Qed.

Lemma Forall_concat_map {A B : Type} (Q : B → Prop) (f : A → list B) (l : list A) :
  (∀ x y, x ∈ l → y ∈ f x → Q y) → Forall Q (concat (map f l)).
Proof.
  induction l as [|x l IH]; intros H; simpl; [constructor|].
  apply Forall_app. split.
  - apply Forall_forall. intros y Hy. apply (H x); [left | done].
  - apply IH. intros x' y Hx' Hy. apply (H x'); [by right | done].
Qed.

Lemma process_package_invariant d0 st pkg :
  Args.dry_run args = false → rpm_named pkg → run_invariant d0 st →
  run_invariant d0 (state_of (process_package w settings args st pkg)).
Proof.
  intros Hdry Hrpm [Hd0 Hnew].
  pose proof (process_package_effect w settings args st pkg Hdry) as Heff.
  destruct (process_package w settings args st pkg) as [st'|st']; simpl.
  - destruct Heff as (Hsub & Hin & pkg' & Heq & Hname). split; [by etrans|].
    intros p Hp. rewrite Heq in Hp. apply elem_of_app in Hp as [Hp|Hp].
    + specialize (Hnew p Hp). rewrite elem_of_glob_rpm in Hnew |- *.
      destruct Hnew. split; [by apply Hsub | done].
    + apply list_elem_of_singleton in Hp as ->.
      rewrite Hname. by apply elem_of_glob_rpm.
  - destruct Heff as [Hsub Heq]. split; [by etrans|].
    intros p Hp. rewrite Heq in Hp.
    specialize (Hnew p Hp). rewrite elem_of_glob_rpm in Hnew |- *.
    destruct Hnew. split; [by apply Hsub | done].
Qed.

Lemma process_project_invariant d0 st project :
  Args.dry_run args = false → run_invariant d0 st →
  run_invariant d0 (process_project re_search_ignorecase w settings args st project).
Proof.
  intros Hdry Hinv. unfold process_project.
  destruct (fetch_releases re_search_ignorecase w project settings) as [releases|] eqn:Hfetch; [|done].
  destruct releases as [|r releases]; [done|].
  rewrite process_releases_concat.
  apply (for_each_invariant (run_invariant d0) rpm_named); [|  |done].
  - intros s x Hx Hs. by apply process_package_invariant.
  - unfold fetch_releases in Hfetch.
    destruct (get_releases w _) as [releases_data|]; [|done].
    apply Forall_concat_map. intros release pkg Hr Hp.
    by eapply select_releases_rpm.
Qed.

Lemma process_projects_invariant d0 st projects :
  Args.dry_run args = false → run_invariant d0 st →
  run_invariant d0 (foldl (process_project re_search_ignorecase w settings args) st projects).
Proof.
  intros Hdry. revert st.
  induction projects as [|p projects IH]; intros st Hinv; [done|].
  simpl. apply IH. by apply process_project_invariant.
Qed.

End Run.

(** C1. A run that is neither [--list] nor [--dry-run], on a configuration
    in which the requested projects exist, writes a manifest and leaves the
    packages directory such that the names of the [.rpm] files of the
    directory are exactly the file names of the packages of the manifest.
    The precondition is that the files of the preserved packages are [.rpm]
    files of the directory when the run starts.  Failed downloads need not be
    excluded: a package whose download raises is never added to the
    manifest, and what the failure leaves behind is cleaned up. *)
Theorem C1_manifest_matches_directory :
  ∀ (re : string → string → bool) (w : World) (settings : RepoSettings.t)
    (all_projects : list Project.t) (args : Args.t) (out : Output.t)
    (projects : list Project.t),
    Args.list args = false →
    Args.dry_run args = false →
    projects_to_process args all_projects = Some projects →
    (∀ pkg,
       pkg ∈ preserved_packages (load_manifest (Output.manifest_file out))
                                (list_to_set (map Project.repo projects)) →
       RpmPackage.filename pkg ∈ glob_rpm (mkdir (Output.packages_dir out))) →
    ∃ d' all_packages removed descriptor,
      main re w settings all_projects args out
      = Generated (Output.mk (Some d') (Some (Manifest.mk all_packages (now w)))
                             (Some descriptor))
                  all_packages removed
      ∧ ∀ name, name ∈ glob_rpm d' ↔ name ∈ map RpmPackage.filename all_packages.
Proof.
  intros re w settings all_projects args out projects Hlist Hdry Hprojects Hpres.
  unfold main. rewrite Hlist, Hprojects, Hdry.
  set (d0 := mkdir (Output.packages_dir out)) in *.
  set (preserved := preserved_packages _ _) in *.
  pose proof (process_projects_invariant re w settings args d0 (Run.mk d0 [])
                projects Hdry) as Hinv.
  set (st := foldl _ _ projects) in *.
  destruct Hinv as [Hgrow Hnew].
  { split; [done|]. intros pkg Hin. inversion Hin. }
  unfold reconcile. fold preserved. rewrite cleanup_old_packages_spec.
  eexists _, _, _, _. split; [reflexivity|].
  set (all_packages := preserved ++ Run.new_packages st).
  assert (Hall : ∀ pkg, pkg ∈ all_packages →
                 RpmPackage.filename pkg ∈ glob_rpm (Run.packages_dir st)).
  { intros pkg Hin. apply elem_of_app in Hin as [Hin|Hin]; [|by apply Hnew].
    specialize (Hpres pkg Hin). rewrite elem_of_glob_rpm in Hpres |- *.
    destruct Hpres. split; [by apply Hgrow | done]. }
  intros name. rewrite elem_of_glob_rpm. split.
  - intros [Hin Hrpm]. apply list_elem_of_fmap in Hin as ([n c] & -> & Hin).
    apply list_elem_of_filter in Hin as [Hkeep Hin].
    destruct (decide (n ∈ map RpmPackage.filename all_packages)) as [|Hnot]; [done|].
    exfalso. apply Hkeep. by split.
  - intros Hin. pose proof Hin as Hin'.
    apply elem_of_map in Hin' as (pkg & -> & Hpkg).
    specialize (Hall pkg Hpkg). apply elem_of_glob_rpm in Hall as [Hdir Hrpm].
    split; [|done].
    apply list_elem_of_fmap in Hdir as ([n c] & Hn & Hdir). simpl in Hn.
    apply list_elem_of_fmap. exists (n, c). split; [done|].
    apply list_elem_of_filter. split; [|done].
    intros [_ Hnot]. apply Hnot. simpl. by rewrite <- Hn.
Qed.

(** A run that updates acme/app and preserves the package of acme/lib. *)
Lemma C1_manifest_matches_directory_witness :
  ∃ d' all_packages removed descriptor,
    main no_pattern two_forks_world demo_settings [acme_app] default_args
         (Output.mk (Some [("lib-2.1.x86_64.rpm", "rpm"); ("old-0.9.x86_64.rpm", "rpm")])
                    (Some (Manifest.mk [lib_package] "2023-12-31T00:00:00+00:00"))
                    None)
    = Generated (Output.mk (Some d')
                           (Some (Manifest.mk all_packages (now two_forks_world)))
                           (Some descriptor))
                all_packages removed
    ∧ ∀ name, name ∈ glob_rpm d' ↔ name ∈ map RpmPackage.filename all_packages.
Proof.
  apply (C1_manifest_matches_directory no_pattern two_forks_world demo_settings
           [acme_app] default_args _ [acme_app]); try reflexivity.
  intros pkg Hin.
  assert (Hpres : preserved_packages [lib_package] (list_to_set ["acme/app"])
                  = [lib_package]) by (by vm_compute).
  cbn [load_manifest Output.manifest_file Manifest.packages map Project.repo acme_app]
    in Hin.
  rewrite Hpres in Hin. apply list_elem_of_singleton in Hin as ->.
  apply elem_of_glob_rpm. split; [left | reflexivity].
Defined.

Example preserved_run :
  main no_pattern two_forks_world demo_settings [acme_app] default_args
       (Output.mk (Some [("lib-2.1.x86_64.rpm", "rpm"); ("old-0.9.x86_64.rpm", "rpm")])
                  (Some (Manifest.mk [lib_package] "2023-12-31T00:00:00+00:00"))
                  None)
  = Generated
      (Output.mk (Some [("lib-2.1.x86_64.rpm", "rpm"); ("app-1.0.x86_64.rpm", "rpm")])
                 (Some (Manifest.mk [lib_package; app_package "acme/app" "An application"]
                                    "2024-01-01T00:00:00+00:00"))
                 (Some (generate_repo_file demo_settings None true)))
      [lib_package; app_package "acme/app" "An application"]
      ["old-0.9.x86_64.rpm"].
Proof. vm_compute. reflexivity. Qed.

(** ** Failures inside a project *)

Section Failures.

Variables (w : World) (settings : RepoSettings.t) (args : Args.t).
Hypothesis not_dry_run : Args.dry_run args = false.

Implicit Types (d : Directory) (st : Run.t) (pkg : RpmPackage.t).

(** A package loop that completes appends its packages in order. *)
Lemma for_each_package_Ok pkgs st st' :
  for_each (process_package w settings args) pkgs st = Ok st' →
  map RpmPackage.filename (Run.new_packages st')
  = map RpmPackage.filename (Run.new_packages st) ++ map RpmPackage.filename pkgs.
Proof.
  revert st. induction pkgs as [|pkg pkgs IH]; intros st; simpl.
  - intros [= ->]. by rewrite app_nil_r.
  - pose proof (process_package_effect w settings args st pkg not_dry_run) as Heff.
    destruct (process_package w settings args st pkg) as [st1|st1]; [|done].
    destruct Heff as (_ & _ & pkg' & Heq & Hname).
    intros Hrest. rewrite (IH _ Hrest), Heq, map_app. simpl.
    by rewrite Hname, <- app_assoc.
Qed.

(** A download that fails raises and appends nothing. *)
Lemma process_package_download_fails st pkg :
  path_exists (RpmPackage.filename pkg) (Run.packages_dir st) = false →
  (∀ content, download w (RpmPackage.url pkg) ≠ Downloaded content) →
  ∃ d, process_package w settings args st pkg = Raise (Run.mk d (Run.new_packages st)).
Proof.
  intros Hex Hfail. unfold process_package, fetch_file.
  rewrite not_dry_run, Hex. simpl.
  destruct (download w (RpmPackage.url pkg)) as [content| |partial].
  - by destruct (Hfail content).
  - by eexists.
  - by eexists.
Qed.

(** A signature that fails leaves the file as downloaded; the package is
    hashed and appended all the same. *)
Lemma process_package_sign_fails st pkg content :
  RepoSettings.sign_packages settings = true →
  truthy (Args.gpg_key args) = true →
  path_exists (RpmPackage.filename pkg) (Run.packages_dir st) = false →
  download w (RpmPackage.url pkg) = Downloaded content →
  rpm_addsign w (default "" (Args.gpg_key args)) content = None →
  ∃ pkg',
    process_package w settings args st pkg
    = Ok (Run.mk (write_file (RpmPackage.filename pkg) content (Run.packages_dir st))
                 (Run.new_packages st ++ [pkg']))
    ∧ RpmPackage.filename pkg' = RpmPackage.filename pkg
    ∧ RpmPackage.sha256 pkg' = sha256_hexdigest w content.
Proof.
  intros Hsign Hkey Hex Hdl Hfail. unfold process_package, fetch_file.
  rewrite not_dry_run, Hex, Hdl, Hsign, Hkey. simpl.
  unfold sign_rpm_package. rewrite dict_get_write_file, Hfail. simpl.
  rewrite dict_get_write_file. eexists. split; [reflexivity|].
  destruct (extract_rpm_info w content); by split.
Qed.

End Failures.

(** Counterexample to C4 as stated.  The release of acme/app offers
    [app-1.0.x86_64.rpm], whose download fails, and then
    [app-1.0.aarch64.rpm], whose download would succeed: the project
    contributes no package at all, the second one is never processed, and the
    run goes on with acme/lib.  And when the signature of
    [lib-2.1.x86_64.rpm] fails, that package is not excluded. *)
Lemma C4_counterexample_download_failure_ends_project :
  (∃ release,
     fetch_releases no_pattern flaky_world acme_app demo_settings = Some [release]
     ∧ map RpmPackage.filename (Release.packages release)
       = ["app-1.0.x86_64.rpm"; "app-1.0.aarch64.rpm"]
     ∧ map (λ pkg, download flaky_world (RpmPackage.url pkg)) (Release.packages release)
       = [ConnectFailed; Downloaded "rpm"])
  ∧ Run.new_packages
      (process_project no_pattern flaky_world demo_settings default_args
                       (Run.mk [] []) acme_app) = []
  ∧ (∃ out removed,
       main no_pattern flaky_world demo_settings [acme_app; acme_lib] default_args
            (Output.mk None None None)
       = Generated out [lib_package] removed
       ∧ "app-1.0.aarch64.rpm" ∉ map RpmPackage.filename [lib_package])
  ∧ rpm_addsign flaky_world "KEY" "rpm" = None
  ∧ map RpmPackage.filename
      (Run.new_packages
         (process_project no_pattern flaky_world demo_settings signing_args
                          (Run.mk [] []) acme_lib))
    = ["lib-2.1.x86_64.rpm"].
Proof.
  split; [eexists; split; [by vm_compute | split; reflexivity]|].
  split; [by vm_compute|].
  split; [|split; [reflexivity | by vm_compute]].
  eexists _, _. split; [by vm_compute|].
  simpl. rewrite list_elem_of_singleton. discriminate.
Qed.

(** C4 (amended). In a run that is not a dry run, when the download of a
    package of a project fails, the packages of that project processed before
    it stay in the newly fetched packages, that package and all remaining
    packages and releases of the same project are left out, and the run goes
    on with the next project.  A signature that fails excludes nothing: the
    package is recorded with the hash of the unsigned file and the loop goes
    on. *)
Theorem C4_download_failure_ends_project :
  ∀ (re : string → string → bool) (w : World) (settings : RepoSettings.t)
    (args : Args.t),
    Args.dry_run args = false →
    (∀ st project releases before pkg remaining st1,
       fetch_releases re w project settings = Some releases →
       concat (map Release.packages releases) = before ++ pkg :: remaining →
       for_each (process_package w settings args) before st = Ok st1 →
       path_exists (RpmPackage.filename pkg) (Run.packages_dir st1) = false →
       (∀ content, download w (RpmPackage.url pkg) ≠ Downloaded content) →
       let st' := process_project re w settings args st project in
       Run.new_packages st' = Run.new_packages st1
       ∧ map RpmPackage.filename (Run.new_packages st')
         = map RpmPackage.filename (Run.new_packages st)
           ++ map RpmPackage.filename before)
    ∧ (∀ st project next,
         foldl (process_project re w settings args) st (project :: next)
         = foldl (process_project re w settings args)
                 (process_project re w settings args st project) next)
    ∧ (∀ st pkg content,
         RepoSettings.sign_packages settings = true →
         truthy (Args.gpg_key args) = true →
         path_exists (RpmPackage.filename pkg) (Run.packages_dir st) = false →
         download w (RpmPackage.url pkg) = Downloaded content →
         rpm_addsign w (default "" (Args.gpg_key args)) content = None →
         ∃ pkg',
           process_package w settings args st pkg
           = Ok (Run.mk (write_file (RpmPackage.filename pkg) content
                                    (Run.packages_dir st))
                        (Run.new_packages st ++ [pkg']))
           ∧ RpmPackage.filename pkg' = RpmPackage.filename pkg
           ∧ RpmPackage.sha256 pkg' = sha256_hexdigest w content).
Proof.
  intros re w settings args Hdry. split; [|split].
  - intros st project releases before pkg remaining st1 Hfetch Hconcat Hbefore Hex
           Hfail st'.
    assert (Hst' : Run.new_packages st' = Run.new_packages st1).
    { unfold st', process_project. rewrite Hfetch.
      destruct releases as [|r releases]; [by destruct before|].
      rewrite process_releases_concat, Hconcat, for_each_app, Hbefore.
      destruct (process_package_download_fails w settings args Hdry st1 pkg Hex Hfail)
        as [d Hraise].
      simpl. by rewrite Hraise. }
    split; [exact Hst'|].
    rewrite Hst'. by apply (for_each_package_Ok w settings args Hdry).
  - reflexivity.
  - intros st pkg content. by apply process_package_sign_fails.
Qed.

Lemma C4_download_failure_ends_project_witness :
  Run.new_packages
    (process_project no_pattern flaky_world demo_settings signing_args
       (Run.mk [] []) acme_app) = []
  ∧ ∃ pkg',
      process_package flaky_world demo_settings signing_args (Run.mk [] []) lib_package
      = Ok (Run.mk [("lib-2.1.x86_64.rpm", "rpm")] [pkg'])
      ∧ RpmPackage.filename pkg' = "lib-2.1.x86_64.rpm"
      ∧ RpmPackage.sha256 pkg' = "digest".
Proof.
  destruct (C4_download_failure_ends_project no_pattern flaky_world demo_settings
              signing_args eq_refl) as (Hdownload & _ & Hsign).
  split.
  - destruct (fetch_releases no_pattern flaky_world acme_app demo_settings)
      as [releases|] eqn:Hfetch; [|by vm_compute in Hfetch].
    assert (Hpkgs : ∃ pkg remaining,
              concat (map Release.packages releases) = [] ++ pkg :: remaining
              ∧ RpmPackage.filename pkg = "app-1.0.x86_64.rpm"
              ∧ RpmPackage.url pkg = "https://example.org/dl/app-1.0.x86_64.rpm").
    { vm_compute in Hfetch. injection Hfetch as <-. by eexists _, _. }
    destruct Hpkgs as (pkg & remaining & Hconcat & Hname & Hurl).
    apply (Hdownload (Run.mk [] []) acme_app releases [] pkg remaining (Run.mk [] []));
      try done.
    intros content. by rewrite Hurl.
  - apply (Hsign (Run.mk [] []) lib_package "rpm"); reflexivity.
Defined.

(** ** The repository descriptor *)

Section Strip.

Lemma app_String c a b : String c a +:+ b = String c (a +:+ b).
Proof. reflexivity. Qed.

Lemma app_empty_l b : "" +:+ b = b.
Proof. reflexivity. Qed.

Lemma app_empty_r a : a +:+ "" = a.
Proof. induction a as [|c a IH]; [done|]. by rewrite app_String, IH. Qed.

Lemma app_assoc_str a b c : (a +:+ b) +:+ c = a +:+ b +:+ c.
Proof. induction a as [|x a IH]; [done|]. by rewrite !app_String, IH. Qed.

Lemma app_nonempty_r (a b : string) : b ≠ "" → a +:+ b ≠ "".
Proof. destruct a; [done|]. by rewrite app_String. Qed.

Lemma list_ascii_app a b :
  String.list_ascii_of_string (a +:+ b)
  = String.list_ascii_of_string a ++ String.list_ascii_of_string b.
Proof. induction a as [|c a IH]; [done|]. rewrite app_String. simpl. by rewrite IH. Qed.

Lemma string_of_list_app (l l' : list ascii) :
  String.string_of_list_ascii (l ++ l')
  = String.string_of_list_ascii l +:+ String.string_of_list_ascii l'.
Proof. induction l as [|c l IH]; [done|]. simpl. by rewrite IH, app_String. Qed.

(** A plain character is no byte of a white-space character. *)
Lemma plain_lt c : Str.is_plain c = true → (nat_of_ascii c < 128)%nat.
Proof.
  unfold Str.is_plain. rewrite andb_true_iff, Nat.ltb_lt. tauto.
Qed.

Lemma plain_space1 c : Str.is_plain c = true → Str.is_space1 c = false.
Proof.
  unfold Str.is_plain. rewrite andb_true_iff, negb_true_iff. tauto.
Qed.

Lemma space2_ge a b :
  Str.is_space2 a b = true → (128 ≤ nat_of_ascii a ∧ 128 ≤ nat_of_ascii b)%nat.
Proof.
  unfold Str.is_space2. cbv zeta.
  rewrite andb_true_iff, orb_true_iff, !Nat.eqb_eq. lia.
Qed.

Lemma space3_ge a b c :
  Str.is_space3 a b c = true →
  (128 ≤ nat_of_ascii a ∧ 128 ≤ nat_of_ascii b ∧ 128 ≤ nat_of_ascii c)%nat.
Proof.
  unfold Str.is_space3. cbv zeta.
  rewrite !orb_true_iff, !andb_true_iff, !orb_true_iff, !andb_true_iff,
    !Nat.eqb_eq, !Nat.leb_le. lia.
Qed.

Lemma plain_space2_l k b : Str.is_plain k = true → Str.is_space2 k b = false.
Proof.
  intros Hk%plain_lt. apply not_true_is_false. intros H%space2_ge. lia.
Qed.

Lemma plain_space2_r a k : Str.is_plain k = true → Str.is_space2 a k = false.
Proof.
  intros Hk%plain_lt. apply not_true_is_false. intros H%space2_ge. lia.
Qed.

Lemma plain_space3_1 k b c : Str.is_plain k = true → Str.is_space3 k b c = false.
Proof.
  intros Hk%plain_lt. apply not_true_is_false. intros H%space3_ge. lia.
Qed.

Lemma plain_space3_2 a k c : Str.is_plain k = true → Str.is_space3 a k c = false.
Proof.
  intros Hk%plain_lt. apply not_true_is_false. intros H%space3_ge. lia.
Qed.

Lemma plain_space3_3 a b k : Str.is_plain k = true → Str.is_space3 a b k = false.
Proof.
  intros Hk%plain_lt. apply not_true_is_false. intros H%space3_ge. lia.
Qed.

(** Nothing is stripped on the left of a plain character. *)
Lemma lstrip_space_plain k a :
  Str.is_plain k = true → Str.lstrip_space (String k a) = String k a.
Proof.
  intros Hk. cbn [Str.lstrip_space]. rewrite plain_space1 by done.
  destruct a as [|b [|c a]]; [done | |].
  - by rewrite plain_space2_l.
  - by rewrite plain_space2_l, plain_space3_1.
Qed.

Lemma rstrip_space_rev_plain k (r : list ascii) :
  Str.is_plain k = true → Str.rstrip_space_rev (k :: r) = k :: r.
Proof.
  intros Hk. cbn [Str.rstrip_space_rev]. rewrite plain_space1 by done.
  destruct r as [|b [|a r]]; [done | |].
  - by rewrite plain_space2_r.
  - by rewrite plain_space2_r, plain_space3_3.
Qed.

Lemma rstrip_space_rev_1 c :
  Str.rstrip_space_rev [c] = if Str.is_space1 c then [] else [c].
Proof. reflexivity. Qed.

Lemma rstrip_space_rev_2 c b :
  Str.rstrip_space_rev [c; b]
  = if Str.is_space1 c then Str.rstrip_space_rev [b]
    else if Str.is_space2 b c then [] else [c; b].
Proof. reflexivity. Qed.

Lemma rstrip_space_rev_3 c b a (r : list ascii) :
  Str.rstrip_space_rev (c :: b :: a :: r)
  = if Str.is_space1 c then Str.rstrip_space_rev (b :: a :: r)
    else if Str.is_space2 b c then Str.rstrip_space_rev (a :: r)
    else if Str.is_space3 a b c then Str.rstrip_space_rev r
    else c :: b :: a :: r.
Proof. reflexivity. Qed.

(** Stripping on the right stops at a plain character at the latest: what
    is before it stays. *)
Lemma rstrip_space_rev_app (r r' : list ascii) k :
  Str.is_plain k = true →
  Str.rstrip_space_rev (r ++ k :: r') = Str.rstrip_space_rev r ++ k :: r'.
Proof.
  intros Hk. remember (length r) as n eqn:Hn. revert r Hn.
  induction n as [n IH] using lt_wf_ind. intros r Hn.
  destruct r as [|c [|b [|a r]]].
  - by apply rstrip_space_rev_plain.
  - change ([c] ++ k :: r') with (c :: k :: r'). rewrite rstrip_space_rev_1.
    destruct r' as [|a r'].
    + rewrite rstrip_space_rev_2, plain_space2_l by done.
      destruct (Str.is_space1 c); [by apply rstrip_space_rev_plain | done].
    + rewrite rstrip_space_rev_3, plain_space2_l, plain_space3_2 by done.
      destruct (Str.is_space1 c); [by apply rstrip_space_rev_plain | done].
  - change ([c; b] ++ k :: r') with (c :: b :: k :: r').
    rewrite rstrip_space_rev_3, rstrip_space_rev_2, plain_space3_1 by done.
    destruct (Str.is_space1 c).
    { refine (IH (length [b]) _ [b] eq_refl). subst n; simpl; lia. }
    destruct (Str.is_space2 b c); [by apply rstrip_space_rev_plain | done].
  - change ((c :: b :: a :: r) ++ k :: r') with (c :: b :: a :: (r ++ k :: r')).
    rewrite !rstrip_space_rev_3.
    destruct (Str.is_space1 c).
    { refine (IH (length (b :: a :: r)) _ (b :: a :: r) eq_refl). subst n; simpl; lia. }
    destruct (Str.is_space2 b c).
    { refine (IH (length (a :: r)) _ (a :: r) eq_refl). subst n; simpl; lia. }
    destruct (Str.is_space3 a b c); [|done].
    refine (IH (length r) _ r eq_refl). subst n; simpl; lia.
Qed.

Lemma rstrip_space_app_plain a k b :
  Str.is_plain k = true →
  Str.rstrip_space (a +:+ String k b) = a +:+ String k (Str.rstrip_space b).
Proof.
  intros Hk. unfold Str.rstrip_space.
  rewrite list_ascii_app. cbn [String.list_ascii_of_string].
  rewrite rev_app_distr. cbn [rev]. rewrite <- app_assoc. cbn [app].
  rewrite rstrip_space_rev_app by done.
  rewrite rev_app_distr. cbn [rev]. rewrite rev_involutive, <- app_assoc. cbn [app].
  rewrite string_of_list_app. cbn [String.string_of_list_ascii].
  by rewrite String.string_of_list_ascii_of_string.
Qed.

Lemma has_plain_app a b : Str.has_plain (a +:+ b) = Str.has_plain a || Str.has_plain b.
Proof. unfold Str.has_plain. by rewrite list_ascii_app, existsb_app. Qed.

Lemma has_plain_split b :
  Str.has_plain b = true → ∃ b1 k b2, b = b1 +:+ String k b2 ∧ Str.is_plain k = true.
Proof.
  induction b as [|c b IH]; [done|].
  unfold Str.has_plain. cbn [String.list_ascii_of_string existsb].
  destruct (Str.is_plain c) eqn:Hc.
  - intros _. by exists "", c, b.
  - intros (b1 & k & b2 & -> & Hk)%IH. by exists (String c b1), k, b2.
Qed.

(** Stripping on the right goes through a prefix as soon as the rest has a
    plain character. *)
Lemma rstrip_space_app a b :
  Str.has_plain b = true → Str.rstrip_space (a +:+ b) = a +:+ Str.rstrip_space b.
Proof.
  intros (b1 & k & b2 & -> & Hk)%has_plain_split.
  rewrite <- app_assoc_str, !rstrip_space_app_plain by done.
  by rewrite app_assoc_str.
Qed.

Lemma rstrip_space_newline a : Str.rstrip_space (a +:+ "
") = Str.rstrip_space a.
Proof.
  unfold Str.rstrip_space. rewrite list_ascii_app, rev_app_distr. reflexivity.
Qed.

(** [strip] on the text of the descriptor: the first character is a
    bracket, so only the end changes. *)
Lemma strip_descriptor name description url tail :
  Str.has_plain tail = true →
  Str.strip ("[" +:+ name +:+ "]
name=" +:+ description +:+ "
baseurl=" +:+ url +:+ "
enabled=1
" +:+ tail)
  = "[" +:+ name +:+ "]
name=" +:+ description +:+ "
baseurl=" +:+ url +:+ "
enabled=1
" +:+ Str.rstrip_space tail.
Proof.
  intros Htail. unfold Str.strip.
  rewrite !rstrip_space_app;
    [by apply lstrip_space_plain | ..];
    repeat (exact Htail || (rewrite has_plain_app; try reflexivity;
                            apply orb_true_intro; right)).
Qed.

(** The end of the descriptor when a key is given. *)
Lemma rstrip_key_stanza (first baseurl name : string) :
  Str.rstrip_space
    ((first +:+ "repo_gpgcheck=1
gpgkey=" +:+ baseurl +:+ "/RPM-GPG-KEY-" +:+ name) +:+ "
")
  = first +:+ "repo_gpgcheck=1
gpgkey=" +:+ baseurl +:+ "/RPM-GPG-KEY-" +:+ Str.rstrip_space name.
Proof.
  rewrite rstrip_space_newline.
  change ("/RPM-GPG-KEY-" +:+ name) with ("/RPM-GPG-KEY" +:+ String "-" name).
  rewrite <- !app_assoc_str.
  rewrite rstrip_space_app_plain by reflexivity.
  rewrite !app_assoc_str. reflexivity.
Qed.

Lemma has_plain_key_stanza (first baseurl name : string) :
  Str.has_plain
    ((first +:+ "repo_gpgcheck=1
gpgkey=" +:+ baseurl +:+ "/RPM-GPG-KEY-" +:+ name) +:+ "
") = true.
Proof.
  rewrite !has_plain_app.
  change (Str.has_plain "repo_gpgcheck=1
gpgkey=") with true.
  by rewrite orb_true_r.
Qed.

End Strip.

Section Split.

Variable sep : ascii.

Lemma split_has_no (s x : string) : x ∈ Str.split sep s → has_no sep x.
Proof.
  revert x. induction s as [|c s IH]; intros x; simpl.
  - intros Hx. apply list_elem_of_singleton in Hx as ->. apply not_elem_of_nil.
  - destruct (decide (c = sep)) as [->|Hne].
    + intros Hx. apply elem_of_cons in Hx as [->|Hx]; [apply not_elem_of_nil | auto].
    + destruct (Str.split sep s) as [|h t] eqn:Hsplit.
      * intros Hx. apply list_elem_of_singleton in Hx as ->.
        unfold has_no. simpl. rewrite elem_of_cons, elem_of_nil. intuition congruence.
      * intros Hx. apply elem_of_cons in Hx as [->|Hx].
        -- unfold has_no. simpl. rewrite elem_of_cons.
           intros [?|Hin]; [congruence|]. apply (IH h); [left | done].
        -- apply IH. by right.
Qed.

Lemma split_app_sep (x s : string) :
  has_no sep x → Str.split sep (x +:+ String sep s) = x :: Str.split sep s.
Proof.
  induction x as [|c x IH]; intros Hx.
  - rewrite app_empty_l. simpl. by rewrite decide_True.
  - rewrite app_String. simpl.
    unfold has_no in Hx. simpl in Hx. rewrite elem_of_cons in Hx.
    rewrite decide_False by (intros ->; tauto).
    rewrite IH; [done|]. unfold has_no. tauto.
Qed.

Lemma split_has_no_id (x : string) : has_no sep x → Str.split sep x = [x].
Proof.
  induction x as [|c x IH]; intros Hx; [done|].
  simpl. unfold has_no in Hx. simpl in Hx. rewrite elem_of_cons in Hx.
  rewrite decide_False by (intros ->; tauto).
  rewrite IH; [done|]. unfold has_no. tauto.
Qed.

(** Splitting what was joined gives the parts back. *)
Lemma split_join (l : list string) :
  l ≠ [] → Forall (has_no sep) l →
  Str.split sep (join_with (String sep "") l) = l.
Proof.
  induction l as [|x l IH]; [done|]. intros _ Hall.
  apply Forall_cons in Hall as [Hx Hall].
  destruct l as [|y l]; [by apply split_has_no_id|].
  change (join_with (String sep "") (x :: y :: l))
    with (x +:+ String sep (join_with (String sep "") (y :: l))).
  rewrite split_app_sep by done. f_equal. by apply IH.
Qed.

Lemma split_nonempty (s : string) : Str.split sep s ≠ [].
Proof.
  destruct s as [|c s]; simpl; [done|].
  destruct (decide (c = sep)); [done|]. by destruct (Str.split sep s).
Qed.

(** Joining what was split gives the text back. *)
Lemma join_split (s : string) : join_with (String sep "") (Str.split sep s) = s.
Proof.
  induction s as [|c s IH]; [done|]. simpl.
  pose proof (split_nonempty s) as Hne'.
  destruct (decide (c = sep)) as [->|Hne].
  - destruct (Str.split sep s) as [|h t] eqn:Hsplit.
    + done.
    + change (join_with (String sep "") ("" :: h :: t))
        with (String sep (join_with (String sep "") (h :: t))).
      by rewrite IH.
  - destruct (Str.split sep s) as [|h t] eqn:Hsplit.
    + done.
    + destruct t as [|h' t].
      * simpl in IH |- *. by rewrite IH.
      * change (join_with (String sep "") (String c h :: h' :: t))
          with (String c (join_with (String sep "") (h :: h' :: t))).
        by rewrite IH.
Qed.

End Split.

Section Lines.

Variable sep : ascii.

Lemma has_no_app (a b : string) : has_no sep (a +:+ b) ↔ has_no sep a ∧ has_no sep b.
Proof. unfold has_no. by rewrite list_ascii_app, not_elem_of_app. Qed.

Lemma has_no_String c (s : string) : has_no sep (String c s) ↔ sep ≠ c ∧ has_no sep s.
Proof. unfold has_no. cbn [String.list_ascii_of_string]. by rewrite not_elem_of_cons. Qed.

Lemma has_no_empty : has_no sep "".
Proof. apply not_elem_of_nil. Qed.

Lemma has_no_rstrip drop (s : string) : has_no sep s → has_no sep (Str.rstrip drop s).
Proof.
  induction s as [|c s IH]; [done|].
  rewrite has_no_String. intros [Hc Hs]. cbn [Str.rstrip].
  destruct (Str.rstrip drop s) as [|c' t] eqn:Ht.
  - destruct (drop c); [apply has_no_empty|].
    rewrite has_no_String. split; [done | apply has_no_empty].
  - rewrite has_no_String. split; [done | by apply IH].
Qed.

(** The segments of a text after a separator are segments of the whole. *)
Lemma split_app_l (a s : string) :
  ∃ h l, Str.split sep (a +:+ String sep s) = h :: l ++ Str.split sep s.
Proof.
  induction a as [|c a (h & l & IH)].
  - exists "", []. rewrite app_empty_l. simpl. by rewrite decide_True.
  - rewrite app_String. simpl. rewrite IH.
    destruct (decide (c = sep)); [by exists "", (h :: l)|].
    by exists (String c h), l.
Qed.

Lemma elem_of_split_app (a s x : string) :
  x ∈ Str.split sep s → x ∈ Str.split sep (a +:+ String sep s).
Proof.
  intros Hx. destruct (split_app_l a s) as (h & l & ->).
  right. apply elem_of_app. by right.
Qed.

(** The first segment of a text that starts with a separator-free prefix
    starts with it. *)
Lemma split_prefix (p s : string) :
  has_no sep p →
  ∃ h t, Str.split sep (p +:+ s) = (p +:+ h) :: t.
Proof.
  induction p as [|c p IH].
  - intros _. rewrite app_empty_l. pose proof (split_nonempty sep s).
    destruct (Str.split sep s) as [|h t]; [done|]. by exists h, t.
  - rewrite has_no_String. intros [Hc Hp]. destruct (IH Hp) as (h & t & Hs).
    rewrite app_String. simpl. rewrite decide_False by done. rewrite Hs.
    by exists h, t.
Qed.

End Lines.

Ltac literal_has_no := apply (bool_decide_unpack _); by vm_compute.

(** The lines of the descriptor when no key is given and the three texts
    of the settings are on one line each. *)
Lemma lines_descriptor_no_key (name description url : string) :
  has_no LF name → has_no LF description → has_no LF url →
  Str.lines ("[" +:+ name +:+ "]
name=" +:+ description +:+ "
baseurl=" +:+ url +:+ "
enabled=1
" +:+ "gpgcheck=0" +:+ "
")
  = ["[" +:+ name +:+ "]"; "name=" +:+ description; "baseurl=" +:+ url;
     "enabled=1"; "gpgcheck=0"; ""].
Proof.
  intros Hname Hdescription Hurl.
  set (l := ["[" +:+ name +:+ "]"; "name=" +:+ description; "baseurl=" +:+ url;
             "enabled=1"; "gpgcheck=0"; ""]).
  assert (Hjoin : join_with (String LF "") l
                  = "[" +:+ name +:+ "]
name=" +:+ description +:+ "
baseurl=" +:+ url +:+ "
enabled=1
" +:+ "gpgcheck=0" +:+ "
").
  { unfold l. cbn [join_with]. rewrite !app_assoc_str. reflexivity. }
  rewrite <- Hjoin. unfold Str.lines. apply (split_join LF); [done|].
  unfold l. repeat constructor; rewrite ?has_no_app;
    repeat split; try done; literal_has_no.
Qed.

Lemma lines_last_line (prefix line : string) :
  has_no LF line → line ∈ Str.lines (prefix +:+ String LF (line +:+ String LF "")).
Proof.
  intros Hline. unfold Str.lines. apply elem_of_split_app.
  rewrite split_app_sep by done. left.
Qed.

(** The lines of a text that ends with the stanza of a key. *)
Lemma lines_key_stanza (prefix first rest : string) :
  has_no LF first →
  let text :=
    prefix +:+ String LF (first +:+ String LF ("repo_gpgcheck=1"
               +:+ String LF ("gpgkey=" +:+ rest))) in
  first ∈ Str.lines text
  ∧ "repo_gpgcheck=1" ∈ Str.lines text
  ∧ ∃ line, line ∈ Str.lines text ∧ Str.startswith "gpgkey=" line = true.
Proof.
  intros Hfirst text. unfold text, Str.lines. fold LF.
  destruct (split_app_l LF prefix
              (first +:+ String LF ("repo_gpgcheck=1"
                 +:+ String LF ("gpgkey=" +:+ rest)))) as (h0 & l & ->).
  rewrite split_app_sep by done.
  rewrite split_app_sep by literal_has_no.
  destruct (split_prefix LF "gpgkey=" rest) as (h & t & ->); [literal_has_no|].
  split; [|split].
  - right. apply elem_of_app. right. left.
  - right. apply elem_of_app. right. right. left.
  - exists ("gpgkey=" +:+ h). split; [|reflexivity].
    right. apply elem_of_app. right. right. right. left.
Qed.

(** A name that ends with a no-break space (U+00A0) loses it at the end of
    the descriptor, and there only. *)
Example descriptor_strips_no_break_space :
  let name := "acme" +:+ String (ascii_of_nat 194) (String (ascii_of_nat 160) "") in
  Str.lines (generate_repo_file
               (RepoSettings.mk name "https://acme.example.org/rpm" ["x86_64"]
                                "Acme packages" true) (Some "KEY") true)
  = ["[" +:+ name +:+ "]"; "name=Acme packages";
     "baseurl=https://acme.example.org/rpm/packages"; "enabled=1"; "gpgcheck=1";
     "repo_gpgcheck=1"; "gpgkey=https://acme.example.org/rpm/RPM-GPG-KEY-acme"; ""].
Proof. reflexivity. Qed.

(** Counterexample to C9 as stated.  With the base URL
    [https://acme.example.org/rpm/] the descriptor has the line
    [baseurl=https://acme.example.org/rpm/packages]: the trailing slash is
    dropped, and the configured URL followed by [/packages], which has two
    slashes, is not a line of the descriptor.  And without a key the
    descriptor has a line that starts with [repo_gpgcheck] as soon as the
    description, the name or the base URL brings one after a line feed. *)
Lemma C9_counterexample_baseurl_and_line_feed :
  let settings :=
    RepoSettings.mk "acme" "https://acme.example.org/rpm/" ["x86_64"]
                    "Acme packages" false in
  let two_lines := "Acme packages
repo_gpgcheck=1" in
  (Str.lines (generate_repo_file settings None false)
   = ["[acme]"; "name=Acme packages";
      "baseurl=https://acme.example.org/rpm/packages"; "enabled=1"; "gpgcheck=0"; ""]
   ∧ "baseurl=" +:+ RepoSettings.baseurl settings +:+ "/packages"
     ∉ Str.lines (generate_repo_file settings None false))
  ∧ Str.lines (generate_repo_file
                 (RepoSettings.mk "acme" "https://acme.example.org/rpm" ["x86_64"]
                                  two_lines false) None false)
    = ["[acme]"; "name=Acme packages"; "repo_gpgcheck=1";
       "baseurl=https://acme.example.org/rpm/packages"; "enabled=1"; "gpgcheck=0"; ""]
  ∧ existsb (Str.startswith "repo_gpgcheck")
      (Str.lines (generate_repo_file
                    (RepoSettings.mk two_lines "https://acme.example.org/rpm" ["x86_64"]
                                     "Acme packages" false) None false)) = true
  ∧ existsb (Str.startswith "repo_gpgcheck")
      (Str.lines (generate_repo_file
                    (RepoSettings.mk "acme" two_lines ["x86_64"]
                                     "Acme packages" false) None false)) = true.
Proof.
  split; [split; [reflexivity|] | repeat split; reflexivity].
  intros Hin. vm_compute in Hin.
  repeat (apply elem_of_cons in Hin as [Hin|Hin]; [discriminate|]).
  inversion Hin.
Qed.

(** C9 (amended). The descriptor is the section header, the description, the
    base URL of the packages, the enabled flag and one of three stanzas,
    chosen by the key and by [sign_packages].  Without a key (none, or an
    empty one) the stanza is the single line [gpgcheck=0], whatever
    [sign_packages] is: [gpgcheck=0] is a line of the descriptor, and when
    the name, the description and the base URL have no line feed the
    descriptor is made of five lines none of which starts with
    [repo_gpgcheck].  With a key and [sign_packages] false the stanza is
    [gpgcheck=0], [repo_gpgcheck=1] and a [gpgkey] line; with a key and
    [sign_packages] true it is [gpgcheck=1], [repo_gpgcheck=1] and a
    [gpgkey] line; in both cases the two settings are lines of the
    descriptor and a line starts with [gpgkey=].  The three stanzas differ
    from one another.  The base URL of the packages is the configured base
    URL, without its trailing slashes, followed by [/packages]. *)
Theorem C9_descriptor_gpg_stanza :
  ∀ (settings : RepoSettings.t) (gpg_key : option string) (sign_packages : bool),
    let name := RepoSettings.name settings in
    let description := RepoSettings.description settings in
    let baseurl := RepoSettings.baseurl settings in
    let key_lines := "repo_gpgcheck=1
gpgkey=" +:+ baseurl +:+ "/RPM-GPG-KEY-" +:+ Str.rstrip_space name in
    let descriptor (stanza : string) :=
      "[" +:+ name +:+ "]
name=" +:+ description +:+ "
baseurl=" +:+ packages_url settings +:+ "
enabled=1
" +:+ stanza +:+ "
" in
    let text := generate_repo_file settings gpg_key sign_packages in
    packages_url settings
    = Str.rstrip (λ c, bool_decide (c = "/"%char)) baseurl +:+ "/packages"
    ∧ (truthy gpg_key = false →
         gpg_lines settings gpg_key sign_packages = "gpgcheck=0"
         ∧ text = descriptor "gpgcheck=0"
         ∧ "gpgcheck=0" ∈ Str.lines text
         ∧ (has_no LF name → has_no LF description → has_no LF baseurl →
            Str.lines text
            = ["[" +:+ name +:+ "]"; "name=" +:+ description;
               "baseurl=" +:+ packages_url settings; "enabled=1"; "gpgcheck=0"; ""]
            ∧ ∀ line, line ∈ Str.lines text →
                Str.startswith "repo_gpgcheck" line = false))
    ∧ (truthy gpg_key = true →
         text = descriptor ((if sign_packages then "gpgcheck=1
" else "gpgcheck=0
") +:+ key_lines)
         ∧ (if sign_packages then "gpgcheck=1" else "gpgcheck=0") ∈ Str.lines text
         ∧ "repo_gpgcheck=1" ∈ Str.lines text
         ∧ ∃ line, line ∈ Str.lines text ∧ Str.startswith "gpgkey=" line = true)
    ∧ "gpgcheck=0" ≠ "gpgcheck=0
" +:+ key_lines
    ∧ "gpgcheck=0" ≠ "gpgcheck=1
" +:+ key_lines
    ∧ "gpgcheck=0
" +:+ key_lines ≠ "gpgcheck=1
" +:+ key_lines.
Proof.
  intros settings gpg_key sign_packages name description baseurl key_lines
    descriptor text.
  split; [reflexivity|].
  split; [|split].
  - intros Hkey.
    assert (Htext : text = descriptor "gpgcheck=0").
    { unfold text, generate_repo_file, gpg_lines. rewrite Hkey.
      rewrite strip_descriptor by reflexivity.
      unfold descriptor. rewrite !app_assoc_str. reflexivity. }
    split; [unfold gpg_lines; by rewrite Hkey|]. split; [done|].
    rewrite Htext. split.
    + assert (Hlast : descriptor "gpgcheck=0"
                      = ("[" +:+ name +:+ "]
name=" +:+ description +:+ "
baseurl=" +:+ packages_url settings +:+ "
enabled=1") +:+ String LF ("gpgcheck=0" +:+ String LF "")).
      { unfold descriptor. rewrite !app_assoc_str. reflexivity. }
      rewrite Hlast. apply lines_last_line. literal_has_no.
    + intros Hname Hdescription Hbaseurl.
      assert (Hurl : has_no LF (packages_url settings)).
      { unfold packages_url. apply has_no_app. split; [|literal_has_no].
        by apply has_no_rstrip. }
      unfold descriptor. rewrite lines_descriptor_no_key by done. split; [done|].
      intros line Hline.
      repeat (apply elem_of_cons in Hline as [->|Hline]; [reflexivity|]).
      inversion Hline.
  - intros Hkey.
    assert (Htext : text = descriptor ((if sign_packages then "gpgcheck=1
" else "gpgcheck=0
") +:+ key_lines)).
    { assert (Hplain : Str.has_plain (gpg_lines settings gpg_key sign_packages +:+ "
") = true).
      { unfold gpg_lines. rewrite Hkey. destruct sign_packages.
        - exact (has_plain_key_stanza "gpgcheck=1
" baseurl name).
        - exact (has_plain_key_stanza "gpgcheck=0
" baseurl name). }
      assert (Hend : Str.rstrip_space (gpg_lines settings gpg_key sign_packages +:+ "
") = (if sign_packages then "gpgcheck=1
" else "gpgcheck=0
") +:+ key_lines).
      { unfold gpg_lines. rewrite Hkey. destruct sign_packages.
        - exact (rstrip_key_stanza "gpgcheck=1
" baseurl name).
        - exact (rstrip_key_stanza "gpgcheck=0
" baseurl name). }
      unfold text, generate_repo_file.
      rewrite strip_descriptor by exact Hplain. rewrite Hend.
      unfold descriptor. rewrite !app_assoc_str. reflexivity. }
    split; [done|]. rewrite Htext.
    assert (Hstanza : descriptor ((if sign_packages then "gpgcheck=1
" else "gpgcheck=0
") +:+ key_lines)
      = ("[" +:+ name +:+ "]
name=" +:+ description +:+ "
baseurl=" +:+ packages_url settings +:+ "
enabled=1")
        +:+ String LF ((if sign_packages then "gpgcheck=1" else "gpgcheck=0")
        +:+ String LF ("repo_gpgcheck=1" +:+ String LF ("gpgkey="
        +:+ (baseurl +:+ "/RPM-GPG-KEY-" +:+ Str.rstrip_space name +:+ "
"))))).
    { unfold descriptor, key_lines. destruct sign_packages;
        rewrite !app_assoc_str; reflexivity. }
    rewrite Hstanza. apply lines_key_stanza.
    destruct sign_packages; literal_has_no.
  - repeat split; discriminate.
Qed.

Lemma C9_descriptor_gpg_stanza_witness :
  generate_repo_file demo_settings None true
  = "[acme]
name=Acme packages
baseurl=https://acme.example.org/rpm/packages
enabled=1
gpgcheck=0
"
  ∧ (∀ line, line ∈ Str.lines (generate_repo_file demo_settings None true) →
       Str.startswith "repo_gpgcheck" line = false)
  ∧ generate_repo_file demo_settings (Some "KEY") false
    = "[acme]
name=Acme packages
baseurl=https://acme.example.org/rpm/packages
enabled=1
gpgcheck=0
repo_gpgcheck=1
gpgkey=https://acme.example.org/rpm/RPM-GPG-KEY-acme
"
  ∧ generate_repo_file demo_settings (Some "KEY") true
    = "[acme]
name=Acme packages
baseurl=https://acme.example.org/rpm/packages
enabled=1
gpgcheck=1
repo_gpgcheck=1
gpgkey=https://acme.example.org/rpm/RPM-GPG-KEY-acme
".
Proof.
  pose proof (C9_descriptor_gpg_stanza demo_settings None true) as (_ & H0 & _).
  pose proof (C9_descriptor_gpg_stanza demo_settings (Some "KEY") false)
    as (_ & _ & H1 & _).
  pose proof (C9_descriptor_gpg_stanza demo_settings (Some "KEY") true)
    as (_ & _ & H2 & _).
  destruct (H0 eq_refl) as (_ & Htext0 & _ & Hlines0).
  split; [|split; [|split]].
  - rewrite Htext0. reflexivity.
  - apply Hlines0; apply (bool_decide_unpack _); by vm_compute.
  - destruct (H1 eq_refl) as [-> _]. reflexivity.
  - destruct (H2 eq_refl) as [-> _]. reflexivity.
Defined.


(** * Part IV: further properties of the generator *)

(** ** Classifier and versions *)

Lemma lower_char_idemp (c : ascii) : Str.lower_char (Str.lower_char c) = Str.lower_char c.
Proof. destruct c as [[] [] [] [] [] [] [] []]; reflexivity. Qed.

Lemma lower_idemp (s : string) : Str.lower (Str.lower s) = Str.lower s.
Proof. induction s as [|c s IH]; simpl; [done|]. by rewrite lower_char_idemp, IH. Qed.

Lemma first_arch_tag table subject arch :
  first_arch table subject = Some arch → arch ∈ table.*1.
Proof.
  induction table as [|[a ps] table IH]; simpl; [done|].
  destruct (existsb _ ps).
  - intros [= ->]. left.
  - intros H. right. auto.
Qed.

(** X1. The classifier does not look at the case of letters: a file name and
    its lower-case form get the same answer, and the answer, when there is
    one, is one of the five tags of the table. *)
Theorem X1_detect_architecture_case_insensitive :
  ∀ filename,
    detect_architecture (Str.lower filename) = detect_architecture filename
    ∧ ∀ arch, detect_architecture filename = Some arch →
        arch ∈ ["x86_64"; "aarch64"; "i686"; "armv7hl"; "noarch"].
Proof.
  intros filename. split.
  - unfold detect_architecture. by rewrite lower_idemp.
  - intros arch H. by apply first_arch_tag in H.
Qed.

Lemma X1_detect_architecture_case_insensitive_witness :
  detect_architecture (Str.lower "App-1.0.AARCH64.rpm")
  = detect_architecture "App-1.0.AARCH64.rpm"
  ∧ "aarch64" ∈ ["x86_64"; "aarch64"; "i686"; "armv7hl"; "noarch"].
Proof.
  destruct (X1_detect_architecture_case_insensitive "App-1.0.AARCH64.rpm") as [H1 H2].
  split; [exact H1 | apply H2; reflexivity].
Defined.

(** X2. A file name is classified x86_64 exactly when its lower-case form
    contains [x86_64], [amd64] or [x64]; such a name is never classified
    i686, although the i686 entry has a pattern that starts with [x86]. *)
Theorem X2_detect_architecture_x86_64 :
  ∀ filename,
    let lowered := Str.lower filename in
    (detect_architecture filename = Some "x86_64"
     ↔ Str.contains "x86_64" lowered || Str.contains "amd64" lowered
       || Str.contains "x64" lowered = true)
    ∧ (Str.contains "x86_64" lowered = true →
       detect_architecture filename ≠ Some "i686").
Proof.
  intros filename lowered.
  assert (Hiff : detect_architecture filename = Some "x86_64"
     ↔ Str.contains "x86_64" lowered || Str.contains "amd64" lowered
       || Str.contains "x64" lowered = true).
  { unfold detect_architecture. fold lowered. unfold ARCH_PATTERNS.
    cbn [first_arch existsb]. rewrite !search_lit, orb_false_r, orb_assoc.
    destruct (_ || _ || _); [done|].
    split; [|done]. intros H.
    repeat match type of H with
           | (if ?b then _ else _) = _ => destruct b; [discriminate|]
           end.
    discriminate. }
  split; [exact Hiff|].
  intros Hx. assert (Hd : detect_architecture filename = Some "x86_64").
  { apply Hiff. by rewrite Hx. }
  rewrite Hd. discriminate.
Qed.

Lemma X2_detect_architecture_x86_64_witness :
  detect_architecture "tool_X86_64.rpm" ≠ Some "i686".
Proof. apply (X2_detect_architecture_x86_64 "tool_X86_64.rpm"). reflexivity. Defined.

Lemma lstrip_spec (drop : ascii → bool) (s : string) :
  ∃ prefix,
    s = prefix +:+ Str.lstrip drop s
    ∧ Forall (λ c, drop c = true) (String.list_ascii_of_string prefix)
    ∧ ∀ c rest, Str.lstrip drop s = String c rest → drop c = false.
Proof.
  induction s as [|c s (prefix & Heq & Hall & Hhead)].
  - exists "". repeat split; [constructor | done].
  - simpl. destruct (drop c) eqn:Hc.
    + exists (String c prefix). rewrite app_String, <- Heq.
      repeat split; [by constructor | done].
    + exists "". repeat split; [constructor|]. by intros ? ? [= <- _].
Qed.

Lemma lstrip_idemp (drop : ascii → bool) (s : string) :
  Str.lstrip drop (Str.lstrip drop s) = Str.lstrip drop s.
Proof.
  induction s as [|c s IH]; simpl; [done|].
  destruct (drop c) eqn:Hc; [done|]. simpl. by rewrite Hc.
Qed.

(** X3. The version of a tag is the tag without its leading [v] and [V]
    characters, all of them and nothing else: the tag is such a prefix
    followed by the version, the version does not start with [v] or [V], and
    taking the version of a version changes nothing. *)
Theorem X3_extract_version_strips_prefix :
  ∀ tag,
    (∃ prefix,
       tag = prefix +:+ extract_version tag
       ∧ Forall (λ c, c = "v"%char ∨ c = "V"%char) (String.list_ascii_of_string prefix))
    ∧ (∀ c rest, extract_version tag = String c rest → c ≠ "v"%char ∧ c ≠ "V"%char)
    ∧ extract_version (extract_version tag) = extract_version tag.
Proof.
  intros tag. unfold extract_version.
  destruct (lstrip_spec
              (λ c, bool_decide (c = "v"%char) || bool_decide (c = "V"%char)) tag)
    as (prefix & Heq & Hall & Hhead).
  split; [|split].
  - exists prefix. split; [done|].
    eapply Forall_impl; [exact Hall|]. intros c Hc.
    apply orb_true_iff in Hc as [Hc|Hc]; apply bool_decide_eq_true in Hc; auto.
  - intros c rest Hv. specialize (Hhead c rest Hv).
    apply orb_false_iff in Hhead as [H1 H2].
    apply bool_decide_eq_false in H1, H2. done.
  - apply lstrip_idemp.
Qed.


Lemma X3_extract_version_strips_prefix_witness :
  "1"%char ≠ "v"%char ∧ "1"%char ≠ "V"%char.
Proof.
  destruct (X3_extract_version_strips_prefix "vV1.0") as (_ & Hhead & _).
  apply (Hhead "1"%char ".0"). reflexivity.
Defined.

Lemma mapM_take {A B : Type} (f : A → option B) (n : nat) (l : list A) (k : list B) :
  mapM f l = Some k → mapM f (take n l) = Some (take n k).
Proof. rewrite !mapM_Some. apply Forall2_take. Qed.

(** X4. The bucket of a version is made of its first two components: the
    sort key of the bucket is computed from the first two components of the
    version, so that it is the sort key of the version cut after two
    numbers whenever the version has a sort key; and the bucket of a bucket
    is the bucket itself. *)
Theorem X4_extract_major_minor_key :
  ∀ (w : World) (version : string),
    version_key w (extract_major_minor version)
    = mapM (component_key w) (take 2 (Str.split "."%char version))
    ∧ (∀ key, version_key w version = Some key →
              version_key w (extract_major_minor version) = Some (take 2 key))
    ∧ extract_major_minor (extract_major_minor version) = extract_major_minor version.
Proof.
  intros w version.
  assert (Hsplit2 : Str.split "."%char (extract_major_minor version)
                    = take 2 (Str.split "."%char version)
                    ∧ extract_major_minor (extract_major_minor version)
                      = extract_major_minor version).
  { unfold extract_major_minor.
    destruct (Str.split "."%char version) as [|p0 [|p1 rest]] eqn:Hsplit.
    - by rewrite Hsplit.
    - by rewrite Hsplit.
    - assert (H0 : has_no "."%char p0).
      { apply (split_has_no _ version). rewrite Hsplit. left. }
      assert (H1 : has_no "."%char p1).
      { apply (split_has_no _ version). rewrite Hsplit. right. left. }
      assert (Hmm : Str.split "."%char (p0 +:+ "." +:+ p1) = [p0; p1]).
      { change (p0 +:+ "." +:+ p1) with (p0 +:+ String "."%char p1).
        rewrite split_app_sep by done. by rewrite split_has_no_id. }
      by rewrite Hmm. }
  destruct Hsplit2 as [Hsplit2 Hidem].
  assert (Hkey : version_key w (extract_major_minor version)
                 = mapM (component_key w) (take 2 (Str.split "."%char version))).
  { unfold version_key. by rewrite Hsplit2. }
  split; [done|]. split; [|done].
  intros key Hversion. rewrite Hkey. by apply mapM_take.
Qed.

Lemma X4_extract_major_minor_key_witness :
  version_key superscript_world (extract_major_minor "1.٣.7") = Some (take 2 [1; 3; 7]).
Proof.
  apply (X4_extract_major_minor_key superscript_world "1.٣.7"). reflexivity.
Defined.

(** X5. The sort of the buckets is stable: when the sort returns, buckets
    whose keys are equal (such as [1.0] and [1.00], or two buckets without
    a number) are in the order in which they were met. *)
Theorem X5_sorted_versions_stable :
  ∀ (w : World) (by_minor : list (string * ReleaseData.t)) (sorted : list string)
    (k : list Z),
    sorted_versions w by_minor = Some sorted →
    filter (λ v, version_key w v = Some k) sorted
    = filter (λ v, version_key w v = Some k) by_minor.*1.
Proof.
  intros w by_minor sorted k Hsorted.
  by apply sorted_by_version_key_Some in Hsorted as (_ & _ & ->).
Qed.

Lemma X5_sorted_versions_stable_witness :
  let w := superscript_world in
  let by_minor :=
    releases_by_minor
      [ ReleaseData.mk false false "v1.0.3" []; ReleaseData.mk false false "beta" [];
        ReleaseData.mk false false "v1.00.0" []; ReleaseData.mk false false "alpha" [];
        ReleaseData.mk false false "v2.1.0" [] ] in
  filter (λ v, version_key w v = Some [0]) ["2.1"; "1.0"; "1.00"; "beta"; "alpha"]
  = filter (λ v, version_key w v = Some [0]) by_minor.*1.
Proof.
  intros w by_minor.
  apply (X5_sorted_versions_stable w by_minor _ [0]). reflexivity.
Defined.

Example sorted_versions_ties (w : World) :
  sorted_by_version_key w ["1.0"; "beta"; "1.00"; "alpha"; "2.1"]
  = Some ["2.1"; "1.0"; "1.00"; "beta"; "alpha"].
Proof. reflexivity. Qed.


(** ** Release selector *)

Section ByMinor.

Implicit Types (acc : list (string * ReleaseData.t)) (data : list ReleaseData.t).

Lemma foldl_ext_all {A B : Type} (f g : A → B → A) (l : list B) (a : A) :
  (∀ a x, f a x = g a x) → foldl f a l = foldl g a l.
Proof.
  intros Hfg. revert a. induction l as [|x l IH]; intros a; [done|].
  simpl. by rewrite Hfg, IH.
Qed.

Lemma releases_by_minor_foldl data :
  releases_by_minor data = foldl by_minor_step [] data.
Proof.
  unfold releases_by_minor. apply foldl_ext_all. intros acc rd.
  unfold by_minor_step, eligible, bucket_of.
  by destruct (ReleaseData.prerelease rd || ReleaseData.draft rd).
Qed.

Lemma by_minor_step_NoDup acc rd : NoDup acc.*1 → NoDup (by_minor_step acc rd).*1.
Proof.
  intros Hnd. unfold by_minor_step. destruct (eligible rd); [|done].
  case_bool_decide as Hin; [done|].
  rewrite fmap_app. apply NoDup_app. repeat split; [done | | apply NoDup_singleton].
  intros k Hk Hk'. apply list_elem_of_singleton in Hk'. by subst.
Qed.

Lemma foldl_by_minor_NoDup acc data :
  NoDup acc.*1 → NoDup (foldl by_minor_step acc data).*1.
Proof.
  revert acc. induction data as [|rd data IH]; intros acc Hnd; [done|].
  simpl. by apply IH, by_minor_step_NoDup.
Qed.

Lemma foldl_by_minor_entry acc data k rd :
  (k, rd) ∈ foldl by_minor_step acc data →
  (k, rd) ∈ acc ∨ (rd ∈ data ∧ eligible rd = true ∧ bucket_of rd = k).
Proof.
  revert acc. induction data as [|r data IH]; intros acc Hin; [by left|].
  simpl in Hin. apply IH in Hin as [Hin|(Hin & He & Hb)].
  - unfold by_minor_step in Hin. destruct (eligible r) eqn:He; [|by left].
    case_bool_decide; [by left|].
    apply elem_of_app in Hin as [Hin|Hin]; [by left|].
    apply list_elem_of_singleton in Hin as [= -> ->].
    right. repeat split; [left | done].
  - right. repeat split; [by right | done..].
Qed.

Lemma dict_get_app_l {V : Type} k (d d' : list (string * V)) v :
  dict_get k d = Some v → dict_get k (d ++ d') = Some v.
Proof.
  induction d as [|[k' v'] d IH]; simpl; [done|].
  destruct (decide (k = k')); [done | auto].
Qed.

Lemma dict_get_app_fresh {V : Type} k (d : list (string * V)) v :
  k ∉ d.*1 → dict_get k (d ++ [(k, v)]) = Some v.
Proof.
  induction d as [|[k' v'] d IH]; simpl; intros Hk.
  - by rewrite decide_True.
  - rewrite not_elem_of_cons in Hk. destruct Hk as [Hne Hk].
    rewrite decide_False by done. auto.
Qed.

Lemma foldl_by_minor_lookup acc data k rd :
  dict_get k acc = Some rd → dict_get k (foldl by_minor_step acc data) = Some rd.
Proof.
  revert acc. induction data as [|r data IH]; intros acc Hget; [done|].
  simpl. apply IH. unfold by_minor_step. destruct (eligible r); [|done].
  case_bool_decide; [done|]. by apply dict_get_app_l.
Qed.

Lemma releases_by_minor_first before rd after :
  eligible rd = true →
  (∀ r, r ∈ before → eligible r = true → bucket_of r ≠ bucket_of rd) →
  dict_get (bucket_of rd) (releases_by_minor (before ++ rd :: after)) = Some rd.
Proof.
  intros He Hfirst. rewrite releases_by_minor_foldl, foldl_app. cbn [foldl].
  assert (Hfresh : bucket_of rd ∉ (foldl by_minor_step [] before).*1).
  { intros Hin. apply list_elem_of_fmap in Hin as ([k r] & Hk & Hin).
    simpl in Hk. subst k.
    apply foldl_by_minor_entry in Hin as [Hin|(Hin & Her & Hb)]; [inversion Hin|].
    by apply (Hfirst r). }
  apply foldl_by_minor_lookup. unfold by_minor_step. rewrite He.
  rewrite bool_decide_eq_false_2 by done. by apply dict_get_app_fresh.
Qed.

End ByMinor.

(** X6. The dictionary of releases by bucket has each bucket once; its
    entries are releases of the provider's list that are neither pre-releases
    nor drafts, under their own bucket; and the release stored for a bucket
    is the first such release of the list. *)
Theorem X6_releases_by_minor_first_per_bucket :
  ∀ releases_data : list ReleaseData.t,
    NoDup (releases_by_minor releases_data).*1
    ∧ (∀ k rd, (k, rd) ∈ releases_by_minor releases_data →
         rd ∈ releases_data
         ∧ ReleaseData.prerelease rd = false ∧ ReleaseData.draft rd = false
         ∧ k = extract_major_minor (extract_version (ReleaseData.tag_name rd)))
    ∧ (∀ before rd after,
         releases_data = before ++ rd :: after →
         eligible rd = true →
         (∀ r, r ∈ before → eligible r = true → bucket_of r ≠ bucket_of rd) →
         dict_get (bucket_of rd) (releases_by_minor releases_data) = Some rd).
Proof.
  intros releases_data. split; [|split].
  - rewrite releases_by_minor_foldl. apply foldl_by_minor_NoDup. constructor.
  - intros k rd Hin. rewrite releases_by_minor_foldl in Hin.
    apply foldl_by_minor_entry in Hin as [Hin|(Hin & He & Hb)]; [inversion Hin|].
    unfold eligible in He. apply negb_true_iff, orb_false_iff in He as [Hp Hd].
    by repeat split.
  - intros before rd after -> He Hfirst. by apply releases_by_minor_first.
Qed.

Lemma X6_releases_by_minor_first_per_bucket_witness :
  dict_get "2.0" (releases_by_minor five_buckets)
  = Some (demo_release "v2.0.1" "app-2.0.1.x86_64.rpm")
  ∧ dict_get "1.10" (releases_by_minor five_buckets)
    = Some (demo_release "v1.10.0" "app-1.10.0.x86_64.rpm").
Proof.
  destruct (X6_releases_by_minor_first_per_bucket five_buckets) as (_ & _ & Hfirst).
  split.
  - apply (Hfirst [] (demo_release "v2.0.1" "app-2.0.1.x86_64.rpm")
                  (tail five_buckets)); [reflexivity | reflexivity |].
    intros r Hr. inversion Hr.
  - apply (Hfirst (take 2 five_buckets) (demo_release "v1.10.0" "app-1.10.0.x86_64.rpm")
                  (drop 3 five_buckets)); [reflexivity | reflexivity |].
    intros r Hr _. cbn [take five_buckets] in Hr.
    rewrite !elem_of_cons, elem_of_nil in Hr.
    destruct Hr as [->|[->|[]]]; discriminate.
Defined.


Section Selected.

Variable re : string → string → bool.
Variables (project : Project.t) (settings : RepoSettings.t) (description : string).

Lemma find_rpm_assets_elem release_data architectures asset :
  asset ∈ find_rpm_assets re release_data project architectures →
  (∃ a, a ∈ ReleaseData.assets release_data
        ∧ asset = RpmAsset.mk (Asset.name a) (Asset.browser_download_url a)
                              (Asset.size a) (RpmAsset.architecture asset))
  ∧ Str.endswith ".rpm" (RpmAsset.name asset) = true
  ∧ Str.contains ".src.rpm" (RpmAsset.name asset) = false
  ∧ Str.contains ".srpm" (RpmAsset.name asset) = false
  ∧ (Project.asset_pattern project = ""
     ∨ re (Project.asset_pattern project) (RpmAsset.name asset) = true)
  ∧ detect_architecture (RpmAsset.name asset) = Some (RpmAsset.architecture asset)
  ∧ RpmAsset.architecture asset ∈ architectures.
Proof.
  unfold find_rpm_assets. rewrite list_elem_of_omap. intros (a & Hin & Ha).
  destruct (Str.endswith ".rpm" (Asset.name a)) eqn:Hrpm; simpl in Ha; [|done].
  destruct (Str.contains ".src.rpm" (Asset.name a)) eqn:Hsrc; simpl in Ha; [done|].
  destruct (Str.contains ".srpm" (Asset.name a)) eqn:Hsrpm; simpl in Ha; [done|].
  destruct (negb (bool_decide (Project.asset_pattern project = "")) && _) eqn:Hpat;
    [done|].
  destruct (detect_architecture (Asset.name a)) as [arch|] eqn:Harch; [|done].
  case_bool_decide as Hallowed; [|done]. injection Ha as <-. simpl.
  repeat split; try done; [by exists a|].
  apply andb_false_iff in Hpat as [Hpat|Hpat].
  - left. apply negb_false_iff in Hpat. by apply bool_decide_eq_true in Hpat.
  - right. by apply negb_false_iff in Hpat.
Qed.

Lemma build_releases_elem by_minor kept release :
  release ∈ build_releases re project settings description by_minor kept →
  ∃ release_data,
    Release.major_minor release ∈ kept
    ∧ dict_get (Release.major_minor release) by_minor = Some release_data
    ∧ Release.tag release = ReleaseData.tag_name release_data
    ∧ Release.version release = extract_version (ReleaseData.tag_name release_data)
    ∧ Release.packages release
      = map (package_of_asset project (Release.version release) description)
            (find_rpm_assets re release_data project
                             (RepoSettings.architectures settings))
    ∧ Release.packages release ≠ [].
Proof.
  unfold build_releases. rewrite list_elem_of_omap. intros (mm & Hmm & Hr).
  destruct (dict_get mm by_minor) as [rd|] eqn:Hget; [|done].
  destruct (find_rpm_assets re rd project _) as [|a l] eqn:Hassets; [done|].
  injection Hr as <-. exists rd. cbn [Release.major_minor Release.tag
    Release.version Release.packages]. rewrite Hassets. by repeat split.
Qed.

Lemma build_releases_sublist by_minor kept :
  map Release.major_minor (build_releases re project settings description by_minor kept)
  `sublist_of` kept.
Proof.
  unfold build_releases. induction kept as [|mm kept IH]; [constructor|].
  cbn [omap list_omap].
  destruct (dict_get mm by_minor) as [rd|]; [|by constructor].
  destruct (find_rpm_assets re rd project _); [by constructor|].
  cbn [map Release.major_minor]. by constructor.
Qed.

End Selected.

Lemma StronglySorted_sublist {A : Type} (R : A → A → Prop) (l1 l2 : list A) :
  l1 `sublist_of` l2 → StronglySorted R l2 → StronglySorted R l1.
Proof.
  induction 1 as [|x l1 l2 Hsub IH|x l1 l2 Hsub IH]; intros Hs; [done| |].
  - apply StronglySorted_inv in Hs as [Hs Hall]. constructor; [auto|].
    rewrite Forall_forall in Hall |- *. intros y Hy.
    apply Hall. by eapply elem_of_sublist.
  - apply StronglySorted_inv in Hs as [Hs _]. auto.
Qed.

(** X7. Every release that the selector returns comes from a release of the
    provider's list that is neither a pre-release nor a draft and is the
    one stored for its bucket; its tag is that release's tag, its version
    the tag without the leading [v], its bucket the bucket of the version,
    and its packages are built from that release's matching assets, of which
    there is at least one. *)
Theorem X7_selected_release_origin :
  ∀ (re : string → string → bool) (w : World) releases_data project settings
    description releases release,
    select_releases re w releases_data project settings description = Some releases →
    release ∈ releases →
    ∃ rd,
      rd ∈ releases_data
      ∧ ReleaseData.prerelease rd = false ∧ ReleaseData.draft rd = false
      ∧ dict_get (Release.major_minor release) (releases_by_minor releases_data)
        = Some rd
      ∧ Release.tag release = ReleaseData.tag_name rd
      ∧ Release.version release = extract_version (Release.tag release)
      ∧ Release.major_minor release = extract_major_minor (Release.version release)
      ∧ Release.packages release
        = map (package_of_asset project (Release.version release) description)
              (find_rpm_assets re rd project (RepoSettings.architectures settings))
      ∧ Release.packages release ≠ [].
Proof.
  intros re w releases_data project settings description releases release Hsel Hin.
  apply select_releases_Some in Hsel as (sorted & _ & ->).
  apply build_releases_elem in Hin
    as (rd & _ & Hget & Htag & Hversion & Hpkgs & Hne).
  pose proof (dict_get_Some_elem_of _ _ _ Hget) as Hentry.
  rewrite releases_by_minor_foldl in Hentry.
  apply foldl_by_minor_entry in Hentry as [Hentry|(Hdata & He & Hb)];
    [inversion Hentry|].
  unfold eligible in He. apply negb_true_iff, orb_false_iff in He as [Hp Hd].
  exists rd. repeat split; try done.
  - by rewrite Htag.
  - by rewrite Hversion, <- Hb.
Qed.

Lemma X7_selected_release_origin_witness :
  ∃ rd, rd ∈ five_buckets
        ∧ ReleaseData.tag_name rd = "v1.10.0"
        ∧ ReleaseData.prerelease rd = false.
Proof.
  destruct (X7_selected_release_origin no_pattern two_forks_world five_buckets
              (demo_project 2) demo_settings "d" _
              (Release.mk "v1.10.0" "1.10.0" "1.10"
                 [package_of_asset (demo_project 2) "1.10.0" "d"
                    (RpmAsset.mk "app-1.10.0.x86_64.rpm"
                       "https://example.org/dl/app-1.10.0.x86_64.rpm" 1000 "x86_64")])
              eq_refl)
    as (rd & Hin & Hp & _ & _ & Htag & _).
  - vm_compute. right. left.
  - exists rd. by repeat split.
Defined.

(** X8. The releases returned are in the order of the sorted buckets, newest
    first, and no two of them are of the same bucket: their buckets are a
    sub-sequence of the sorted list, each bucket has a key that is at least
    the key of every bucket after it, and they are pairwise distinct. *)
Theorem X8_selected_releases_sorted :
  ∀ (re : string → string → bool) (w : World) releases_data project settings
    description releases,
    select_releases re w releases_data project settings description = Some releases →
    let buckets := map Release.major_minor releases in
    (∃ sorted,
        sorted_versions w (releases_by_minor releases_data) = Some sorted
        ∧ buckets `sublist_of` sorted)
    ∧ StronglySorted (version_ge w) buckets
    ∧ NoDup buckets.
Proof.
  intros re w releases_data project settings description releases Hsel buckets.
  apply select_releases_Some in Hsel as (sorted & Hsorted & ->).
  assert (Hsub : buckets `sublist_of` sorted).
  { unfold buckets. etrans; [apply build_releases_sublist|].
    unfold versions_to_keep. destruct (0 <? _); apply sublist_take. }
  pose proof Hsorted as (Hperm & Hdesc & _)%sorted_by_version_key_Some.
  split; [by exists sorted|]. split.
  - by eapply StronglySorted_sublist.
  - eapply sublist_NoDup; [|exact Hsub].
    rewrite Hperm, releases_by_minor_foldl. apply foldl_by_minor_NoDup. constructor.
Qed.

Lemma X8_selected_releases_sorted_witness :
  StronglySorted (version_ge superscript_world) ["2.0"; "1.10"; "1.9"]
  ∧ NoDup ["2.0"; "1.10"; "1.9"].
Proof.
  apply (X8_selected_releases_sorted no_pattern superscript_world five_buckets
           (demo_project 2) demo_settings "d" _ eq_refl).
Defined.

(** X26. The sort of the version buckets raises exactly when some bucket
    has a component that [str.isdigit] accepts and [int] refuses, and so
    never when every component of every bucket is ASCII and at most 4300
    characters long.  When it returns, the result is a permutation of the
    buckets in which every bucket has a key that is at least the key of
    every bucket after it; the key of a bucket without such a component is
    the list of its components, read in base ten where they are runs of
    digits and 0 elsewhere; and lists are compared component by component,
    the first difference deciding and a proper prefix being smaller. *)
Theorem X26_sorted_versions_descending :
  ∀ (w : World) (by_minor : list (string * ReleaseData.t)),
    (sorted_versions w by_minor = None
     ↔ ∃ bucket x, bucket ∈ by_minor.*1 ∧ x ∈ Str.split "."%char bucket
                   ∧ isdigit w x = true ∧ int w x = None)
    ∧ (Forall (λ bucket, Forall plain_component (Str.split "."%char bucket)) by_minor.*1 →
       is_Some (sorted_versions w by_minor))
    ∧ (∀ sorted, sorted_versions w by_minor = Some sorted →
         Permutation sorted by_minor.*1 ∧ StronglySorted (version_ge w) sorted)
    ∧ (∀ bucket, Forall plain_component (Str.split "."%char bucket) →
         version_key w bucket
         = Some (map (λ x, if Str.isdigit x then Str.int x else 0)
                     (Str.split "."%char bucket)))
    ∧ (∀ a b : list Z,
         list_ltb a b = true
         ↔ (∃ common x y a' b',
               a = common ++ x :: a' ∧ b = common ++ y :: b' ∧ x < y)
           ∨ (∃ y b', b = a ++ y :: b')).
Proof.
  intros w by_minor.
  assert (Hnone : sorted_versions w by_minor = None
     ↔ ∃ bucket x, bucket ∈ by_minor.*1 ∧ x ∈ Str.split "."%char bucket
                   ∧ isdigit w x = true ∧ int w x = None).
  { unfold sorted_versions. rewrite sorted_by_version_key_None. split.
    - intros (bucket & Hin & (x & Hx)%version_key_None). by exists bucket, x.
    - intros (bucket & x & Hin & Hx). exists bucket. split; [done|].
      apply version_key_None. by exists x. }
  split; [exact Hnone|]. split; [|split; [|split]].
  - intros Hplain. apply not_eq_None_Some. rewrite Hnone.
    intros (bucket & x & Hin & Hx & Hdigit & Hint).
    rewrite Forall_forall in Hplain. specialize (Hplain bucket Hin).
    rewrite Forall_forall in Hplain. destruct (Hplain x Hx) as [Hascii Hlen].
    unfold isdigit in Hdigit. rewrite Hascii in Hdigit.
    unfold int in Hint. rewrite Hdigit in Hint.
    by rewrite (proj2 (Nat.leb_le _ _) Hlen) in Hint.
  - intros sorted Hsorted.
    by apply sorted_by_version_key_Some in Hsorted as (? & ? & _).
  - apply version_key_plain.
  - apply list_ltb_spec.
Qed.

Lemma X26_sorted_versions_descending_witness :
  is_Some (sorted_versions superscript_world (releases_by_minor five_buckets))
  ∧ Permutation ["2.0"; "1.10"; "1.9"; "1.8"; "1.7"] (releases_by_minor five_buckets).*1
  ∧ StronglySorted (version_ge superscript_world) ["2.0"; "1.10"; "1.9"; "1.8"; "1.7"].
Proof.
  destruct (X26_sorted_versions_descending superscript_world
              (releases_by_minor five_buckets)) as (_ & Hsome & Hsorted & _).
  split.
  - apply Hsome. unfold plain_component. apply (bool_decide_unpack _). by vm_compute.
  - by apply Hsorted.
Defined.

(** X27. The number of releases returned for a project.  At most
    [keep_versions + 1] when [keep_versions] is positive, at most one
    otherwise.  When every bucket has a matching asset, the number is
    exactly the lesser of that bound and of the number of buckets, and with
    [keep_versions] 0 or less the single release is of a newest bucket: its
    key is at least the key of every bucket. *)
Theorem X27_release_count :
  ∀ (re : string → string → bool) (w : World) project settings releases,
    fetch_releases re w project settings = Some releases →
    ∃ releases_data,
      get_releases w (Project.repo project) = Some releases_data
      ∧ let keep := Project.keep_versions project in
        let by_minor := releases_by_minor releases_data in
        (0 < keep → Z.of_nat (length releases) ≤ keep + 1)
        ∧ (keep ≤ 0 → (length releases ≤ 1)%nat)
        ∧ (all_buckets_match re project settings by_minor →
           (0 < keep →
            length releases = Nat.min (Z.to_nat (keep + 1)) (length by_minor))
           ∧ (keep ≤ 0 → by_minor ≠ [] →
              ∃ newest, releases = [newest]
                ∧ ∀ bucket, bucket ∈ by_minor.*1 →
                    version_ge w (Release.major_minor newest) bucket)).
Proof.
  intros re w project settings releases Hfetch. unfold fetch_releases in Hfetch.
  destruct (get_releases w (Project.repo project)) as [releases_data|]; [|done].
  exists releases_data. split; [done|]. intros keep by_minor.
  pose proof (select_releases_length_le re w _ _ _ _ _ Hfetch) as Hle.
  fold keep in Hle.
  split; [|split].
  - intros Hpos. rewrite (proj2 (Z.ltb_lt _ _) Hpos) in Hle. lia.
  - intros Hnonpos. by rewrite (proj2 (Z.ltb_ge _ _) Hnonpos) in Hle.
  - intros Hall.
    destruct (select_releases_all_match re w _ _ _ _ _ Hall Hfetch)
      as (sorted & Hsorted & Hmm).
    fold by_minor in Hsorted.
    pose proof Hsorted as (Hperm & Hdesc & _)%sorted_by_version_key_Some.
    pose proof (Permutation_length Hperm) as Hlen. rewrite length_fmap in Hlen.
    apply (f_equal length) in Hmm as Hcount.
    rewrite length_map, versions_to_keep_length in Hcount. fold keep in Hcount.
    split.
    + intros Hpos. rewrite (proj2 (Z.ltb_lt _ _) Hpos) in Hcount. by rewrite <- Hlen.
    + intros Hnonpos Hne.
      unfold versions_to_keep in Hmm. fold keep in Hmm.
      rewrite (proj2 (Z.ltb_ge _ _) Hnonpos) in Hmm.
      destruct sorted as [|v0 rest]; [by destruct by_minor|].
      cbn [take] in Hmm.
      destruct releases as [|newest [|? ?]]; try discriminate.
      injection Hmm as Hmm. exists newest. split; [done|].
      intros bucket Hb. rewrite <- Hperm in Hb. rewrite Hmm.
      apply StronglySorted_inv in Hdesc as [Hrest Hall0].
      apply elem_of_cons in Hb as [->|Hb].
      * destruct rest as [|v1 rest'].
        -- assert (Hk : is_Some (version_key w v0)).
           { apply not_eq_None_Some. intros Hk.
             assert (Hraise : sorted_by_version_key w by_minor.*1 = None).
             { apply sorted_by_version_key_None. exists v0. split; [|done].
               rewrite <- Hperm. left. }
             unfold sorted_versions in Hsorted. congruence. }
           destruct Hk as [k Hk]. by eapply version_ge_refl.
        -- apply Forall_cons in Hall0 as [(k0 & _ & Hk0 & _) _].
           by eapply version_ge_refl.
      * rewrite Forall_forall in Hall0. by apply Hall0.
Qed.

Lemma X27_release_count_witness :
  let releases :=
    default [] (fetch_releases no_pattern demo_world (demo_project 2) demo_settings) in
  length releases = 3%nat.
Proof.
  intros releases.
  destruct (X27_release_count no_pattern demo_world (demo_project 2) demo_settings
              releases eq_refl) as (releases_data & Hget & _ & _ & Hexact).
  injection Hget as <-.
  destruct Hexact as [Hpos _].
  { apply all_buckets_match_Forall. vm_compute. repeat constructor; discriminate. }
  rewrite Hpos by reflexivity. reflexivity.
Defined.

(** X9. Every package of a returned release carries the name and the
    repository of the project, the version of its release and the resolved
    description; its file name ends in [.rpm], is not that of a source
    package, matches the pattern of the project when there is one, and its
    architecture is the one detected from the file name and is one of the
    configured architectures.  Its hash is still empty. *)
Theorem X9_selected_package_fields :
  ∀ (re : string → string → bool) (w : World) releases_data project settings description
    releases release pkg,
    select_releases re w releases_data project settings description = Some releases →
    release ∈ releases →
    pkg ∈ Release.packages release →
    RpmPackage.name pkg = Project.name project
    ∧ RpmPackage.project_repo pkg = Project.repo project
    ∧ RpmPackage.version pkg = Release.version release
    ∧ RpmPackage.summary pkg = description
    ∧ RpmPackage.sha256 pkg = ""
    ∧ Str.endswith ".rpm" (RpmPackage.filename pkg) = true
    ∧ Str.contains ".src.rpm" (RpmPackage.filename pkg) = false
    ∧ Str.contains ".srpm" (RpmPackage.filename pkg) = false
    ∧ (Project.asset_pattern project = ""
       ∨ re (Project.asset_pattern project) (RpmPackage.filename pkg) = true)
    ∧ detect_architecture (RpmPackage.filename pkg) = Some (RpmPackage.architecture pkg)
    ∧ RpmPackage.architecture pkg ∈ RepoSettings.architectures settings.
Proof.
  intros re w releases_data project settings description releases release pkg
    Hsel Hr Hpkg.
  apply select_releases_Some in Hsel as (sorted & _ & ->).
  apply build_releases_elem in Hr as (rd & _ & _ & _ & _ & Hpkgs & _).
  rewrite Hpkgs in Hpkg. apply elem_of_map in Hpkg as (asset & -> & Hasset).
  apply find_rpm_assets_elem in Hasset
    as (_ & Hrpm & Hsrc & Hsrpm & Hpat & Harch & Hallowed).
  by repeat split.
Qed.

Lemma X9_selected_package_fields_witness :
  detect_architecture "app-1.10.0.x86_64.rpm" = Some "x86_64"
  ∧ "x86_64" ∈ RepoSettings.architectures demo_settings.
Proof.
  pose proof (X9_selected_package_fields no_pattern two_forks_world five_buckets
                (demo_project 2) demo_settings "d" _
                (Release.mk "v1.10.0" "1.10.0" "1.10"
                   [package_of_asset (demo_project 2) "1.10.0" "d"
                      (RpmAsset.mk "app-1.10.0.x86_64.rpm"
                         "https://example.org/dl/app-1.10.0.x86_64.rpm" 1000 "x86_64")])
                (package_of_asset (demo_project 2) "1.10.0" "d"
                   (RpmAsset.mk "app-1.10.0.x86_64.rpm"
                      "https://example.org/dl/app-1.10.0.x86_64.rpm" 1000 "x86_64"))
                eq_refl)
    as H.
  destruct H as (_ & _ & _ & _ & _ & _ & _ & _ & _ & Harch & Hallowed).
  - vm_compute. right. left.
  - left.
  - split; [exact Harch | exact Hallowed].
Defined.


Lemma omap_nil {A B : Type} (f : A → option B) (l : list A) :
  (∀ x, x ∈ l → f x = None) → omap f l = [].
Proof.
  induction l as [|x l IH]; intros Hnone; [done|].
  cbn [omap list_omap]. rewrite (Hnone x) by left.
  apply IH. intros y Hy. apply Hnone. by right.
Qed.

(** X10. A project that has nothing to offer leaves the run as it is: when
    the provider call raises, or when no release of its list that is neither
    a pre-release nor a draft has a matching asset (an empty list included),
    the project adds no package and touches no file. *)
Theorem X10_project_without_packages :
  ∀ (re : string → string → bool) (w : World) settings args st project,
    (get_releases w (Project.repo project) = None
     ∨ ∃ releases_data,
         get_releases w (Project.repo project) = Some releases_data
         ∧ ∀ rd, rd ∈ releases_data → eligible rd = true →
             find_rpm_assets re rd project (RepoSettings.architectures settings) = []) →
    process_project re w settings args st project = st.
Proof.
  intros re w settings args st project [Hraise|(data & Hdata & Hnone)];
    unfold process_project, fetch_releases.
  - by rewrite Hraise.
  - rewrite Hdata.
    destruct (select_releases re w data project settings
                (resolve_description w project)) as [releases|] eqn:Hsel; [|done].
    apply select_releases_Some in Hsel as (sorted & _ & ->).
    assert (Hnil : build_releases re project settings (resolve_description w project)
                     (releases_by_minor data) (versions_to_keep project sorted) = []).
    { unfold build_releases. apply omap_nil. intros mm _.
      destruct (dict_get mm (releases_by_minor data)) as [rd|] eqn:Hget; [|done].
      apply dict_get_Some_elem_of in Hget. rewrite releases_by_minor_foldl in Hget.
      apply foldl_by_minor_entry in Hget as [Hget|(Hin & He & _)]; [inversion Hget|].
      by rewrite (Hnone rd Hin He). }
    by rewrite Hnil.
Qed.

Lemma X10_project_without_packages_witness :
  process_project no_pattern two_forks_world demo_settings default_args
                  (Run.mk shared_directory shared_manifest) acme_lib
  = Run.mk shared_directory shared_manifest.
Proof.
  apply X10_project_without_packages. left. reflexivity.
Defined.

(** ** The package loop *)

Section PackageLoop.

Variables (w : World) (settings : RepoSettings.t) (args : Args.t).

Implicit Types (d : Directory) (st : Run.t) (pkg : RpmPackage.t).

Lemma dict_get_elem_of_names {V : Type} k (dct : list (string * V)) v :
  dict_get k dct = Some v → k ∈ dct.*1.
Proof.
  intros H. apply dict_get_Some_elem_of in H.
  by apply (list_elem_of_fmap_2 fst) in H.
Qed.

Lemma write_file_fresh name content d :
  name ∉ d.*1 → write_file name content d = d ++ [(name, content)].
Proof.
  induction d as [|[n c] d IH]; simpl; intros Hn; [done|].
  rewrite not_elem_of_cons in Hn. destruct Hn as [Hne Hn].
  rewrite decide_False by done. by rewrite IH.
Qed.

Lemma write_file_last name content content' d :
  name ∉ d.*1 →
  write_file name content' (d ++ [(name, content)]) = d ++ [(name, content')].
Proof.
  induction d as [|[n c] d IH]; simpl; intros Hn.
  - by rewrite decide_True.
  - rewrite not_elem_of_cons in Hn. destruct Hn as [Hne Hn].
    rewrite decide_False by done. by rewrite IH.
Qed.

Lemma process_package_existing st pkg content :
  Args.dry_run args = false →
  dict_get (RpmPackage.filename pkg) (Run.packages_dir st) = Some content →
  process_package w settings args st pkg
  = Ok (Run.mk (Run.packages_dir st)
               (Run.new_packages st ++ [record_package w content pkg])).
Proof.
  intros Hdry Hget. unfold process_package, fetch_file, path_exists.
  rewrite Hdry. rewrite bool_decide_eq_true_2 by (by eapply dict_get_elem_of_names).
  cbn [negb]. rewrite andb_false_r, Hget. reflexivity.
Qed.

Lemma process_package_fresh st pkg content :
  Args.dry_run args = false →
  RpmPackage.filename pkg ∉ (Run.packages_dir st).*1 →
  download w (RpmPackage.url pkg) = Downloaded content →
  process_package w settings args st pkg
  = Ok (Run.mk (Run.packages_dir st
                ++ [(RpmPackage.filename pkg, signed_or_plain w settings args content)])
               (Run.new_packages st
                ++ [record_package w (signed_or_plain w settings args content) pkg])).
Proof.
  intros Hdry Hfresh Hdl. unfold process_package, fetch_file, path_exists.
  rewrite Hdry. rewrite bool_decide_eq_false_2 by done. cbn [negb].
  rewrite Hdl, andb_true_r, write_file_fresh by done.
  unfold signed_or_plain, sign_rpm_package.
  destruct (RepoSettings.sign_packages settings && truthy (Args.gpg_key args)).
  - rewrite dict_get_app_fresh by done.
    destruct (rpm_addsign w _ content) as [signed|]; cbn [fst].
    + rewrite write_file_last by done. by rewrite dict_get_app_fresh.
    + by rewrite dict_get_app_fresh.
  - by rewrite dict_get_app_fresh.
Qed.

(** Whatever a turn of the package loop does, the directory it leaves is the
    one it found followed by at most the file it fetched. *)
Lemma process_package_appends st pkg :
  ∃ added,
    Run.packages_dir (state_of (process_package w settings args st pkg))
    = Run.packages_dir st ++ added.
Proof.
  destruct (Args.dry_run args) eqn:Hdry.
  { exists []. unfold process_package. rewrite Hdry. by rewrite app_nil_r. }
  destruct (decide (RpmPackage.filename pkg ∈ (Run.packages_dir st).*1)) as [Hin|Hfresh].
  - apply dict_get_is_Some in Hin as [content Hget].
    rewrite (process_package_existing st pkg content Hdry Hget).
    exists []. by rewrite app_nil_r.
  - destruct (download w (RpmPackage.url pkg)) as [content| |partial] eqn:Hdl.
    + rewrite (process_package_fresh st pkg content Hdry Hfresh Hdl). by eexists.
    + unfold process_package, fetch_file, path_exists.
      rewrite Hdry, bool_decide_eq_false_2, Hdl by done.
      exists []. by rewrite app_nil_r.
    + unfold process_package, fetch_file, path_exists.
      rewrite Hdry, bool_decide_eq_false_2, Hdl by done.
      cbn [negb state_of Run.packages_dir]. rewrite write_file_fresh by done.
      by eexists.
Qed.

End PackageLoop.


Lemma record_package_fields (w : World) (content : string) (pkg : RpmPackage.t) :
  RpmPackage.sha256 (record_package w content pkg) = sha256_hexdigest w content
  ∧ RpmPackage.size (record_package w content pkg) = Z.of_nat (String.length content)
  ∧ RpmPackage.filename (record_package w content pkg) = RpmPackage.filename pkg
  ∧ RpmPackage.project_repo (record_package w content pkg) = RpmPackage.project_repo pkg
  ∧ RpmPackage.version (record_package w content pkg) = RpmPackage.version pkg
  ∧ RpmPackage.architecture (record_package w content pkg) = RpmPackage.architecture pkg
  ∧ RpmPackage.url (record_package w content pkg) = RpmPackage.url pkg.
Proof. unfold record_package. by destruct (extract_rpm_info w content). Qed.

(** X11. A package whose file is already in the packages directory is not
    downloaded and not signed, whatever the provider would answer: the
    directory stays as it is and the package is recorded with the hash and
    the size of the file that is there, and the fields that [rpm] reports
    about it. *)
Theorem X11_existing_file_is_reused :
  ∀ (w : World) settings args st pkg content,
    Args.dry_run args = false →
    dict_get (RpmPackage.filename pkg) (Run.packages_dir st) = Some content →
    process_package w settings args st pkg
    = Ok (Run.mk (Run.packages_dir st)
                 (Run.new_packages st ++ [record_package w content pkg]))
    ∧ RpmPackage.sha256 (record_package w content pkg) = sha256_hexdigest w content
    ∧ RpmPackage.size (record_package w content pkg) = Z.of_nat (String.length content).
Proof.
  intros w settings args st pkg content Hdry Hget.
  split; [by apply process_package_existing|].
  pose proof (record_package_fields w content pkg) as (Hsha & Hsize & _).
  by split.
Qed.

Lemma X11_existing_file_is_reused_witness :
  process_package flaky_world demo_settings signing_args
    (Run.mk [("app-1.0.x86_64.rpm", "old")] [])
    (app_package "acme/app" "An application")
  = Ok (Run.mk [("app-1.0.x86_64.rpm", "old")]
               [record_package flaky_world "old"
                               (app_package "acme/app" "An application")]).
Proof.
  apply (X11_existing_file_is_reused flaky_world demo_settings signing_args
           (Run.mk [("app-1.0.x86_64.rpm", "old")] [])
           (app_package "acme/app" "An application") "old"); reflexivity.
Defined.

(** X12. A package whose file is absent and whose download succeeds gets one
    new entry at the end of the packages directory; the content of that
    entry is the signed file when [sign_packages] is set, a key is given and
    [rpm] succeeds, and the downloaded file otherwise; and the hash and the
    size recorded are those of that final content, so they are taken after
    the signature. *)
Theorem X12_fresh_download_hashed_after_signing :
  ∀ (w : World) settings args st pkg content,
    Args.dry_run args = false →
    RpmPackage.filename pkg ∉ (Run.packages_dir st).*1 →
    download w (RpmPackage.url pkg) = Downloaded content →
    let final := signed_or_plain w settings args content in
    process_package w settings args st pkg
    = Ok (Run.mk (Run.packages_dir st ++ [(RpmPackage.filename pkg, final)])
                 (Run.new_packages st ++ [record_package w final pkg]))
    ∧ RpmPackage.sha256 (record_package w final pkg) = sha256_hexdigest w final
    ∧ RpmPackage.size (record_package w final pkg) = Z.of_nat (String.length final)
    ∧ (∀ signed,
         RepoSettings.sign_packages settings = true →
         truthy (Args.gpg_key args) = true →
         rpm_addsign w (default "" (Args.gpg_key args)) content = Some signed →
         final = signed)
    ∧ (RepoSettings.sign_packages settings = false ∨ truthy (Args.gpg_key args) = false →
       final = content).
Proof.
  intros w settings args st pkg content Hdry Hfresh Hdl final.
  split; [by apply process_package_fresh|].
  pose proof (record_package_fields w final pkg) as (Hsha & Hsize & _).
  split; [done|]. split; [done|]. unfold final, signed_or_plain. split.
  - intros signed -> -> Hsign. simpl. by rewrite Hsign.
  - intros [-> | ->]; [done|]. by rewrite andb_false_r.
Qed.

(** A world in which [rpm --addsign] works. *)
Lemma X12_fresh_download_hashed_after_signing_witness :
  let w := {| get_releases := get_releases two_forks_world;
              get_repo := get_repo two_forks_world;
              download _ := Downloaded "rpm";
              rpm_addsign key content := Some (content +:+ "+sig:" +:+ key);
              sha256_hexdigest content := "sha:" +:+ content;
              extract_rpm_info _ := None;
              now := now two_forks_world;
              isdigit_unicode := isdigit_unicode two_forks_world;
              int_unicode := int_unicode two_forks_world |} in
  process_package w demo_settings signing_args (Run.mk [] []) lib_package
  = Ok (Run.mk [("lib-2.1.x86_64.rpm", "rpm+sig:KEY")]
               [record_package w "rpm+sig:KEY" lib_package])
  ∧ RpmPackage.sha256 (record_package w "rpm+sig:KEY" lib_package) = "sha:rpm+sig:KEY".
Proof.
  intros w.
  destruct (X12_fresh_download_hashed_after_signing w demo_settings signing_args
              (Run.mk [] []) lib_package "rpm") as (Hrun & Hsha & _ & Hsigned & _).
  - reflexivity.
  - apply not_elem_of_nil.
  - reflexivity.
  - rewrite (Hsigned "rpm+sig:KEY" eq_refl eq_refl eq_refl) in Hrun, Hsha.
    split; [exact Hrun | exact Hsha].
Defined.

Section ProjectLoop.

Variable re : string → string → bool.
Variables (w : World) (settings : RepoSettings.t) (args : Args.t).

Lemma for_each_unchanged {A S : Type} (body : S → A → result S) (l : list A) (s : S) :
  (∀ s x, body s x = Ok s) → for_each body l s = Ok s.
Proof.
  intros Hbody. induction l as [|x l IH]; [done|]. simpl. by rewrite Hbody.
Qed.

Lemma process_project_dry_run st project :
  Args.dry_run args = true → process_project re w settings args st project = st.
Proof.
  intros Hdry. unfold process_project.
  destruct (fetch_releases re w project settings) as [[|r releases]|]; try done.
  rewrite process_releases_concat, for_each_unchanged; [done|].
  intros s x. unfold process_package. by rewrite Hdry.
Qed.

Lemma process_project_appends st project :
  ∃ added,
    Run.packages_dir (process_project re w settings args st project)
    = Run.packages_dir st ++ added.
Proof.
  unfold process_project.
  destruct (fetch_releases re w project settings) as [[|r releases]|];
    try (exists []; by rewrite app_nil_r).
  rewrite process_releases_concat.
  apply (for_each_invariant
           (λ s, ∃ added, Run.packages_dir s = Run.packages_dir st ++ added)
           (λ _, True)).
  - intros s pkg _ [added Hs].
    destruct (process_package_appends w settings args s pkg) as [added' Hs'].
    exists (added ++ added'). by rewrite Hs', Hs, app_assoc.
  - by apply Forall_forall.
  - exists []. by rewrite app_nil_r.
Qed.

Lemma process_projects_appends st projects :
  ∃ added,
    Run.packages_dir (foldl (process_project re w settings args) st projects)
    = Run.packages_dir st ++ added.
Proof.
  revert st. induction projects as [|p projects IH]; intros st.
  - exists []. by rewrite app_nil_r.
  - simpl. destruct (IH (process_project re w settings args st p)) as [added Heq].
    destruct (process_project_appends st p) as [added' Heq'].
    exists (added' ++ added). by rewrite Heq, Heq', app_assoc.
Qed.

End ProjectLoop.

(** X13. The project loop only adds entries at the end of the packages
    directory: every entry that was there when the loop started is still
    there afterwards, at its place and with its content, whatever succeeds
    or fails in between. *)
Theorem X13_project_loop_appends_only :
  ∀ (re : string → string → bool) (w : World) settings args st projects,
    ∃ added,
      Run.packages_dir (foldl (process_project re w settings args) st projects)
      = Run.packages_dir st ++ added.
Proof.
  intros re w settings args st projects. revert st.
  induction projects as [|p projects IH]; intros st.
  - exists []. by rewrite app_nil_r.
  - simpl. destruct (IH (process_project re w settings args st p)) as [added Heq].
    destruct (process_project_appends re w settings args st p) as [added' Heq'].
    exists (added' ++ added). by rewrite Heq, Heq', app_assoc.
Qed.

(** X14. In a dry run the project loop has no effect: for every world and
    every list of projects, no file is written and no package is collected. *)
Theorem X14_dry_run_changes_nothing :
  ∀ (re : string → string → bool) (w : World) settings args st projects,
    Args.dry_run args = true →
    foldl (process_project re w settings args) st projects = st.
Proof.
  intros re w settings args st projects Hdry.
  induction projects as [|p projects IH]; [done|].
  simpl. by rewrite process_project_dry_run.
Qed.

Lemma X14_dry_run_changes_nothing_witness :
  foldl (process_project no_pattern two_forks_world demo_settings
                         (Args.mk None false true None false))
        (Run.mk shared_directory []) [acme_app; fork_app]
  = Run.mk shared_directory [].
Proof. apply X14_dry_run_changes_nothing. reflexivity. Defined.


(** ** The run as a whole *)

Section Ownership.

Variable re : string → string → bool.
Variables (w : World) (settings : RepoSettings.t) (args : Args.t).
Variable owners : gset string.

Lemma process_package_owned st pkg :
  RpmPackage.project_repo pkg ∈ owners → owned_by owners st →
  owned_by owners (state_of (process_package w settings args st pkg)).
Proof.
  intros Hpkg Hst.
  assert (Hadd : ∀ content,
            owned_by owners (Run.mk (Run.packages_dir st)
                             (Run.new_packages st ++ [record_package w content pkg]))).
  { intros content p Hp. simpl in Hp. apply elem_of_app in Hp as [Hp|Hp]; [auto|].
    apply list_elem_of_singleton in Hp as ->.
    pose proof (record_package_fields w content pkg) as (_ & _ & _ & -> & _). done. }
  destruct (Args.dry_run args) eqn:Hdry.
  { unfold process_package. by rewrite Hdry. }
  destruct (decide (RpmPackage.filename pkg ∈ (Run.packages_dir st).*1)) as [Hin|Hfresh].
  - apply dict_get_is_Some in Hin as [content Hget].
    rewrite (process_package_existing w settings args st pkg content Hdry Hget).
    apply Hadd.
  - destruct (download w (RpmPackage.url pkg)) as [content| |partial] eqn:Hdl.
    + rewrite (process_package_fresh w settings args st pkg content Hdry Hfresh Hdl).
      intros p Hp. apply (Hadd (signed_or_plain w settings args content) p), Hp.
    + unfold process_package, fetch_file, path_exists.
      by rewrite Hdry, bool_decide_eq_false_2, Hdl by done.
    + unfold process_package, fetch_file, path_exists.
      by rewrite Hdry, bool_decide_eq_false_2, Hdl by done.
Qed.

Lemma process_project_owned st project :
  Project.repo project ∈ owners → owned_by owners st →
  owned_by owners (process_project re w settings args st project).
Proof.
  intros Hrepo Hst. unfold process_project.
  destruct (fetch_releases re w project settings) as [releases|] eqn:Hfetch; [|done].
  destruct releases as [|r releases]; [done|].
  rewrite process_releases_concat.
  apply (for_each_invariant (owned_by owners) (λ pkg, RpmPackage.project_repo pkg ∈ owners));
    [| |done].
  - intros s pkg Hpkg Hs. by apply process_package_owned.
  - unfold fetch_releases in Hfetch.
    destruct (get_releases w _) as [releases_data|]; [|done].
    apply select_releases_Some in Hfetch as (sorted & _ & Hfetch).
    apply Forall_concat_map. intros release pkg Hr Hp.
    rewrite Hfetch in Hr.
    apply build_releases_elem in Hr as (rd & _ & _ & _ & _ & Hpkgs & _).
    rewrite Hpkgs in Hp. by apply elem_of_map in Hp as (asset & -> & _).
Qed.

Lemma process_projects_owned st projects :
  (∀ project, project ∈ projects → Project.repo project ∈ owners) → owned_by owners st →
  owned_by owners (foldl (process_project re w settings args) st projects).
Proof.
  revert st. induction projects as [|p projects IH]; intros st Hrepos Hst; [done|].
  simpl. apply IH.
  - intros project Hin. apply Hrepos. by right.
  - apply process_project_owned; [apply Hrepos; left | done].
Qed.

End Ownership.


Lemma main_Generated_inv (re : string → string → bool) (w : World) settings
    all_projects args out out' all_packages removed :
  main re w settings all_projects args out = Generated out' all_packages removed →
  ∃ projects,
    projects_to_process args all_projects = Some projects
    ∧ Args.dry_run args = false
    ∧ let st := foldl (process_project re w settings args)
                      (Run.mk (mkdir (Output.packages_dir out)) []) projects in
      let updated : gset string := list_to_set (map Project.repo projects) in
      all_packages
      = preserved_packages (load_manifest (Output.manifest_file out)) updated
        ++ Run.new_packages st
      ∧ Output.packages_dir out'
        = Some (filter (λ e, ¬ stale all_packages e.1) (Run.packages_dir st))
      ∧ Output.manifest_file out' = Some (Manifest.mk all_packages (now w)).
Proof.
  unfold main. destruct (Args.list args); [done|].
  destruct (projects_to_process args all_projects) as [projects|]; [|done].
  destruct (Args.dry_run args); [done|].
  unfold reconcile. rewrite cleanup_old_packages_spec.
  intros [= <- <- <-]. exists projects. by repeat split.
Qed.

(** X15. A run never touches the records of the projects that it does not
    process: in the manifest that it writes, the packages owned by other
    projects are exactly those of the manifest that it read, in the same
    order, and every other package is owned by a processed project. *)
Theorem X15_other_projects_records_kept :
  ∀ (re : string → string → bool) (w : World) settings all_projects args out
    out' all_packages removed,
    main re w settings all_projects args out = Generated out' all_packages removed →
    ∃ projects,
      projects_to_process args all_projects = Some projects
      ∧ Output.manifest_file out' = Some (Manifest.mk all_packages (now w))
      ∧ filter (λ pkg, RpmPackage.project_repo pkg ∉ map Project.repo projects)
               all_packages
        = filter (λ pkg, RpmPackage.project_repo pkg ∉ map Project.repo projects)
                 (load_manifest (Output.manifest_file out))
      ∧ ∀ pkg, pkg ∈ all_packages →
          pkg ∈ load_manifest (Output.manifest_file out)
          ∨ RpmPackage.project_repo pkg ∈ map Project.repo projects.
Proof.
  intros re w settings all_projects args out out' all_packages removed Hmain.
  apply main_Generated_inv in Hmain as (projects & Hprojects & Hdry & Hall & _ & Hman).
  exists projects. split; [done|]. split; [done|].
  set (updated := list_to_set (map Project.repo projects) : gset string) in *.
  set (existing := load_manifest (Output.manifest_file out)) in *.
  assert (Hnew : owned_by updated
            (foldl (process_project re w settings args)
                   (Run.mk (mkdir (Output.packages_dir out)) []) projects)).
  { apply process_projects_owned.
    - intros project Hin. apply elem_of_list_to_set, elem_of_map. by exists project.
    - intros pkg Hin. inversion Hin. }
  assert (Hpres : preserved_packages existing updated
                  = filter (λ pkg, RpmPackage.project_repo pkg ∉ map Project.repo projects)
                           existing).
  { apply filter_ext_in. intros pkg _. unfold updated.
    by rewrite elem_of_list_to_set. }
  split.
  - rewrite Hall, filter_app, Hpres, list_filter_filter.
    rewrite (filter_none _ (Run.new_packages _)).
    + rewrite app_nil_r. apply filter_ext_in. tauto.
    + intros pkg Hin Hnot. apply Hnot. apply Hnew in Hin.
      by apply elem_of_list_to_set in Hin.
  - intros pkg Hin. rewrite Hall in Hin. apply elem_of_app in Hin as [Hin|Hin].
    + left. by apply list_elem_of_filter in Hin as [_ Hin].
    + right. apply Hnew in Hin. by apply elem_of_list_to_set in Hin.
Qed.

Lemma X15_other_projects_records_kept_witness :
  ∃ projects,
    projects_to_process default_args [acme_app] = Some projects
    ∧ filter (λ pkg, RpmPackage.project_repo pkg ∉ map Project.repo projects)
             [lib_package; app_package "acme/app" "An application"]
      = filter (λ pkg, RpmPackage.project_repo pkg ∉ map Project.repo projects)
               [lib_package].
Proof.
  destruct (X15_other_projects_records_kept no_pattern two_forks_world demo_settings
              [acme_app] default_args _ _ _ _ preserved_run)
    as (projects & Hprojects & _ & Hfilter & _).
  exists projects. split; [exact Hprojects | exact Hfilter].
Defined.

(** X16. The exit status of [main] is 1 exactly when it is not asked to list,
    a project is requested with [--project], and no configured project has
    the requested text as its name or as its repository; in every other case
    it is 0, also when projects or packages fail. *)
Theorem X16_exit_status :
  ∀ (re : string → string → bool) (w : World) settings all_projects args out,
    (exit_status (main re w settings all_projects args out) = 1
     ↔ Args.list args = false
       ∧ truthy (Args.project args) = true
       ∧ ∀ p, p ∈ all_projects →
           Some (Project.name p) ≠ Args.project args
           ∧ Some (Project.repo p) ≠ Args.project args)
    ∧ (exit_status (main re w settings all_projects args out) = 0
       ∨ exit_status (main re w settings all_projects args out) = 1).
Proof.
  intros re w settings all_projects args out.
  assert (Hnone : projects_to_process args all_projects = None
     ↔ truthy (Args.project args) = true
       ∧ ∀ p, p ∈ all_projects →
           Some (Project.name p) ≠ Args.project args
           ∧ Some (Project.repo p) ≠ Args.project args).
  { unfold projects_to_process. destruct (truthy (Args.project args)).
    - destruct (filter _ all_projects) as [|p0 l] eqn:Hfilter.
      + split; [|done]. intros _. split; [done|]. intros p Hp.
        pose proof (filter_nil_not_elem_of _ _ p Hfilter) as Hnot.
        split; intros Heq; (apply Hnot; [|done]); [by left | by right].
      + split; [done|]. intros [_ Hno].
        assert (Hp0 : p0 ∈ filter (λ p, Some (Project.name p) = Args.project args
                                    ∨ Some (Project.repo p) = Args.project args)
                                  all_projects) by (rewrite Hfilter; left).
        apply list_elem_of_filter in Hp0 as [Hmatch Hin].
        destruct (Hno p0 Hin). tauto.
    - split; [done|]. by intros [? _]. }
  unfold main. destruct (Args.list args).
  { split; [|by left]. simpl. split; [done|]. by intros [? _]. }
  destruct (projects_to_process args all_projects) as [projects|].
  - assert (Hcontra : ¬ (truthy (Args.project args) = true
                        ∧ ∀ p, p ∈ all_projects →
                            Some (Project.name p) ≠ Args.project args
                            ∧ Some (Project.repo p) ≠ Args.project args)).
    { intros Hno. assert (Some projects = None) by (by apply Hnone). done. }
    destruct (Args.dry_run args);
      [|destruct (reconcile _ _ _ _) as [? [? ?]]];
      (split; [|by left]); (split; [done|]); intros (_ & H); by destruct Hcontra.
  - split; [|by right]. simpl. split; [|done]. intros _. split; [done|].
    by apply Hnone.
Qed.


(** A file that the clean-up keeps is found as before. *)
Lemma dict_get_cleanup (all_packages : list RpmPackage.t) (name : string)
    (d : Directory) :
  ¬ stale all_packages name →
  dict_get name (filter (λ e, ¬ stale all_packages e.1) d) = dict_get name d.
Proof.
  intros Hkeep. induction d as [|[n c] d IH]; [done|].
  rewrite filter_cons. simpl.
  destruct (decide (¬ stale all_packages n)) as [Hn|Hn]; simpl.
  - by rewrite IH.
  - rewrite decide_False by (intros ->; done). exact IH.
Qed.

(** X17. Cleaning up twice is cleaning up once: after a clean-up against a
    list of packages, a second clean-up against the same list removes
    nothing and leaves the directory as it is. *)
Theorem X17_cleanup_idempotent :
  ∀ (d : Directory) (all_packages : list RpmPackage.t),
    ∃ d' removed,
      cleanup_old_packages (Some d) all_packages = (Some d', removed)
      ∧ cleanup_old_packages (Some d') all_packages = (Some d', []).
Proof.
  intros d all_packages. eexists _, _. split; [apply cleanup_old_packages_spec|].
  rewrite cleanup_old_packages_spec. f_equal; [f_equal|].
  - apply filter_all. intros e He. by apply list_elem_of_filter in He as [He _].
  - apply filter_none. intros n Hn Hstale.
    apply list_elem_of_fmap in Hn as ([n' c] & -> & Hn).
    by apply list_elem_of_filter in Hn as [Hn _].
Qed.

(** X18. A run never rewrites a file that it found: when a package of the
    manifest that the run writes has a file that was in the packages
    directory at the start, that file is in the directory at the end with
    the content it had, neither downloaded again nor signed again nor
    removed. *)
Theorem X18_existing_files_untouched :
  ∀ (re : string → string → bool) (w : World) settings all_projects args out
    out' all_packages removed pkg content,
    main re w settings all_projects args out = Generated out' all_packages removed →
    pkg ∈ all_packages →
    dict_get (RpmPackage.filename pkg) (mkdir (Output.packages_dir out)) = Some content →
    ∃ d', Output.packages_dir out' = Some d'
          ∧ dict_get (RpmPackage.filename pkg) d' = Some content.
Proof.
  intros re w settings all_projects args out out' all_packages removed pkg content
         Hmain Hpkg Hget.
  apply main_Generated_inv in Hmain as (projects & _ & _ & Hrun).
  cbv zeta in Hrun. destruct Hrun as (_ & Hdir & _).
  eexists. split; [exact Hdir|].
  destruct (process_projects_appends re w settings args
              (Run.mk (mkdir (Output.packages_dir out)) []) projects) as [added Heq].
  rewrite Heq. cbn [Run.packages_dir].
  rewrite dict_get_cleanup.
  - by apply dict_get_app_l.
  - intros [_ Hnot]. apply Hnot. apply elem_of_map. by exists pkg.
Qed.


Lemma X18_existing_files_untouched_witness :
  ∃ d', Some [("lib-2.1.x86_64.rpm", "rpm"); ("app-1.0.x86_64.rpm", "rpm")] = Some d'
        ∧ dict_get (RpmPackage.filename lib_package) d' = Some "rpm".
Proof.
  apply (X18_existing_files_untouched no_pattern two_forks_world demo_settings
           [acme_app] default_args _ _ _ _ lib_package "rpm" preserved_run).
  - left.
  - reflexivity.
Defined.

(** ** The query of a package file *)

Lemma universal_newlines_app (f rest : string) :
  has_no CR f →
  universal_newlines (f +:+ String LF rest) = f +:+ String LF (universal_newlines rest).
Proof.
  induction f as [|c f IH].
  - intros _. reflexivity.
  - rewrite (has_no_String CR). intros [Hc Hf]. rewrite !app_String.
    cbn [universal_newlines]. fold CR.
    rewrite bool_decide_eq_false_2 by done. by rewrite IH.
Qed.

Lemma universal_newlines_id (s : string) : has_no CR s → universal_newlines s = s.
Proof.
  induction s as [|c s IH]; [done|].
  rewrite (has_no_String CR). intros [Hc Hs].
  cbn [universal_newlines]. fold CR.
  rewrite bool_decide_eq_false_2 by done. by rewrite IH.
Qed.

Lemma universal_newlines_no_CR (s : string) : has_no CR (universal_newlines s).
Proof.
  assert (H : has_no CR (universal_newlines s)
              ∧ ∀ c s', s = String c s' → has_no CR (universal_newlines s')).
  { induction s as [|c s [IH1 IH2]]; [split; [apply has_no_empty | done]|].
    split; [|by intros ? ? [= _ <-]].
    cbn [universal_newlines]. case_bool_decide as Hc.
    - destruct s as [|c' s']; [by apply has_no_String; split; [|apply has_no_empty]|].
      case_bool_decide; apply has_no_String; (split; [done|]); [by eapply IH2 | done].
    - apply has_no_String. split; [|done]. intros <-. by apply Hc. }
  apply H.
Qed.

(** X19. When [rpm] ends with status 0 and prints seven fields free of line
    feeds and carriage returns, one per line, followed by the description,
    [extract_rpm_info] gives the seven fields back, each [(none)] replaced
    by the empty string, and the description with its line ends made line
    feeds by the text mode of [subprocess.run]: no carriage return is left
    in it, and a description printed without one comes back as printed,
    line feeds included and [(none)] left as it is. *)
Theorem X19_parse_rpm_query_fields :
  ∀ f0 f1 f2 f3 f4 f5 f6 description : string,
    Forall (λ f, has_no LF f ∧ has_no CR f) [f0; f1; f2; f3; f4; f5; f6] →
    parse_rpm_query
      (rpm_query_of 0 (join_with (String LF "")
                                 [f0; f1; f2; f3; f4; f5; f6; description]))
    = Some (RpmInfo.mk (none_to_empty f0) (none_to_empty f1) (none_to_empty f2)
                       (none_to_empty f3) (none_to_empty f4) (none_to_empty f5)
                       (none_to_empty f6) (universal_newlines description))
    ∧ has_no CR (universal_newlines description)
    ∧ (has_no CR description → universal_newlines description = description).
Proof.
  intros f0 f1 f2 f3 f4 f5 f6 description Hall.
  split; [|split; [apply universal_newlines_no_CR | apply universal_newlines_id]].
  repeat (apply Forall_cons in Hall as [[? ?] Hall]).
  unfold rpm_query_of, parse_rpm_query. rewrite bool_decide_eq_true_2 by done.
  change (join_with (String LF "") [f0; f1; f2; f3; f4; f5; f6; description])
    with (f0 +:+ String LF (f1 +:+ String LF (f2 +:+ String LF (f3 +:+ String LF
           (f4 +:+ String LF (f5 +:+ String LF (f6 +:+ String LF description))))))).
  rewrite !universal_newlines_app by done.
  fold LF. rewrite !split_app_sep by done.
  pose proof (join_split LF (universal_newlines description)) as Hjoin.
  pose proof (split_nonempty LF (universal_newlines description)) as Hne.
  destruct (Str.split LF (universal_newlines description)) as [|l ls]; [done|].
  by rewrite Hjoin.
Qed.

Lemma X19_parse_rpm_query_fields_witness :
  let description :=
    "An application." +:+ String CR (String LF (String CR "Second paragraph.")) in
  parse_rpm_query
    (rpm_query_of 0
       (join_with (String LF "")
          ["app"; "1.0"; "1"; "(none)"; "MIT"; "Acme"; "https://acme.example.org";
           description]))
  = Some (RpmInfo.mk "app" "1.0" "1" "" "MIT" "Acme" "https://acme.example.org"
                     "An application.

Second paragraph.").
Proof.
  intros description.
  apply (X19_parse_rpm_query_fields "app" "1.0" "1" "(none)" "MIT" "Acme"
           "https://acme.example.org" description).
  repeat constructor; literal_has_no.
Defined.

(** X20. [extract_rpm_info] gives the empty dictionary, and so leaves the
    package record as it is, when the query raises, when [rpm] ends with
    another status than 0, and when it prints fewer than seven lines. *)
Theorem X20_parse_rpm_query_empty :
  parse_rpm_query QueryRaises = None
  ∧ (∀ returncode stdout,
       returncode ≠ 0 → parse_rpm_query (QueryExited returncode stdout) = None)
  ∧ (∀ returncode stdout,
       (length (Str.split LF stdout) < 7)%nat →
       parse_rpm_query (QueryExited returncode stdout) = None)
  ∧ (∀ returncode stdout,
       parse_rpm_query (QueryExited returncode stdout) = None
       ↔ returncode ≠ 0 ∨ (length (Str.split LF stdout) < 7)%nat).
Proof.
  assert (Hiff : ∀ returncode stdout,
            parse_rpm_query (QueryExited returncode stdout) = None
            ↔ returncode ≠ 0 ∨ (length (Str.split LF stdout) < 7)%nat).
  { intros returncode stdout. unfold parse_rpm_query. fold LF.
    case_bool_decide as Hrc; [|by split; [left|]].
    destruct (Str.split LF stdout) as [|l0 [|l1 [|l2 [|l3 [|l4 [|l5 [|l6 rest]]]]]]];
      simpl; try (split; [intros _; right; lia | done]).
    split; [done|]. intros [?|?]; [done | lia]. }
  split; [done|]. split; [|split; [|exact Hiff]].
  - intros returncode stdout Hrc. apply Hiff. by left.
  - intros returncode stdout Hlen. apply Hiff. by right.
Qed.

Lemma X20_parse_rpm_query_empty_witness :
  parse_rpm_query (QueryExited 1 "error: open failed") = None
  ∧ parse_rpm_query (QueryExited 0 "app
1.0") = None.
Proof.
  destruct X20_parse_rpm_query_empty as (_ & Hrc & Hlen & _).
  split; [by apply Hrc | apply Hlen; simpl; lia].
Defined.

(** ** The macros file of the home directory *)

(** X21. Signing a package leaves [.rpmmacros] as it found it, whether [rpm]
    succeeds, fails or cannot be run: a file that was there has its content
    back and the backup is gone, and when there was none the file written for
    the signature is removed and any other file is left alone.  The value
    returned is true exactly when [rpm] ends with status 0. *)
Theorem X21_sign_restores_rpmmacros :
  ∀ (gpg_key : option string) (rpm : RpmSign) (home : Home.t),
    let '(home', signed) := sign_rpm_package_macros gpg_key rpm home in
    Home.rpmmacros home' = Home.rpmmacros home
    ∧ Home.backup home'
      = (if bool_decide (is_Some (Home.rpmmacros home)) then None else Home.backup home)
    ∧ (signed = true ↔ rpm = SignExited 0).
Proof.
  intros gpg_key rpm [[macros|] backup]; unfold sign_rpm_package_macros; simpl.
  - repeat split; try done.
    + destruct rpm as [rc|]; [|done]. intros Hrc.
      apply bool_decide_eq_true in Hrc. by subst.
    + intros ->. done.
  - repeat split; try done.
    + destruct rpm as [rc|]; [|done]. intros Hrc.
      apply bool_decide_eq_true in Hrc. by subst.
    + intros ->. done.
Qed.

Example macros_content_ex :
  Str.lines (macros_content (Some "KEY"))
  = [ "%_gpg_name KEY";
      "%__gpg_sign_cmd %{__gpg} gpg --batch --no-armor --no-secmem-warning -u "
        +:+ dquote +:+ "%{_gpg_name}" +:+ dquote
        +:+ " -sbo %{__signature_filename} %{__plaintext_filename}";
      "" ]
  ∧ macros_content None = macros_content (Some "").
Proof. split; reflexivity. Qed.


(** ** Hashes in the manifest *)

Section Hashes.

Variable re : string → string → bool.
Variables (w : World) (settings : RepoSettings.t) (args : Args.t).

Lemma hashes_match_append st added pkg content :
  hashes_match w st →
  dict_get (RpmPackage.filename pkg) (Run.packages_dir st ++ added) = Some content →
  hashes_match w (Run.mk (Run.packages_dir st ++ added)
                         (Run.new_packages st ++ [record_package w content pkg])).
Proof.
  intros Hst Hget p Hp. cbn [Run.new_packages Run.packages_dir] in *.
  apply elem_of_app in Hp as [Hp|Hp].
  - destruct (Hst p Hp) as (c & Hc & Hsha & Hsize).
    exists c. split; [by apply dict_get_app_l | done].
  - apply list_elem_of_singleton in Hp as ->.
    pose proof (record_package_fields w content pkg) as (Hsha & Hsize & Hname & _).
    exists content. by rewrite Hname.
Qed.

Lemma hashes_match_grow st added :
  hashes_match w st →
  hashes_match w (Run.mk (Run.packages_dir st ++ added) (Run.new_packages st)).
Proof.
  intros Hst p Hp. destruct (Hst p Hp) as (c & Hc & Hrest).
  exists c. split; [by apply dict_get_app_l | done].
Qed.

Lemma process_package_hashes st pkg :
  hashes_match w st → hashes_match w (state_of (process_package w settings args st pkg)).
Proof.
  intros Hst. destruct (Args.dry_run args) eqn:Hdry.
  { unfold process_package. by rewrite Hdry. }
  destruct (decide (RpmPackage.filename pkg ∈ (Run.packages_dir st).*1)) as [Hin|Hfresh].
  - apply dict_get_is_Some in Hin as [content Hget].
    rewrite (process_package_existing w settings args st pkg content Hdry Hget).
    pose proof (hashes_match_append st [] pkg content Hst) as H.
    rewrite app_nil_r in H. by apply H.
  - destruct (download w (RpmPackage.url pkg)) as [content| |partial] eqn:Hdl.
    + rewrite (process_package_fresh w settings args st pkg content Hdry Hfresh Hdl).
      apply hashes_match_append; [done|]. by apply dict_get_app_fresh.
    + unfold process_package, fetch_file, path_exists.
      rewrite Hdry, bool_decide_eq_false_2, Hdl by done. by destruct st.
    + unfold process_package, fetch_file, path_exists.
      rewrite Hdry, bool_decide_eq_false_2, Hdl by done.
      cbn [negb state_of]. rewrite write_file_fresh by done.
      by apply hashes_match_grow.
Qed.

Lemma process_projects_hashes st projects :
  hashes_match w st →
  hashes_match w (foldl (process_project re w settings args) st projects).
Proof.
  revert st. induction projects as [|p projects IH]; intros st Hst; [done|].
  simpl. apply IH. unfold process_project.
  destruct (fetch_releases re w p settings) as [[|r releases]|]; try done.
  rewrite process_releases_concat.
  apply (for_each_invariant (hashes_match w) (λ _, True)); [|by apply Forall_forall|done].
  intros s pkg _ Hs. by apply process_package_hashes.
Qed.

End Hashes.

(** X22. In the manifest that a run writes, every package collected by that
    run has its file in the packages directory that the run leaves, and the
    hash and the size recorded for it are those of that file; the packages
    before them in the manifest are the preserved ones. *)
Theorem X22_manifest_hashes_match_files :
  ∀ (re : string → string → bool) (w : World) settings all_projects args out
    out' all_packages removed,
    main re w settings all_projects args out = Generated out' all_packages removed →
    ∃ d' projects new_packages,
      Output.packages_dir out' = Some d'
      ∧ projects_to_process args all_projects = Some projects
      ∧ all_packages
        = preserved_packages (load_manifest (Output.manifest_file out))
                             (list_to_set (map Project.repo projects))
          ++ new_packages
      ∧ ∀ pkg, pkg ∈ new_packages →
          ∃ content,
            dict_get (RpmPackage.filename pkg) d' = Some content
            ∧ RpmPackage.sha256 pkg = sha256_hexdigest w content
            ∧ RpmPackage.size pkg = Z.of_nat (String.length content).
Proof.
  intros re w settings all_projects args out out' all_packages removed Hmain.
  apply main_Generated_inv in Hmain as (projects & Hprojects & _ & Hrun).
  cbv zeta in Hrun. destruct Hrun as (Hall & Hdir & _).
  eexists _, projects, _. split; [exact Hdir|]. split; [done|]. split; [exact Hall|].
  intros pkg Hpkg.
  destruct (process_projects_hashes re w settings args
              (Run.mk (mkdir (Output.packages_dir out)) []) projects) with (pkg := pkg)
    as (content & Hget & Hsha & Hsize); [|done|].
  { intros p Hp. inversion Hp. }
  exists content. split; [|done].
  rewrite dict_get_cleanup; [done|].
  intros [_ Hnot]. apply Hnot. rewrite Hall. apply elem_of_map. exists pkg.
  split; [done|]. apply elem_of_app. by right.
Qed.

Lemma X22_manifest_hashes_match_files_witness :
  ∃ d' projects new_packages,
    Some [("lib-2.1.x86_64.rpm", "rpm"); ("app-1.0.x86_64.rpm", "rpm")] = Some d'
    ∧ projects_to_process default_args [acme_app] = Some projects
    ∧ [lib_package; app_package "acme/app" "An application"]
      = preserved_packages [lib_package] (list_to_set (map Project.repo projects))
        ++ new_packages
    ∧ ∀ pkg, pkg ∈ new_packages →
        ∃ content,
          dict_get (RpmPackage.filename pkg) d' = Some content
          ∧ RpmPackage.sha256 pkg = sha256_hexdigest two_forks_world content
          ∧ RpmPackage.size pkg = Z.of_nat (String.length content).
Proof.
  exact (X22_manifest_hashes_match_files no_pattern two_forks_world demo_settings
           [acme_app] default_args _ _ _ _ preserved_run).
Defined.

(** ** Projects *)






(** ** Asset matcher and description *)

Lemma omap_sublist {A B C : Type} (f : A → option B) (g : B → C) (h : A → C)
    (l : list A) :
  (∀ a b, f a = Some b → g b = h a) → map g (omap f l) `sublist_of` map h l.
Proof.
  intros Hfg. induction l as [|a l IH]; [constructor|].
  cbn [omap list_omap map]. destruct (f a) as [b|] eqn:Hfa.
  - cbn [map]. rewrite (Hfg a b Hfa). by constructor.
  - by constructor.
Qed.

(** X24. The asset matcher returns assets of the release in the order in
    which the release lists them, each with its own URL and size; and when
    the project has no [asset_pattern] the regular-expression search is not
    consulted. *)
Theorem X24_find_rpm_assets_order :
  ∀ (re re' : string → string → bool) release_data project architectures,
    map (λ asset, (RpmAsset.name asset, RpmAsset.url asset, RpmAsset.size asset))
        (find_rpm_assets re release_data project architectures)
    `sublist_of`
    map (λ a, (Asset.name a, Asset.browser_download_url a, Asset.size a))
        (ReleaseData.assets release_data)
    ∧ (Project.asset_pattern project = "" →
       find_rpm_assets re release_data project architectures
       = find_rpm_assets re' release_data project architectures).
Proof.
  intros re re' release_data project architectures. unfold find_rpm_assets. split.
  - apply omap_sublist. intros a asset Ha.
    destruct (negb (Str.endswith ".rpm" (Asset.name a))); [done|].
    destruct (Str.contains ".src.rpm" (Asset.name a) || _); [done|].
    destruct (negb (bool_decide (Project.asset_pattern project = "")) && _); [done|].
    destruct (detect_architecture (Asset.name a)); [|done].
    destruct (bool_decide (_ ∈ architectures)); [|done].
    by injection Ha as <-.
  - intros ->. done.
Qed.

Lemma X24_find_rpm_assets_order_witness :
  find_rpm_assets (λ _ _, true) (demo_release "v1.0.0" "app-1.0.x86_64.rpm")
                  (demo_project 0) ["x86_64"]
  = find_rpm_assets (λ _ _, false) (demo_release "v1.0.0" "app-1.0.x86_64.rpm")
                    (demo_project 0) ["x86_64"].
Proof. by apply X24_find_rpm_assets_order. Defined.

(** X25. The description given to the packages of a project is never
    empty: it is the configured description when there is one, and then the provider is not asked; else the description of the
    repository when the provider gives a non-empty one; else the name of the
    project followed by [ from GitHub]. *)
Theorem X25_resolve_description :
  ∀ (w : World) (project : Project.t),
    (Project.description project ≠ "" →
     resolve_description w project = Project.description project)
    ∧ (Project.description project = "" →
       ∀ d, get_repo w (Project.repo project) = Some (Some d) → d ≠ "" →
            resolve_description w project = d)
    ∧ (Project.description project = "" →
       (∀ d, get_repo w (Project.repo project) = Some (Some d) → d = "") →
       resolve_description w project = Project.name project +:+ " from GitHub")
    ∧ resolve_description w project ≠ "".
Proof.
  intros w project. unfold resolve_description.
  assert (Hfallback : Project.name project +:+ " from GitHub" ≠ "")
    by (by apply app_nonempty_r).
  case_bool_decide as Hdesc.
  - split; [done|]. split; [|split].
    + intros _ d -> Hd. by rewrite bool_decide_eq_false_2.
    + intros _ Hnone. destruct (get_repo w _) as [[d|]|]; try done.
      by rewrite (Hnone d eq_refl).
    + destruct (get_repo w _) as [[d|]|]; try done. by case_bool_decide.
  - repeat split; done.
Qed.

Lemma X25_resolve_description_witness :
  resolve_description two_forks_world acme_app = "An application"
  ∧ resolve_description two_forks_world (Project.mk "acme/app" "app" "" 0 "")
    = "app from GitHub".
Proof.
  destruct (X25_resolve_description two_forks_world acme_app) as (H1 & _).
  destruct (X25_resolve_description two_forks_world (Project.mk "acme/app" "app" "" 0 ""))
    as (_ & _ & H3 & _).
  split; [by apply H1 | by apply H3].
Defined.
